(** * Drowsy: alarm state machine, day statistics and stream mirror

    A shallow embedding of the TypeScript front end of the Drowsy
    application:

    - [hooks/use-drowsiness-alarm.ts]  (module [Alarm]),
    - [app/(tabs)/stats.tsx]           (module [Stats]),
    - [hooks/use-firebase.ts] and [services/firebase.ts] (module [Mirror]).

    JavaScript numbers are modelled by [jsnum]: a rational for a finite
    value, plus the three non-finite values.  The operations of module
    [JsNum] are exact; module [Binary64] rounds to binary64 as the engine
    does, and module [Alarm64] is the alarm hook with its accumulator
    rounded: the statements that depend on how the accumulator adds up
    are made there, under the condition that the sums are binary64
    numbers, as with the tick of 1000 ms the application uses.  Module
    [Alarm] is the hook with the rounding left out, for the statements
    that only depend on its branches.  Counters that only ever hold whole
    numbers are [nat] or [Z].

    The tables of counts of the emotion statistics are association lists
    in module [Stats] and objects of the engine in modules [JsObject] and
    [EmotionStats]; the two agree on labels that are plain keys. *)

From Stdlib Require Import ZArith QArith Qround Lqa Bool List Lia.
From Stdlib Require Import Sorted Ascii String DecimalString.
Import ListNotations.

Set Implicit Arguments.

(* ------------------------------------------------------------------ *)
(** ** JavaScript numbers *)

Module JsNum.

Inductive jsnum : Type :=
| Fin (q : Q)
| PosInf
| NegInf
| NaN.

(** [a < b] of JavaScript: false as soon as one side is NaN. *)
Definition js_lt (a b : jsnum) : bool :=
  match a, b with
  | NaN, _ | _, NaN => false
  | Fin x, Fin y => negb (Qle_bool y x)
  | NegInf, NegInf => false
  | NegInf, _ => true
  | _, PosInf => match a with PosInf => false | _ => true end
  | _, _ => false
  end.

(** [a > b] of JavaScript. *)
Definition js_gt (a b : jsnum) : bool := js_lt b a.

(** [a - b], [a * b] and [a / b] on finite operands; a zero divisor
    gives NaN for [0 / 0] and an infinity otherwise.  Counters are never
    negative zero, so the sign of a zero divisor is positive. *)
Definition js_sub (a b : jsnum) : jsnum :=
  match a, b with
  | Fin x, Fin y => Fin (x - y)
  | NaN, _ | _, NaN => NaN
  | PosInf, PosInf | NegInf, NegInf => NaN
  | PosInf, _ | _, NegInf => PosInf
  | NegInf, _ | _, PosInf => NegInf
  end.

Definition js_sign_mul (pos : bool) (q : Q) : jsnum :=
  if Qeq_bool q 0 then NaN
  else if Bool.eqb pos (negb (Qle_bool q 0)) then PosInf else NegInf.

Definition js_mul (a b : jsnum) : jsnum :=
  match a, b with
  | Fin x, Fin y => Fin (x * y)
  | NaN, _ | _, NaN => NaN
  | PosInf, Fin y => js_sign_mul true y
  | NegInf, Fin y => js_sign_mul false y
  | Fin x, PosInf => js_sign_mul true x
  | Fin x, NegInf => js_sign_mul false x
  | PosInf, PosInf | NegInf, NegInf => PosInf
  | PosInf, NegInf | NegInf, PosInf => NegInf
  end.

Definition js_div (a b : jsnum) : jsnum :=
  match a, b with
  | Fin x, Fin y =>
      if Qeq_bool y 0 then js_sign_mul true x else Fin (x / y)
  | NaN, _ | _, NaN => NaN
  | Fin _, _ => Fin 0
  | PosInf, Fin y => if Qle_bool 0 y then PosInf else NegInf
  | NegInf, Fin y => if Qle_bool 0 y then NegInf else PosInf
  | _, _ => NaN
  end.

Definition of_nat (n : nat) : jsnum := Fin (inject_Z (Z.of_nat n)).

Definition is_finite (a : jsnum) : bool :=
  match a with Fin _ => true | _ => false end.

End JsNum.
Import JsNum.

(* ------------------------------------------------------------------ *)
(** ** The drowsiness alarm hook ([useDrowsinessAlarm]) *)

Module Alarm.

(** The hook's two arguments. *)
Record Config : Type := {
  thresholdSeconds : Q;
  pollingInterval : Q   (* milliseconds *)
}.

(** Defaults of the hook: [useDrowsinessAlarm(4, 1000)]. *)
Definition defaultConfig : Config :=
  {| thresholdSeconds := 4; pollingInterval := 1000 |}.

(** The two [useState] cells and the two [useRef] cells. *)
Record State : Type := {
  showAlarm : bool;
  eyesClosedDuration : Z;
  eyesClosedCounterRef : Q;
  alarmTriggeredRef : bool
}.

Definition initial : State :=
  {| showAlarm := false;
     eyesClosedDuration := 0;
     eyesClosedCounterRef := 0;
     alarmTriggeredRef := false |}.

(** The literal of the source, [0.25]. *)
Definition EAR_CLOSED : jsnum := Fin (1 # 4).

(** The guard of [checkDrowsiness]. *)
Definition eyesClosed (isDrowsy : bool) (earValue : jsnum) : bool :=
  isDrowsy && js_lt earValue EAR_CLOSED.

Section WithConfig.
Variable cfg : Config.

(** Seconds added per tick, [pollingInterval / 1000]. *)
Definition tickSeconds : Q := pollingInterval cfg / 1000.

(** [duration >= thresholdSeconds]. *)
Definition reached (duration : Z) : bool :=
  Qle_bool (thresholdSeconds cfg) (inject_Z duration).

(** [checkDrowsiness]: the new state, and the durations written to the
    console by the one [console.log] of the trigger branch. *)
Definition checkDrowsiness (isDrowsy : bool) (earValue : jsnum)
           (s : State) : State * list Z :=
  if eyesClosed isDrowsy earValue then
    let counter := eyesClosedCounterRef s + tickSeconds in
    let duration := Qfloor counter in
    if reached duration && negb (alarmTriggeredRef s) then
      ({| showAlarm := true;
          eyesClosedDuration := duration;
          eyesClosedCounterRef := counter;
          alarmTriggeredRef := true |}, [duration])
    else if reached duration then
      ({| showAlarm := showAlarm s;
          eyesClosedDuration := duration;
          eyesClosedCounterRef := counter;
          alarmTriggeredRef := alarmTriggeredRef s |}, [])
    else
      ({| showAlarm := showAlarm s;
          eyesClosedDuration := eyesClosedDuration s;
          eyesClosedCounterRef := counter;
          alarmTriggeredRef := alarmTriggeredRef s |}, [])
  else
    ({| showAlarm := showAlarm s;
        eyesClosedDuration := eyesClosedDuration s;
        eyesClosedCounterRef := 0;
        alarmTriggeredRef := false |}, []).

Definition dismissAlarm (s : State) : State :=
  {| showAlarm := false;
     eyesClosedDuration := eyesClosedDuration s;
     eyesClosedCounterRef := eyesClosedCounterRef s;
     alarmTriggeredRef := false |}.

Definition resetAlarm (_ : State) : State :=
  {| showAlarm := false;
     eyesClosedDuration := 0;
     eyesClosedCounterRef := 0;
     alarmTriggeredRef := false |}.

(** What can happen to the hook between two renders. *)
Inductive Event : Type :=
| Tick (isDrowsy : bool) (earValue : jsnum)
| Dismiss
| Reset.

Definition step (e : Event) (s : State) : State * list Z :=
  match e with
  | Tick d ear => checkDrowsiness d ear s
  | Dismiss => (dismissAlarm s, [])
  | Reset => (resetAlarm s, [])
  end.

(** A run of events, with the console output in order. *)
Fixpoint run (es : list Event) (s : State) : State * list Z :=
  match es with
  | [] => (s, [])
  | e :: es' =>
      let (s1, out1) := step e s in
      let (s2, out2) := run es' s1 in
      (s2, out1 ++ out2)
  end.

Definition isTick (e : Event) : bool :=
  match e with Tick _ _ => true | _ => false end.

Definition closedTick (e : Event) : bool :=
  match e with Tick d ear => eyesClosed d ear | _ => false end.

Definition openTick (e : Event) : bool :=
  match e with Tick d ear => negb (eyesClosed d ear) | _ => false end.

Definition isReset (e : Event) : bool :=
  match e with Reset => true | _ => false end.

End WithConfig.

(** The tick on which the alarm first fires in an uninterrupted episode
    that starts from a zero accumulator: the least [n >= 1] with
    [floor (n * tickSeconds) >= thresholdSeconds]. *)
Definition firingTick (cfg : Config) : Z :=
  Z.max 1 (Qceiling (inject_Z (Qceiling (thresholdSeconds cfg))
                     / tickSeconds cfg)).

(** The state an eyes-open tick leaves behind. *)
Definition afterOpen (s : State) : State :=
  {| showAlarm := showAlarm s;
     eyesClosedDuration := eyesClosedDuration s;
     eyesClosedCounterRef := 0;
     alarmTriggeredRef := false |}.

(** The readings of Scenario A: [isDrowsy = true, ear = 0.20], then
    [isDrowsy = false]. *)
Definition closedReading : Event := Tick true (Fin (1 # 5)).
Definition openReading : Event := Tick false (Fin (3 # 10)).

Definition scenarioA : list Event :=
  [closedReading; closedReading; closedReading; closedReading].

End Alarm.

(* ------------------------------------------------------------------ *)
(** ** The statistics screen ([stats.tsx]) *)

Module Stats.

Local Open Scope nat_scope.
Local Open Scope string_scope.

(** *** Dates *)

(** The local-time fields a valid [Date] answers with; [getHours] is
    always one of 0..23. *)
Record LocalFields : Type := {
  fullYear : Z;
  month : nat;     (* getMonth(), 0-based *)
  day : nat;       (* getDate() *)
  hours : nat;     (* getHours() *)
  hours_range : (hours <? 24)%nat = true
}.

(** A [Date] object: an unparsable string gives the invalid date, whose
    getters all answer NaN. *)
Inductive JsDate : Type :=
| InvalidDate
| ValidDate (f : LocalFields).

(** What the JavaScript runtime contributes: [new Date(string)] in the
    viewer's time zone, and [String.prototype.toLowerCase]. *)
Class Runtime : Type := {
  Date_parse : string -> JsDate;
  toLowerCase : string -> string
}.

(** [d.getHours()]: [None] stands for NaN. *)
Definition getHours (d : JsDate) : option nat :=
  match d with
  | InvalidDate => None
  | ValidDate f => Some (hours f)
  end.

Definition String_of_nat (n : nat) : string :=
  NilZero.string_of_uint (Nat.to_uint n).

Definition String_of_Z (z : Z) : string :=
  NilZero.string_of_int (Z.to_int z).

(** [s.padStart(2, '0')]. *)
Definition padStart2 (s : string) : string :=
  match String.length s with
  | O => "00"
  | S O => "0" ++ s
  | _ => s
  end.

(** [formatDateKey]: "YYYY-MM-DD" in local time. *)
Definition formatDateKey (date : JsDate) : string :=
  match date with
  | InvalidDate => "NaN-NaN-NaN"
  | ValidDate f =>
      let y := String_of_Z (fullYear f) in
      let m := padStart2 (String_of_nat (month f + 1)) in
      let d := padStart2 (String_of_nat (day f)) in
      y ++ "-" ++ m ++ "-" ++ d
  end.

(** Truthiness of a string: only the empty string is falsy. *)
Definition truthy (s : string) : bool := negb (s =? "").

(** *** Records of the realtime database *)

Module Alert.
(** [AlertData]. *)
Record t : Type := {
  type : string;
  alert_level : string;
  ear : jsnum;
  mar : jsnum;
  message : string;
  timestamp : string;
  duration : jsnum
}.
End Alert.

Module Emotion.
(** [EmotionData]. *)
Record t : Type := {
  emotion : string;
  emotion_scores : list (string * jsnum);
  timestamp : string
}.
End Emotion.

(** A [Record<string, V>]: the own properties in enumeration order, each
    key once. *)
Definition Mapping (V : Type) : Type := list (string * V).

Definition Object_values {V} (m : Mapping V) : list V := map snd m.

(** [delete m[k]]: the other properties keep their order. *)
Definition remove_key {V} (k : string) (m : Mapping V) : Mapping V :=
  filter (fun p => negb (fst p =? k)) m.

(** *** Control flow *)

(** A computation either returns or throws a TypeError. *)
Inductive completion (A : Type) : Type :=
| Returns (a : A)
| Throws.
Arguments Throws {A}.

Definition bind {A B} (c : completion A) (k : A -> completion B)
  : completion B :=
  match c with
  | Returns a => k a
  | Throws => Throws
  end.

(** [xs.forEach(x => ...)] over a body that updates the captured
    variables [S]. *)
Fixpoint forEach {A S} (body : S -> A -> completion S) (xs : list A) (s : S)
  : completion S :=
  match xs with
  | [] => Returns s
  | x :: xs' => bind (body s x) (forEach body xs')
  end.

(** [arr[i].field++]: reading a field of [undefined] throws. *)
Fixpoint bump {B} (f : B -> B) (i : nat) (arr : list B)
  : completion (list B) :=
  match arr, i with
  | [], _ => Throws
  | b :: rest, O => Returns (f b :: rest)
  | b :: rest, S i' => bind (bump f i' rest) (fun r => Returns (b :: r))
  end.

(** *** Alert statistics of one day *)

Module Hour.
Record t : Type := { hour : nat; drowsy : nat; yawn : nat; total : nat }.
Definition incTotal (b : t) : t :=
  {| hour := hour b; drowsy := drowsy b; yawn := yawn b; total := S (total b) |}.
Definition incDrowsy (b : t) : t :=
  {| hour := hour b; drowsy := S (drowsy b); yawn := yawn b; total := total b |}.
Definition incYawn (b : t) : t :=
  {| hour := hour b; drowsy := drowsy b; yawn := S (yawn b); total := total b |}.
End Hour.

(** [DayStats]. *)
Module Day.
Record t : Type := {
  total : nat;
  drowsy : nat;
  yawn : nat;
  hourly : list Hour.t
}.
End Day.

(** [EmotionDayStats] and its hourly entries. *)
Module EmotionHour.
Record t : Type := { hour : nat; counts : Mapping nat; total : nat }.
Definition incTotal (b : t) : t :=
  {| hour := hour b; counts := counts b; total := S (total b) |}.
Definition incCounts (f : Mapping nat -> Mapping nat) (b : t) : t :=
  {| hour := hour b; counts := f (counts b); total := total b |}.
End EmotionHour.

Module EmotionDay.
Record t : Type := {
  total : nat;
  counts : Mapping nat;
  hourly : list EmotionHour.t;
  dominant : string
}.
End EmotionDay.

Section WithRuntime.
Context {rt : Runtime}.

(** The body of the [forEach] of [computeDayStats]. *)
Definition visitAlert (dayKey : string) (st : Day.t) (a : Alert.t)
  : completion Day.t :=
  if negb (truthy (Alert.timestamp a)) then Returns st
  else
    let d := Date_parse (Alert.timestamp a) in
    if negb (formatDateKey d =? dayKey) then Returns st
    else
      let total := S (Day.total st) in
      match getHours d with
      | None => Throws          (* hours[NaN] is undefined *)
      | Some h =>
          bind (bump Hour.incTotal h (Day.hourly st)) (fun hours =>
          if Alert.type a =? "drowsiness" then
            bind (bump Hour.incDrowsy h hours) (fun hours =>
            Returns {| Day.total := total;
                       Day.drowsy := S (Day.drowsy st);
                       Day.yawn := Day.yawn st;
                       Day.hourly := hours |})
          else if Alert.type a =? "yawning" then
            bind (bump Hour.incYawn h hours) (fun hours =>
            Returns {| Day.total := total;
                       Day.drowsy := Day.drowsy st;
                       Day.yawn := S (Day.yawn st);
                       Day.hourly := hours |})
          else
            Returns {| Day.total := total;
                       Day.drowsy := Day.drowsy st;
                       Day.yawn := Day.yawn st;
                       Day.hourly := hours |})
      end.

Definition emptyDay : Day.t :=
  {| Day.total := 0; Day.drowsy := 0; Day.yawn := 0;
     Day.hourly :=
       map (fun i => {| Hour.hour := i; Hour.drowsy := 0;
                        Hour.yawn := 0; Hour.total := 0 |}) (seq 0 24) |}.

Definition computeDayStats (alerts : Mapping Alert.t) (dayKey : string)
  : completion Day.t :=
  forEach (visitAlert dayKey) (Object_values alerts) emptyDay.

(** The three derived rates of the screen. *)
Definition daySafeRate (dayStats : Day.t) : jsnum :=
  if js_gt (of_nat (Day.total dayStats)) (Fin 0) then
    js_mul (js_div (js_sub (js_sub (of_nat (Day.total dayStats))
                                   (of_nat (Day.drowsy dayStats)))
                           (of_nat (Day.yawn dayStats)))
                   (of_nat (Day.total dayStats)))
           (Fin 100)
  else Fin 100.

Definition dayDrowsyRate (dayStats : Day.t) : jsnum :=
  if js_gt (of_nat (Day.total dayStats)) (Fin 0) then
    js_mul (js_div (of_nat (Day.drowsy dayStats))
                   (of_nat (Day.total dayStats))) (Fin 100)
  else Fin 0.

Definition dayYawnRate (dayStats : Day.t) : jsnum :=
  if js_gt (of_nat (Day.total dayStats)) (Fin 0) then
    js_mul (js_div (of_nat (Day.yawn dayStats))
                   (of_nat (Day.total dayStats))) (Fin 100)
  else Fin 0.

(** *** Emotion statistics of one day *)

(** [counts[em] || 0]. *)
Fixpoint getCount (em : string) (counts : Mapping nat) : nat :=
  match counts with
  | [] => 0
  | (k, c) :: rest => if k =? em then c else getCount em rest
  end.

(** [counts[em] = v]: an existing property keeps its place, a new one
    goes last.  (Emotion labels are words; a label that is an array index
    such as "7" would be enumerated before the others.) *)
Fixpoint setCount (em : string) (v : nat) (counts : Mapping nat)
  : Mapping nat :=
  match counts with
  | [] => [(em, v)]
  | (k, c) :: rest =>
      if k =? em then (k, v) :: rest else (k, c) :: setCount em v rest
  end.

(** [counts[em] = (counts[em] || 0) + 1]. *)
Definition incCount (em : string) (counts : Mapping nat) : Mapping nat :=
  setCount em (getCount em counts + 1) counts.

(** The body of the [forEach] of [computeEmotionDayStats]. *)
Definition visitEmotion (dayKey : string) (st : EmotionDay.t)
           (e : Emotion.t) : completion EmotionDay.t :=
  if negb (truthy (Emotion.timestamp e)) || negb (truthy (Emotion.emotion e))
  then Returns st
  else
    let d := Date_parse (Emotion.timestamp e) in
    if negb (formatDateKey d =? dayKey) then Returns st
    else
      let em := toLowerCase (Emotion.emotion e) in
      let total := S (EmotionDay.total st) in
      let counts := incCount em (EmotionDay.counts st) in
      match getHours d with
      | None => Throws          (* hours[NaN] is undefined *)
      | Some h =>
          bind (bump EmotionHour.incTotal h (EmotionDay.hourly st))
            (fun hours =>
          bind (bump (EmotionHour.incCounts (incCount em)) h hours)
            (fun hours =>
          Returns {| EmotionDay.total := total;
                     EmotionDay.counts := counts;
                     EmotionDay.hourly := hours;
                     EmotionDay.dominant := EmotionDay.dominant st |}))
      end.

Definition emptyEmotionDay : EmotionDay.t :=
  {| EmotionDay.total := 0;
     EmotionDay.counts := [];
     EmotionDay.hourly :=
       map (fun i => {| EmotionHour.hour := i; EmotionHour.counts := [];
                        EmotionHour.total := 0 |}) (seq 0 24);
     EmotionDay.dominant := "neutral" |}.

(** The scan for the dominant emotion:
    [if (c > maxCount) { maxCount = c; dominant = em; }]. *)
Definition scanDominant (acc : string * nat) (entry : string * nat)
  : string * nat :=
  let (dominant, maxCount) := acc in
  let (em, c) := entry in
  if (maxCount <? c)%nat then (em, c) else (dominant, maxCount).

Definition findDominant (counts : Mapping nat) : string :=
  fst (fold_left scanDominant counts ("neutral", 0)).

Definition computeEmotionDayStats (emotions : Mapping Emotion.t)
           (dayKey : string) : completion EmotionDay.t :=
  bind (forEach (visitEmotion dayKey) (Object_values emotions)
                emptyEmotionDay)
       (fun st =>
  Returns {| EmotionDay.total := EmotionDay.total st;
             EmotionDay.counts := EmotionDay.counts st;
             EmotionDay.hourly := EmotionDay.hourly st;
             EmotionDay.dominant := findDominant (EmotionDay.counts st) |}).

(** *** The day navigator *)

(** [daySet.add(x)] on an insertion-ordered [Set]. *)
Definition Set_add (x : string) (s : list string) : list string :=
  if existsb (String.eqb x) s then s else s ++ [x].

(** [Array.prototype.sort()] with the default comparison, on strings.
    The elements sorted here are distinct, so every sorting algorithm
    gives this result. *)
Fixpoint insertSorted (x : string) (l : list string) : list string :=
  match l with
  | [] => [x]
  | y :: l' => if (x <=? y) then x :: l else y :: insertSorted x l'
  end.

Definition Array_sort (l : list string) : list string :=
  fold_right insertSorted [] l.

Definition Array_includes (x : string) (l : list string) : bool :=
  existsb (String.eqb x) l.

Definition addAlertDay (daySet : list string) (a : Alert.t) : list string :=
  if truthy (Alert.timestamp a)
  then Set_add (formatDateKey (Date_parse (Alert.timestamp a))) daySet
  else daySet.

Definition addEmotionDay (daySet : list string) (e : Emotion.t)
  : list string :=
  if truthy (Emotion.timestamp e)
  then Set_add (formatDateKey (Date_parse (Emotion.timestamp e))) daySet
  else daySet.

(** [getAvailableDays]; [now] is the value of [new Date()]. *)
Definition getAvailableDays (now : LocalFields)
           (alerts : Mapping Alert.t) (emotions : Mapping Emotion.t)
  : list string :=
  let daySet := fold_left addAlertDay (Object_values alerts) [] in
  let daySet := fold_left addEmotionDay (Object_values emotions) daySet in
  let sorted := rev (Array_sort daySet) in
  let todayKey := formatDateKey (ValidDate now) in
  if negb (Array_includes todayKey sorted) then todayKey :: sorted
  else sorted.

(** [availableDays[selectedDayIdx] || formatDateKey(new Date())]. *)
Definition selectedDay (now : LocalFields) (availableDays : list string)
           (selectedDayIdx : nat) : string :=
  match nth_error availableDays selectedDayIdx with
  | Some k => if truthy k then k else formatDateKey (ValidDate now)
  | None => formatDateKey (ValidDate now)
  end.

Definition canGoPrev (availableDays : list string) (selectedDayIdx : nat)
  : bool :=
  (Z.of_nat selectedDayIdx <? Z.of_nat (List.length availableDays) - 1)%Z.

Definition canGoNext (selectedDayIdx : nat) : bool :=
  (0 <? selectedDayIdx)%nat.

(** The two arrows of the day picker:
    [canGoPrev && setSelectedDayIdx(selectedDayIdx + 1)] and
    [canGoNext && setSelectedDayIdx(selectedDayIdx - 1)]. *)
Definition pressPrev (availableDays : list string) (selectedDayIdx : nat)
  : nat :=
  if canGoPrev availableDays selectedDayIdx then selectedDayIdx + 1
  else selectedDayIdx.

Definition pressNext (selectedDayIdx : nat) : nat :=
  if canGoNext selectedDayIdx then selectedDayIdx - 1 else selectedDayIdx.

Inductive Press : Type := Prev | Next.

Definition press (availableDays : list string) (p : Press) (idx : nat)
  : nat :=
  match p with
  | Prev => pressPrev availableDays idx
  | Next => pressNext idx
  end.

End WithRuntime.

(** *** Comparing two results counter by counter *)

Definition Hour_le (b' b : Hour.t) : Prop :=
  Hour.hour b' = Hour.hour b /\
  Hour.drowsy b' <= Hour.drowsy b /\
  Hour.yawn b' <= Hour.yawn b /\
  Hour.total b' <= Hour.total b.

Definition Day_le (r' r : Day.t) : Prop :=
  Day.total r' <= Day.total r /\
  Day.drowsy r' <= Day.drowsy r /\
  Day.yawn r' <= Day.yawn r /\
  Forall2 Hour_le (Day.hourly r') (Day.hourly r).

(** Every emotion has at most the count it has on the other side; an
    absent property counts as absent on both sides of [||]. *)
Definition Counts_le (c' c : Mapping nat) : Prop :=
  forall em, getCount em c' <= getCount em c.

Definition EmotionHour_le (b' b : EmotionHour.t) : Prop :=
  EmotionHour.hour b' = EmotionHour.hour b /\
  EmotionHour.total b' <= EmotionHour.total b /\
  Counts_le (EmotionHour.counts b') (EmotionHour.counts b).

Definition EmotionDay_le (r' r : EmotionDay.t) : Prop :=
  EmotionDay.total r' <= EmotionDay.total r /\
  Counts_le (EmotionDay.counts r') (EmotionDay.counts r) /\
  Forall2 EmotionHour_le (EmotionDay.hourly r') (EmotionDay.hourly r).

(** [Σ hourly[i].total]. *)
Definition sumHourlyTotal (hours : list Hour.t) : nat :=
  list_sum (map Hour.total hours).

(** What holds of the captured variables of [computeDayStats] all along
    its loop. *)
Definition DayInv (st : Day.t) : Prop :=
  Day.drowsy st + Day.yawn st <= Day.total st /\
  sumHourlyTotal (Day.hourly st) = Day.total st /\
  List.length (Day.hourly st) = 24.

(** [(total - drowsy - yawn) / total * 100] on the counters of a day. *)
Definition safeRateFormula (r : Day.t) : Q :=
  (inject_Z (Z.of_nat (Day.total r)) - inject_Z (Z.of_nat (Day.drowsy r))
   - inject_Z (Z.of_nat (Day.yawn r)))
  / inject_Z (Z.of_nat (Day.total r)) * 100.

Section Labels.
Context {rt : Runtime}.

(** Whether [computeEmotionDayStats] counts the record for [dayKey]. *)
Definition countedEmotion (dayKey : string) (e : Emotion.t) : bool :=
  truthy (Emotion.timestamp e) && truthy (Emotion.emotion e) &&
  (formatDateKey (Date_parse (Emotion.timestamp e)) =? dayKey).

(** The categories of the day's records, in the order the records are
    visited. *)
Definition dayLabels (emotions : Mapping Emotion.t) (dayKey : string)
  : list string :=
  map (fun e => toLowerCase (Emotion.emotion e))
      (filter (countedEmotion dayKey) (Object_values emotions)).

End Labels.

End Stats.

(* ------------------------------------------------------------------ *)
(** ** Concrete inputs *)

Module Scenarios.

Import Stats.
Local Open Scope nat_scope.
Local Open Scope string_scope.

(** Local times of the timestamps used below. *)
Definition may1_1015 : LocalFields :=
  {| fullYear := 2024; month := 4; day := 1; hours := 10;
     hours_range := eq_refl |}.
Definition may2_0900 : LocalFields :=
  {| fullYear := 2024; month := 4; day := 2; hours := 9;
     hours_range := eq_refl |}.
Definition may2_1200 : LocalFields :=
  {| fullYear := 2024; month := 4; day := 2; hours := 12;
     hours_range := eq_refl |}.
Definition may3_0100 : LocalFields :=
  {| fullYear := 2024; month := 4; day := 3; hours := 1;
     hours_range := eq_refl |}.

(** [new Date(s)] on the date-time strings of the scenarios (a date-time
    without offset is local time); every other string is unparsable
    here. *)
Definition parseTable (s : string) : JsDate :=
  if s =? "2024-05-01T10:15" then ValidDate may1_1015
  else if s =? "2024-05-02T09:00" then ValidDate may2_0900
  else if s =? "2024-05-02T12:00" then ValidDate may2_1200
  else if s =? "2024-05-03T01:00" then ValidDate may3_0100
  else InvalidDate.

(** [toLowerCase] on ASCII. *)
Definition lowerAscii (c : ascii) : ascii :=
  let n := nat_of_ascii c in
  if ((65 <=? n)%nat && (n <=? 90)%nat)%bool then ascii_of_nat (n + 32) else c.

Fixpoint lowerString (s : string) : string :=
  match s with
  | EmptyString => EmptyString
  | String c rest => String (lowerAscii c) (lowerString rest)
  end.

Definition runtime : Runtime :=
  {| Date_parse := parseTable; toLowerCase := lowerString |}.

Definition alertOf (type timestamp : string) : Alert.t :=
  {| Alert.type := type;
     Alert.alert_level := "warning";
     Alert.ear := Fin (1 # 5);
     Alert.mar := Fin (1 # 2);
     Alert.message := "";
     Alert.timestamp := timestamp;
     Alert.duration := Fin 4 |}.

Definition emotionOf (emotion timestamp : string) : Emotion.t :=
  {| Emotion.emotion := emotion;
     Emotion.emotion_scores := [];
     Emotion.timestamp := timestamp |}.

(** Scenario B. *)
Definition scenarioB : Mapping Alert.t :=
  [("a1", alertOf "drowsiness" "2024-05-01T10:15");
   ("a2", alertOf "yawning" "2024-05-01T10:15");
   ("a3", alertOf "drowsiness" "2024-05-02T09:00")].

(** Scenario D: "happy" and "sad" twice each, "happy" first. *)
Definition scenarioD : Mapping Emotion.t :=
  [("e1", emotionOf "Happy" "2024-05-01T10:15");
   ("e2", emotionOf "sad" "2024-05-01T10:15");
   ("e3", emotionOf "sad" "2024-05-01T10:15");
   ("e4", emotionOf "happy" "2024-05-01T10:15")].

(** One alert stamped on the day after the viewer's today. *)
Definition tomorrowAlert : Mapping Alert.t :=
  [("a1", alertOf "drowsiness" "2024-05-03T01:00")].

(** One alert whose timestamp cannot be parsed, and one of today. *)
Definition unparsableAlert : Mapping Alert.t :=
  [("a1", alertOf "drowsiness" "yesterday evening");
   ("a2", alertOf "yawning" "2024-05-02T09:00")].

End Scenarios.

(* ------------------------------------------------------------------ *)
(** ** The realtime mirror ([services/firebase.ts], [use-firebase.ts]) *)

Module Mirror.

Import Stats.
Local Open Scope string_scope.

(** A JavaScript [Error]; only its message is read. *)
Record Error : Type := { message : string }.

(** What the realtime channel delivers to a listener: a snapshot whose
    [val()] is the whole mapping ([None] for [null]), or an error. *)
Inductive ChannelEvent (V : Type) : Type :=
| Snapshot (val : option (Mapping V))
| Cancelled (error : Error).
Arguments Cancelled {V}.

(** [data || {}]. *)
Definition orEmpty {V} (val : option (Mapping V)) : Mapping V :=
  match val with
  | Some data => data
  | None => []
  end.

(** [subscribeToAlerts] and [subscribeToEmotions]: the two listeners
    handed to [onValue], as the effect of one channel event on the
    subscriber's state [S]. *)
Definition subscribeToAlerts {S}
           (callback : Mapping Alert.t -> S -> S)
           (onError : option (Error -> S -> S))
           (ev : ChannelEvent Alert.t) (s : S) : S :=
  match ev with
  | Snapshot val => callback (orEmpty val) s
  | Cancelled error =>
      match onError with
      | Some handler => handler error s
      | None => s
      end
  end.

Definition subscribeToEmotions {S}
           (callback : Mapping Emotion.t -> S -> S)
           (onError : option (Error -> S -> S))
           (ev : ChannelEvent Emotion.t) (s : S) : S :=
  match ev with
  | Snapshot val => callback (orEmpty val) s
  | Cancelled error =>
      match onError with
      | Some handler => handler error s
      | None => s
      end
  end.

(** [useFirebaseAlerts]. *)
Module Alerts.
Record State : Type := {
  alerts : Mapping Alert.t;
  latestAlert : option Alert.t;
  loading : bool;
  error : option string
}.

Definition initial : State :=
  {| alerts := []; latestAlert := None; loading := true; error := None |}.

Section WithLatest.
(** [getLatestAlert] sorts with a subtraction of two [getTime()]
    values as comparison; what it picks is left open here. *)
Variable getLatestAlert : Mapping Alert.t -> option Alert.t.

Definition onData (data : Mapping Alert.t) (s : State) : State :=
  {| alerts := data;
     latestAlert := getLatestAlert data;
     loading := false;
     error := error s |}.

Definition onErr (err : Error) (s : State) : State :=
  {| alerts := alerts s;
     latestAlert := latestAlert s;
     loading := false;
     error := Some (message err) |}.

Definition handle : ChannelEvent Alert.t -> State -> State :=
  subscribeToAlerts onData (Some onErr).

Definition handleAll (evs : list (ChannelEvent Alert.t)) (s : State)
  : State :=
  fold_left (fun st ev => handle ev st) evs s.
End WithLatest.
End Alerts.

(** [useFirebaseEmotions]. *)
Module Emotions.
Record State : Type := {
  emotions : Mapping Emotion.t;
  latestEmotion : option Emotion.t;
  loading : bool;
  error : option string
}.

Definition initial : State :=
  {| emotions := []; latestEmotion := None; loading := true;
     error := None |}.

Section WithLatest.
Variable getLatestEmotion : Mapping Emotion.t -> option Emotion.t.

Definition onData (data : Mapping Emotion.t) (s : State) : State :=
  {| emotions := data;
     latestEmotion := getLatestEmotion data;
     loading := false;
     error := error s |}.

Definition onErr (err : Error) (s : State) : State :=
  {| emotions := emotions s;
     latestEmotion := latestEmotion s;
     loading := false;
     error := Some (message err) |}.

Definition handle : ChannelEvent Emotion.t -> State -> State :=
  subscribeToEmotions onData (Some onErr).

Definition handleAll (evs : list (ChannelEvent Emotion.t)) (s : State)
  : State :=
  fold_left (fun st ev => handle ev st) evs s.
End WithLatest.
End Emotions.

(** The mapping of the last snapshot among [evs], if there is one. *)
Fixpoint lastSnapshot {V} (evs : list (ChannelEvent V)) (held : Mapping V)
  : Mapping V :=
  match evs with
  | [] => held
  | Snapshot val :: rest => lastSnapshot rest (orEmpty val)
  | Cancelled _ :: rest => lastSnapshot rest held
  end.

Definition isError {V} (ev : ChannelEvent V) : bool :=
  match ev with Cancelled _ => true | Snapshot _ => false end.

End Mirror.

(* ------------------------------------------------------------------ *)
(** ** Rounding to binary64 *)

(** The result of an arithmetic operation of JavaScript is the exact
    result rounded to the nearest binary64 number, ties to the even
    significand.  The sign of a zero is not kept: nothing below tells the
    two zeros apart. *)
Module Binary64.

Definition pow2 (e : Z) : Q := Qpower 2 e.

(** [floor (log2 a)] for [a > 0]. *)
Definition ilog2 (a : Q) : Z :=
  let e0 := (Z.log2 (Qnum a) - Z.log2 (Zpos (Qden a)))%Z in
  if Qle_bool (pow2 e0) a then e0 else (e0 - 1)%Z.

(** The nearest integer, ties to even. *)
Definition roundHalfEven (m : Q) : Z :=
  let f := Qfloor m in
  match Qcompare (m - inject_Z f) (1 # 2) with
  | Lt => f
  | Gt => (f + 1)%Z
  | Eq => if Z.even f then f else (f + 1)%Z
  end.

(** Rounding of [a > 0]: 53 significant bits, the exponent of the last
    bit not below -1074 (subnormal numbers), and infinity from 2^1024
    on. *)
Definition roundMagnitude (a : Q) : jsnum :=
  let e := Z.max (ilog2 a) (-1022) in
  let ulp := pow2 (e - 52) in
  let r := Qred (inject_Z (roundHalfEven (a / ulp)) * ulp) in
  if Qle_bool (pow2 1024) r then PosInf else Fin r.

Definition js_neg (a : jsnum) : jsnum :=
  match a with
  | Fin q => Fin (- q)
  | PosInf => NegInf
  | NegInf => PosInf
  | NaN => NaN
  end.

Definition round64 (x : Q) : jsnum :=
  match Qcompare x 0 with
  | Eq => Fin 0
  | Gt => roundMagnitude (Qred x)
  | Lt => js_neg (roundMagnitude (Qred (- x)))
  end.

(** Whether a rational is a binary64 number. *)
Definition representable (x : Q) : bool :=
  match round64 x with
  | Fin q => Qeq_bool q x
  | _ => false
  end.

(** [a + b]. *)
Definition js_add (a b : jsnum) : jsnum :=
  match a, b with
  | Fin x, Fin y => round64 (x + y)
  | NaN, _ | _, NaN => NaN
  | PosInf, NegInf | NegInf, PosInf => NaN
  | PosInf, _ | _, PosInf => PosInf
  | NegInf, _ | _, NegInf => NegInf
  end.

(** [Math.floor(a)]; the floor of a binary64 number is one. *)
Definition js_floor (a : jsnum) : jsnum :=
  match a with
  | Fin q => Fin (inject_Z (Qfloor q))
  | _ => a
  end.

(** [a >= b]. *)
Definition js_ge (a b : jsnum) : bool :=
  match a, b with
  | NaN, _ | _, NaN => false
  | Fin x, Fin y => Qle_bool y x
  | PosInf, _ => true
  | _, NegInf => true
  | _, _ => false
  end.

End Binary64.

(* ------------------------------------------------------------------ *)
(** ** Episodes of the alarm hook, and the avatar that shows them *)

Module Episode.

Import Alarm.

(** How many closed-eye ticks have come since the accumulator was last
    set to 0, after the events [es] on top of [n] earlier ones: an
    eyes-open tick and [resetAlarm] start again from 0, [dismissAlarm]
    changes nothing. *)
Definition streakStep (n : nat) (e : Event) : nat :=
  match e with
  | Tick isDrowsy earValue => if eyesClosed isDrowsy earValue then S n else O
  | Dismiss => n
  | Reset => O
  end.

Definition closedStreak (es : list Event) (n : nat) : nat :=
  fold_left streakStep es n.

End Episode.

(** [components/driver-avatar.tsx]. *)
Module Avatar.

Inductive AvatarState : Type :=
| sleeping
| very_drowsy
| drowsy
| alert.

(** The [avatarState] memo of [DriverAvatar]. *)
Definition avatarState (isDrowsy isSleepy : bool) (eyesClosedDuration : Z)
  : AvatarState :=
  if (isSleepy || (6 <=? eyesClosedDuration)%Z)%bool then sleeping
  else if (isDrowsy && (4 <=? eyesClosedDuration)%Z)%bool then very_drowsy
  else if isDrowsy then drowsy
  else alert.

(** The avatar as the detection screen renders it:
    [isSleepy={eyesClosedDuration >= 6}]. *)
Definition screenAvatar (is_drowsy : bool) (alarm : Alarm.State)
  : AvatarState :=
  avatarState is_drowsy (6 <=? Alarm.eyesClosedDuration alarm)%Z
              (Alarm.eyesClosedDuration alarm).

End Avatar.

(** [components/alarm-modal.tsx]. *)
Module Modal.

Local Open Scope string_scope.

(** The duration line of [AlarmModal]:
    [Eyes Closed for {eyesClosedDuration}
     second{eyesClosedDuration > 1 ? 's' : ''}]. *)
Definition durationText (eyesClosedDuration : Z) : string :=
  "Eyes Closed for " ++ Stats.String_of_Z eyesClosedDuration ++ " second"
  ++ (if (1 <? eyesClosedDuration)%Z then "s" else "").

(** What the detection screen hands to the modal: [visible={showAlarm}]
    and [eyesClosedDuration={eyesClosedDuration}]; [None] when the modal
    is not visible. *)
Definition screenModal (alarm : Alarm.State) : option string :=
  if Alarm.showAlarm alarm
  then Some (durationText (Alarm.eyesClosedDuration alarm))
  else None.

End Modal.

(* ------------------------------------------------------------------ *)
(** ** The alarm hook in binary64 *)

(** [useDrowsinessAlarm] once more, with the accumulator as the engine
    holds it: every sum and the quotient [pollingInterval / 1000] are
    rounded to binary64.  Module [Alarm] is this hook with the rounding
    left out; the two agree as long as the sums are binary64 numbers
    ([Alarm64.agree]). *)
Module Alarm64.

Import Binary64.

Record State : Type := {
  showAlarm : bool;
  eyesClosedDuration : jsnum;
  eyesClosedCounterRef : jsnum;
  alarmTriggeredRef : bool
}.

Definition initial : State :=
  {| showAlarm := false;
     eyesClosedDuration := Fin 0;
     eyesClosedCounterRef := Fin 0;
     alarmTriggeredRef := false |}.

Section WithConfig.
Variable cfg : Alarm.Config.

(** [pollingInterval / 1000]. *)
Definition tickSeconds : jsnum := round64 (Alarm.pollingInterval cfg / 1000).

(** [duration >= thresholdSeconds]. *)
Definition reached (duration : jsnum) : bool :=
  js_ge duration (Fin (Alarm.thresholdSeconds cfg)).

(** [checkDrowsiness]: the new state, and the durations written to the
    console. *)
Definition checkDrowsiness (isDrowsy : bool) (earValue : jsnum)
           (s : State) : State * list jsnum :=
  if Alarm.eyesClosed isDrowsy earValue then
    let counter := js_add (eyesClosedCounterRef s) tickSeconds in
    let duration := js_floor counter in
    if reached duration && negb (alarmTriggeredRef s) then
      ({| showAlarm := true;
          eyesClosedDuration := duration;
          eyesClosedCounterRef := counter;
          alarmTriggeredRef := true |}, [duration])
    else if reached duration then
      ({| showAlarm := showAlarm s;
          eyesClosedDuration := duration;
          eyesClosedCounterRef := counter;
          alarmTriggeredRef := alarmTriggeredRef s |}, [])
    else
      ({| showAlarm := showAlarm s;
          eyesClosedDuration := eyesClosedDuration s;
          eyesClosedCounterRef := counter;
          alarmTriggeredRef := alarmTriggeredRef s |}, [])
  else
    ({| showAlarm := showAlarm s;
        eyesClosedDuration := eyesClosedDuration s;
        eyesClosedCounterRef := Fin 0;
        alarmTriggeredRef := false |}, []).

Definition dismissAlarm (s : State) : State :=
  {| showAlarm := false;
     eyesClosedDuration := eyesClosedDuration s;
     eyesClosedCounterRef := eyesClosedCounterRef s;
     alarmTriggeredRef := false |}.

Definition resetAlarm (_ : State) : State :=
  {| showAlarm := false;
     eyesClosedDuration := Fin 0;
     eyesClosedCounterRef := Fin 0;
     alarmTriggeredRef := false |}.

Definition step (e : Alarm.Event) (s : State) : State * list jsnum :=
  match e with
  | Alarm.Tick d ear => checkDrowsiness d ear s
  | Alarm.Dismiss => (dismissAlarm s, [])
  | Alarm.Reset => (resetAlarm s, [])
  end.

(** A run of events, with the console output in order. *)
Fixpoint run (es : list Alarm.Event) (s : State) : State * list jsnum :=
  match es with
  | [] => (s, [])
  | e :: es' =>
      let (s1, out1) := step e s in
      let (s2, out2) := run es' s1 in
      (s2, out1 ++ out2)
  end.

(** The first [n] multiples of the tick period [pollingInterval / 1000]
    are binary64 numbers, the period itself included: an episode of up
    to [n] closed-eye ticks is added up without rounding. *)
Definition exactTicks (n : nat) : bool :=
  forallb (fun j => representable (inject_Z (Z.of_nat j)
                                   * (Alarm.pollingInterval cfg / 1000)))
          (seq 1 n).

End WithConfig.

(** A whole number as a JavaScript number. *)
Definition whole (d : Z) : jsnum := Fin (inject_Z d).

(** A state of the hook and a state of the hook without rounding that
    hold the same flags and the same accumulator. *)
Definition agree (s : State) (s' : Alarm.State) : Prop :=
  showAlarm s = Alarm.showAlarm s' /\
  alarmTriggeredRef s = Alarm.alarmTriggeredRef s' /\
  exists c, eyesClosedCounterRef s = Fin c /\
            c == Alarm.eyesClosedCounterRef s'.

(** The state without rounding that a state with a finite accumulator
    stands for; the published duration plays no part in what the hook
    does next. *)
Definition exactState (s : State) (c : Q) : Alarm.State :=
  {| Alarm.showAlarm := showAlarm s;
     Alarm.eyesClosedDuration := 0;
     Alarm.eyesClosedCounterRef := c;
     Alarm.alarmTriggeredRef := alarmTriggeredRef s |}.

(** A threshold of one second polled every 100 ms. *)
Definition tenthOfASecond : Alarm.Config :=
  {| Alarm.thresholdSeconds := 1; Alarm.pollingInterval := 100 |}.

End Alarm64.

(* ------------------------------------------------------------------ *)
(** ** The HTTP client ([services/api.ts]) *)

Module Api.

Local Open Scope nat_scope.
Local Open Scope string_scope.

(** What a [catch] receives: an [Error] with its message, or a value that
    is no [Error]. *)
Inductive Thrown : Type :=
| ErrorObject (message : string)
| OtherValue.

(** [private retryCount = 3] and [private retryDelay = 1000]. *)
Definition retryCount : nat := 3.
Definition retryDelay : nat := 1000.

Section Fetch.
Variable T : Type.

(** What the network does to one attempt: [fetch] rejects, or there is a
    response with its [ok], [status] and [statusText], whose [json()]
    gives the data or rejects. *)
Inductive Attempt : Type :=
| FetchRejected (error : Thrown)
| Response (ok : bool) (status : nat) (statusText : string)
           (json : T + Thrown).

(** The [try] block of [fetchWithRetry]. *)
Definition tryOnce (a : Attempt) : T + Thrown :=
  match a with
  | FetchRejected error => inr error
  | Response ok status statusText json =>
      if negb ok then
        inr (ErrorObject ("API Error: " ++ Stats.String_of_nat status
                          ++ " - " ++ statusText))
      else json
  end.

(** What a call of [fetchWithRetry] comes to: the data returned or the
    value thrown, the number of attempts made and the milliseconds spent
    waiting between them. *)
Record Fetched : Type := {
  result : T + Thrown;
  attempts : nat;
  waited : nat
}.

(** The body of [fetchWithRetry]; [net n] is what the network does to the
    attempt numbered [n], and [remaining] is [retryCount - attempt], so
    that [attempt < this.retryCount] reads [remaining] is not 0. *)
Fixpoint fetchLoop (remaining : nat) (net : nat -> Attempt) (attempt : nat)
  : Fetched :=
  match tryOnce (net attempt) with
  | inl data => {| result := inl data; attempts := 1; waited := 0 |}
  | inr error =>
      match remaining with
      | S remaining' =>
          let r := fetchLoop remaining' net (attempt + 1) in
          {| result := result r;
             attempts := 1 + attempts r;
             waited := retryDelay + waited r |}
      | O => {| result := inr error; attempts := 1; waited := 0 |}
      end
  end.

Definition fetchWithRetry (net : nat -> Attempt) (attempt : nat) : Fetched :=
  fetchLoop (retryCount - attempt) net attempt.

End Fetch.

Arguments FetchRejected {T}.
Arguments Response {T}.

(** [CombinedDetectionResponse]. *)
Record CombinedDetectionResponse : Type := {
  timestamp : string;
  ear : jsnum;
  mar : jsnum;
  is_drowsy : bool;
  is_yawning : bool;
  alert_level : string;
  message : string;
  current_emotion : option string;
  emotion_scores : list (string * jsnum)
}.

(** [getCombinedDetection]: [fetchWithRetry] with the default first
    attempt number 1. *)
Definition getCombinedDetection
           (net : nat -> Attempt CombinedDetectionResponse)
  : Fetched CombinedDetectionResponse :=
  fetchWithRetry net 1.

End Api.

(* ------------------------------------------------------------------ *)
(** ** The detection screen ([app/(tabs)/detection.tsx]) *)

Module Detection.

Import Api.
Local Open Scope string_scope.

Record EmotionData : Type := {
  emotion : option string;
  scores : list (string * jsnum)
}.

(** The state cells of [DetectionScreen] that the two fetchers write, and
    the state of the alarm hook it embeds. *)
Record State : Type := {
  detectionData : option CombinedDetectionResponse;
  emotionData : EmotionData;
  loading : bool;
  error : option string;
  alarm : Alarm.State
}.

Definition initial : State :=
  {| detectionData := None;
     emotionData := {| emotion := None; scores := [] |};
     loading := true;
     error := None;
     alarm := Alarm.initial |}.

(** [useDrowsinessAlarm(4, 1000)]. *)
Definition cfg : Alarm.Config := Alarm.defaultConfig.

(** [fetchDrowsinessData] runs in two steps: up to its [await], when the
    call is made, and after it, when [getCombinedDetection] has resolved
    or rejected.  Calls are made every second and may overlap. *)
Definition drowsinessStarted (st : State) : State :=
  {| detectionData := detectionData st;
     emotionData := emotionData st;
     loading := loading st;
     error := None;
     alarm := alarm st |}.

Definition drowsinessResolved (data : CombinedDetectionResponse) (st : State)
  : State :=
  {| detectionData := Some data;
     emotionData := emotionData st;
     loading := false;
     error := error st;
     alarm := fst (Alarm.checkDrowsiness cfg (is_drowsy data) (ear data)
                                         (alarm st)) |}.

Definition drowsinessRejected (err : Thrown) (st : State) : State :=
  let errorMsg :=
    match err with
    | ErrorObject message => message
    | OtherValue => "Failed to fetch detection data"
    end in
  {| detectionData := detectionData st;
     emotionData := emotionData st;
     loading := false;
     error := Some errorMsg;
     alarm := alarm st |}.

(** [if (data.current_emotion)]. *)
Definition truthyEmotion (e : option string) : bool :=
  match e with
  | Some s => Stats.truthy s
  | None => false
  end.

(** [fetchEmotionData], once its request has resolved; a rejection is
    only logged. *)
Definition emotionResolved (data : CombinedDetectionResponse) (st : State)
  : State :=
  if truthyEmotion (current_emotion data) then
    {| detectionData := detectionData st;
       emotionData := {| emotion := current_emotion data;
                         scores := emotion_scores data |};
       loading := loading st;
       error := error st;
       alarm := alarm st |}
  else st.

(** What happens to the screen. *)
Inductive Event : Type :=
| DrowsinessStarted
| DrowsinessResolved (data : CombinedDetectionResponse)
| DrowsinessRejected (err : Thrown)
| EmotionResolved (data : CombinedDetectionResponse)
| EmotionRejected (err : Thrown)
| AlarmDismissed.

Definition step (st : State) (ev : Event) : State :=
  match ev with
  | DrowsinessStarted => drowsinessStarted st
  | DrowsinessResolved data => drowsinessResolved data st
  | DrowsinessRejected err => drowsinessRejected err st
  | EmotionResolved data => emotionResolved data st
  | EmotionRejected _ => st
  | AlarmDismissed =>
      {| detectionData := detectionData st;
         emotionData := emotionData st;
         loading := loading st;
         error := error st;
         alarm := Alarm.dismissAlarm (alarm st) |}
  end.

Definition run (evs : list Event) (st : State) : State :=
  fold_left step evs st.

(** The events of the alarm hook that the events of the screen amount
    to. *)
Definition alarmEvent (ev : Event) : list Alarm.Event :=
  match ev with
  | DrowsinessResolved data => [Alarm.Tick (is_drowsy data) (ear data)]
  | AlarmDismissed => [Alarm.Dismiss]
  | _ => []
  end.

Definition alarmEvents (evs : list Event) : list Alarm.Event :=
  flat_map alarmEvent evs.

End Detection.

(* ------------------------------------------------------------------ *)
(** ** The file part of a frame upload *)

(** [detectFrame] of [services/api.ts], up to the request.  A string is
    modelled by its bytes; the characters tested below are all ASCII. *)
Module Upload.

Local Open Scope string_scope.

(** [s.split(sep)] for a separator of one character: never empty, the
    empty string gives one empty segment. *)
Fixpoint split (sep : ascii) (s : string) : list string :=
  match s with
  | EmptyString => [EmptyString]
  | String c rest =>
      if (c =? sep)%char then EmptyString :: split sep rest
      else match split sep rest with
           | h :: t => String c h :: t
           | [] => [String c EmptyString]
           end
  end.

(** [array.pop()], with [undefined] read as the falsy value it is. *)
Definition pop (l : list string) : string := last l EmptyString.

(** The class [\w] of a regular expression without flags. *)
Definition isWordChar (c : ascii) : bool :=
  let n := nat_of_ascii c in
  ((48 <=? n) && (n <=? 57) || (65 <=? n) && (n <=? 90)
   || (97 <=? n) && (n <=? 122) || (n =? 95))%nat.

Fixpoint allWord (s : string) : bool :=
  match s with
  | EmptyString => true
  | String c rest => isWordChar c && allWord rest
  end.

(** The first group of [/\.(\w+)$/.exec(s)], [None] when there is no
    match: the search tries each position from the left, and a position
    matches when it holds a dot followed by word characters, at least
    one, up to the end of the string. *)
Fixpoint execExtension (s : string) : option string :=
  match s with
  | EmptyString => None
  | String c rest =>
      if (c =? ".")%char && negb (rest =? "") && allWord rest
      then Some rest
      else execExtension rest
  end.

(** Whether a character occurs in a string. *)
Fixpoint occurs (c : ascii) (s : string) : bool :=
  match s with
  | EmptyString => false
  | String c' rest => (c' =? c)%char || occurs c rest
  end.

(** The object appended to the form data: [{ uri, type, name }]. *)
Record FilePart : Type := { uri : string; type : string; name : string }.

(** [imageUri.split('/').pop() || 'image.jpg']. *)
Definition fileName (imageUri : string) : string :=
  let last := pop (split "/" imageUri) in
  if Stats.truthy last then last else "image.jpg".

(** [match ? `image/${match[1]}` : 'image/jpeg']. *)
Definition mimeType (filename : string) : string :=
  match execExtension filename with
  | Some extension => "image/" ++ extension
  | None => "image/jpeg"
  end.

Definition filePart (imageUri : string) : FilePart :=
  let filename := fileName imageUri in
  {| uri := imageUri; type := mimeType filename; name := filename |}.

End Upload.

(* ------------------------------------------------------------------ *)
(** ** Sorting with a comparison function *)

Module JsArray.

(** [Array.prototype.sort(compare)].  The engine's sort is stable, and
    [a] is placed after [b] exactly when [compare(a, b) > 0] (a result of
    NaN counts as 0); when the comparison is consistent every stable sort
    gives the list below.  [after a b] is [compare(a, b) > 0]. *)
Fixpoint insertBy {A} (after : A -> A -> bool) (x : A) (l : list A)
  : list A :=
  match l with
  | [] => [x]
  | y :: l' => if after x y then y :: insertBy after x l' else x :: l
  end.

Definition sortBy {A} (after : A -> A -> bool) (l : list A) : list A :=
  fold_right (insertBy after) [] l.

(** On the elements of [l] the comparison puts [x] after [y] exactly when
    its key is smaller: it sorts by descending key. *)
Definition consistentOn {A} (after : A -> A -> bool) (key : A -> Q)
           (l : list A) : Prop :=
  forall x y, In x l -> In y l -> (after x y = true <-> key x < key y).

(** [compare(a, b) > 0] for a comparison that subtracts two numbers. *)
Definition positive (difference : jsnum) : bool := js_gt difference (Fin 0).

End JsArray.

(* ------------------------------------------------------------------ *)
(** ** The rest of the realtime mirror *)

Module Latest.

Import Stats JsArray.

Section WithClock.
(** [new Date(s).getTime()]: milliseconds, or NaN for an unparsable
    string. *)
Variable getTime : string -> jsnum.

(** The comparison of [getLatestAlert]:
    [new Date(b.timestamp).getTime() - new Date(a.timestamp).getTime()]. *)
Definition alertAfter (a b : string * Alert.t) : bool :=
  positive (js_sub (getTime (Alert.timestamp (snd b)))
                   (getTime (Alert.timestamp (snd a)))).

(** [getLatestAlert]; an element [{id, ...data}] is the pair of the key
    and the record. *)
Definition getLatestAlert (alerts : Mapping Alert.t)
  : option (string * Alert.t) :=
  match alerts with
  | [] => None
  | _ => hd_error (sortBy alertAfter alerts)
  end.

Definition emotionAfter (a b : string * Emotion.t) : bool :=
  positive (js_sub (getTime (Emotion.timestamp (snd b)))
                   (getTime (Emotion.timestamp (snd a)))).

(** [getLatestEmotion]. *)
Definition getLatestEmotion (emotions : Mapping Emotion.t)
  : option (string * Emotion.t) :=
  match emotions with
  | [] => None
  | _ => hd_error (sortBy emotionAfter emotions)
  end.

End WithClock.

(** [getTime] on the timestamps of the scenarios, for a viewer on
    universal time; every other string is unparsable. *)
Definition scenarioClock (s : string) : jsnum :=
  if (s =? "2024-05-01T10:15")%string then Fin 1714558500000
  else if (s =? "2024-05-02T09:00")%string then Fin 1714640400000
  else if (s =? "2024-05-02T12:00")%string then Fin 1714651200000
  else if (s =? "2024-05-03T01:00")%string then Fin 1714698000000
  else NaN.

End Latest.

Module StatsMirror.

Import Stats Mirror.
Local Open Scope string_scope.

(** [StatsData]. *)
Record StatsData : Type := {
  total_detections : jsnum;
  drowsy_alerts : jsnum;
  yawn_alerts : jsnum;
  last_detection : string;
  last_updated : string
}.

(** What the channel of the stats node delivers: a snapshot whose [val()]
    is the record or [null], or an error. *)
Inductive StatsEvent : Type :=
| StatsSnapshot (val : option StatsData)
| StatsCancelled (error : Error).

(** [subscribeToStats]: the value is handed over as it is, [null]
    included. *)
Definition subscribeToStats {S}
           (callback : option StatsData -> S -> S)
           (onError : option (Error -> S -> S))
           (ev : StatsEvent) (s : S) : S :=
  match ev with
  | StatsSnapshot val => callback val s
  | StatsCancelled error =>
      match onError with
      | Some handler => handler error s
      | None => s
      end
  end.

(** [useFirebaseStats]. *)
Record State : Type := {
  stats : option StatsData;
  loading : bool;
  error : option string
}.

Definition initial : State :=
  {| stats := None; loading := true; error := None |}.

Definition onData (data : option StatsData) (s : State) : State :=
  {| stats := data; loading := false; error := error s |}.

Definition onErr (err : Error) (s : State) : State :=
  {| stats := stats s; loading := false; error := Some (message err) |}.

Definition handle : StatsEvent -> State -> State :=
  subscribeToStats onData (Some onErr).

(** *** The three hooks side by side, as [StatsScreen] and
    [useFirebaseData] use them *)

Record Hooks : Type := {
  statsHook : State;
  alertsHook : Alerts.State;
  emotionsHook : Emotions.State
}.

Definition mounted : Hooks :=
  {| statsHook := initial;
     alertsHook := Alerts.initial;
     emotionsHook := Emotions.initial |}.

Inductive Delivery : Type :=
| ToStats (ev : StatsEvent)
| ToAlerts (ev : ChannelEvent Alert.t)
| ToEmotions (ev : ChannelEvent Emotion.t).

Section WithLatest.
Variable getLatestAlert : Mapping Alert.t -> option Alert.t.
Variable getLatestEmotion : Mapping Emotion.t -> option Emotion.t.

Definition deliver (h : Hooks) (d : Delivery) : Hooks :=
  match d with
  | ToStats ev =>
      {| statsHook := handle ev (statsHook h);
         alertsHook := alertsHook h;
         emotionsHook := emotionsHook h |}
  | ToAlerts ev =>
      {| statsHook := statsHook h;
         alertsHook := Alerts.handle getLatestAlert ev (alertsHook h);
         emotionsHook := emotionsHook h |}
  | ToEmotions ev =>
      {| statsHook := statsHook h;
         alertsHook := alertsHook h;
         emotionsHook := Emotions.handle getLatestEmotion ev (emotionsHook h) |}
  end.

Definition deliverAll (ds : list Delivery) (h : Hooks) : Hooks :=
  fold_left deliver ds h.

End WithLatest.

(** [a || b] on two values of type [string | null]. *)
Definition orString (a b : option string) : option string :=
  match a with
  | Some s => if truthy s then a else b
  | None => b
  end.

(** [const loading = statsLoading || alertsLoading || emotionsLoading] and
    [const error = statsError || alertsError || emotionsError] of
    [StatsScreen]. *)
Definition screenLoading (h : Hooks) : bool :=
  loading (statsHook h) || Alerts.loading (alertsHook h)
  || Emotions.loading (emotionsHook h).

Definition screenError (h : Hooks) : option string :=
  orString (orString (error (statsHook h)) (Alerts.error (alertsHook h)))
           (Emotions.error (emotionsHook h)).

(** The same two fields of [useFirebaseData], in its order. *)
Definition dataLoading (h : Hooks) : bool :=
  Alerts.loading (alertsHook h) || Emotions.loading (emotionsHook h)
  || loading (statsHook h).

Definition dataError (h : Hooks) : option string :=
  orString (orString (Alerts.error (alertsHook h))
                     (Emotions.error (emotionsHook h)))
           (error (statsHook h)).

Definition isToStats (d : Delivery) : bool :=
  match d with ToStats _ => true | _ => false end.
Definition isToAlerts (d : Delivery) : bool :=
  match d with ToAlerts _ => true | _ => false end.
Definition isToEmotions (d : Delivery) : bool :=
  match d with ToEmotions _ => true | _ => false end.

(** The message of the last error among the events of one channel. *)
Fixpoint lastAlertError (evs : list (ChannelEvent Alert.t))
         (held : option string) : option string :=
  match evs with
  | [] => held
  | Snapshot _ :: rest => lastAlertError rest held
  | Cancelled err :: rest => lastAlertError rest (Some (message err))
  end.

End StatsMirror.

(* ------------------------------------------------------------------ *)
(** ** The rest of the statistics screen *)

Module StatsScreen.

Import Stats JsArray.
Local Open Scope nat_scope.
Local Open Scope string_scope.

Section WithRuntime.
Context {rt : Runtime}.

(** Whether [computeDayStats] counts the record for [dayKey]. *)
Definition countedAlert (dayKey : string) (a : Alert.t) : bool :=
  truthy (Alert.timestamp a) &&
  (formatDateKey (Date_parse (Alert.timestamp a)) =? dayKey).

(** Whether the record is of the local hour [h]. *)
Definition alertAtHour (h : nat) (a : Alert.t) : bool :=
  match getHours (Date_parse (Alert.timestamp a)) with
  | Some h' => (h' =? h)%nat
  | None => false
  end.

Definition isDrowsiness (a : Alert.t) : bool := Alert.type a =? "drowsiness".
Definition isYawning (a : Alert.t) : bool := Alert.type a =? "yawning".

(** How many of the records satisfy a test. *)
Definition countWhere {A} (test : A -> bool) (l : list A) : nat :=
  List.length (filter test l).

End WithRuntime.

(** [Math.max(1, ...dayStats.hourly.map(h => h.total))]. *)
Definition maxHourly (dayStats : Day.t) : nat :=
  fold_left Nat.max (map Hour.total (Day.hourly dayStats)) 1.

(** The height of a segment of the hourly chart, in percent:
    [(h.yawn / maxHourly) * 100] and [(h.drowsy / maxHourly) * 100]. *)
Definition barHeight (count maxHourly : nat) : jsnum :=
  js_mul (js_div (of_nat count) (of_nat maxHourly)) (Fin 100).

(** The comparison of [sortedEmotions], [b[1] - a[1]]. *)
Definition countAfter (a b : string * nat) : bool :=
  positive (js_sub (of_nat (snd b)) (of_nat (snd a))).

(** [Object.entries(emotionDayStats.counts).sort((a, b) => b[1] - a[1])]. *)
Definition sortedEmotions (emotionDayStats : EmotionDay.t)
  : list (string * nat) :=
  sortBy countAfter (EmotionDay.counts emotionDayStats).

(** [(count / emotionDayStats.total) * 100]. *)
Definition emotionPct (emotionDayStats : EmotionDay.t) (count : nat) : jsnum :=
  js_mul (js_div (of_nat count) (of_nat (EmotionDay.total emotionDayStats)))
         (Fin 100).

(** The key of an entry of [sortedEmotions]: its count. *)
Definition countKey (entry : string * nat) : Q :=
  inject_Z (Z.of_nat (snd entry)).

(** What holds of the captured variables of [computeEmotionDayStats] all
    along its loop. *)
Definition EmotionInv (st : EmotionDay.t) : Prop :=
  list_sum (map EmotionHour.total (EmotionDay.hourly st))
  = EmotionDay.total st /\
  List.length (EmotionDay.hourly st) = 24 /\
  list_sum (map snd (EmotionDay.counts st)) = EmotionDay.total st /\
  Forall (fun b => list_sum (map snd (EmotionHour.counts b))
                   = EmotionHour.total b) (EmotionDay.hourly st) /\
  NoDup (map fst (EmotionDay.counts st)) /\
  Forall (fun entry => 1 <= snd entry) (EmotionDay.counts st).

End StatsScreen.

(* ------------------------------------------------------------------ *)
(** ** Counter objects *)

(** The objects [counts] of [computeEmotionDayStats] as the engine holds
    them: plain objects created by a literal, whose keys are the emotion
    labels.  A key that is an array index is enumerated before the
    others, in ascending order; a key that [Object.prototype] defines is
    found there when the object has no such property of its own; and an
    assignment to ["__proto__"] of a value that is no object does
    nothing. *)
Module JsObject.

Local Open Scope string_scope.

(** What a property holds here: a number, or a string that is no
    numeral, as in ["[object Object]1"]. *)
Inductive value : Type :=
| Number (n : nat)
| Text.

Definition digit (c : ascii) : option N :=
  let n := N_of_ascii c in
  if ((48 <=? n) && (n <=? 57))%N then Some (n - 48)%N else None.

Fixpoint digits (acc : N) (s : string) : option N :=
  match s with
  | EmptyString => Some acc
  | String c rest =>
      match digit c with
      | Some d => digits (10 * acc + d)%N rest
      | None => None
      end
  end.

(** The array index that a key denotes: the key is the decimal numeral,
    without leading zeros, of a whole number from 0 to 2^32 - 2. *)
Definition arrayIndex (k : string) : option N :=
  match k with
  | EmptyString => None
  | String c rest =>
      if ((c =? "0")%char && negb (rest =? ""))%bool then None
      else match digits 0 k with
           | Some n => if (n <=? 4294967294)%N then Some n else None
           | None => None
           end
  end.

(** The properties of [Object.prototype]. *)
Definition prototypeNames : list string :=
  ["constructor"; "__defineGetter__"; "__defineSetter__";
   "hasOwnProperty"; "__lookupGetter__"; "__lookupSetter__";
   "isPrototypeOf"; "propertyIsEnumerable"; "toString"; "valueOf";
   "__proto__"; "toLocaleString"].

Definition inherited (k : string) : bool :=
  existsb (String.eqb k) prototypeNames.

(** The own properties: those with an array index as key, in ascending
    order, and the others in the order of their creation. *)
Record t : Type := {
  elements : list (N * value);
  named : list (string * value)
}.

(** [{}]. *)
Definition empty : t := {| elements := []; named := [] |}.

Fixpoint findElement (i : N) (l : list (N * value)) : option value :=
  match l with
  | [] => None
  | (j, v) :: rest => if (i =? j)%N then Some v else findElement i rest
  end.

Fixpoint findNamed (k : string) (l : list (string * value))
  : option value :=
  match l with
  | [] => None
  | (k', v) :: rest => if k' =? k then Some v else findNamed k rest
  end.

(** What [o[k]] finds: a property of the object, a function or object
    of the prototype, or nothing ([undefined]). *)
Inductive lookup : Type :=
| Own (v : value)
| Inherited
| Undefined.

Definition get (k : string) (o : t) : lookup :=
  match arrayIndex k with
  | Some i =>
      match findElement i (elements o) with
      | Some v => Own v
      | None => Undefined
      end
  | None =>
      match findNamed k (named o) with
      | Some v => Own v
      | None => if inherited k then Inherited else Undefined
      end
  end.

Fixpoint setElement (i : N) (v : value) (l : list (N * value))
  : list (N * value) :=
  match l with
  | [] => [(i, v)]
  | (j, w) :: rest =>
      if (i =? j)%N then (j, v) :: rest
      else if (i <? j)%N then (i, v) :: (j, w) :: rest
      else (j, w) :: setElement i v rest
  end.

Fixpoint setNamed (k : string) (v : value) (l : list (string * value))
  : list (string * value) :=
  match l with
  | [] => [(k, v)]
  | (k', w) :: rest =>
      if k' =? k then (k', v) :: rest else (k', w) :: setNamed k v rest
  end.

(** [o[k] = v] for a number or a string [v]. *)
Definition set (k : string) (v : value) (o : t) : t :=
  if k =? "__proto__" then o
  else match arrayIndex k with
       | Some i =>
           {| elements := setElement i v (elements o); named := named o |}
       | None =>
           {| elements := elements o; named := setNamed k v (named o) |}
       end.

(** [(o[k] || 0) + 1]: a number is counted up, with 0 for [undefined];
    a string, a function or an object is truthy, and [+ 1] appends ["1"]
    to its string. *)
Definition plusOne (l : lookup) : value :=
  match l with
  | Own (Number n) => Number (n + 1)
  | Own Text => Text
  | Inherited => Text
  | Undefined => Number 1
  end.

(** [o[k] = (o[k] || 0) + 1]. *)
Definition increment (k : string) (o : t) : t :=
  set k (plusOne (get k o)) o.

(** [Object.entries(o)]. *)
Definition entries (o : t) : list (string * value) :=
  map (fun e => (NilZero.string_of_uint (N.to_uint (fst e)), snd e))
      (elements o)
  ++ named o.

(** The number a value counts for in a sum; a string counts for
    nothing. *)
Definition numberOf (v : value) : nat :=
  match v with
  | Number n => n
  | Text => 0
  end.

(** A key for which the object behaves as a plain table: no array index
    and no property of [Object.prototype]. *)
Definition plainKey (k : string) : bool :=
  match arrayIndex k with
  | Some _ => false
  | None => negb (inherited k)
  end.

(** A table of numbers as an object. *)
Definition ofCounts (counts : Stats.Mapping nat) : t :=
  {| elements := [];
     named := map (fun e => (fst e, Number (snd e))) counts |}.

End JsObject.

(** [computeEmotionDayStats] over counter objects.  Module [Stats] has
    it over tables of numbers, which is the same thing for plain keys
    ([EmotionStats.ofDay]). *)
Module EmotionStats.

Import Stats JsArray.
Local Open Scope nat_scope.
Local Open Scope string_scope.

Module Hour.
Record t : Type := { hour : nat; counts : JsObject.t; total : nat }.
Definition incTotal (b : t) : t :=
  {| hour := hour b; counts := counts b; total := S (total b) |}.
Definition incCounts (f : JsObject.t -> JsObject.t) (b : t) : t :=
  {| hour := hour b; counts := f (counts b); total := total b |}.
End Hour.

Module Day.
Record t : Type := {
  total : nat;
  counts : JsObject.t;
  hourly : list Hour.t;
  dominant : string
}.
End Day.

Section WithRuntime.
Context {rt : Runtime}.

(** The body of the [forEach] of [computeEmotionDayStats]. *)
Definition visitEmotion (dayKey : string) (st : Day.t)
           (e : Emotion.t) : completion Day.t :=
  if negb (truthy (Emotion.timestamp e)) || negb (truthy (Emotion.emotion e))
  then Returns st
  else
    let d := Date_parse (Emotion.timestamp e) in
    if negb (formatDateKey d =? dayKey) then Returns st
    else
      let em := toLowerCase (Emotion.emotion e) in
      let total := S (Day.total st) in
      let counts := JsObject.increment em (Day.counts st) in
      match getHours d with
      | None => Throws          (* hours[NaN] is undefined *)
      | Some h =>
          bind (bump Hour.incTotal h (Day.hourly st))
            (fun hours =>
          bind (bump (Hour.incCounts (JsObject.increment em)) h hours)
            (fun hours =>
          Returns {| Day.total := total;
                     Day.counts := counts;
                     Day.hourly := hours;
                     Day.dominant := Day.dominant st |}))
      end.

Definition emptyDay : Day.t :=
  {| Day.total := 0;
     Day.counts := JsObject.empty;
     Day.hourly :=
       map (fun i => {| Hour.hour := i; Hour.counts := JsObject.empty;
                        Hour.total := 0 |}) (seq 0 24);
     Day.dominant := "neutral" |}.

(** [if (c > maxCount) { maxCount = c; dominant = em; }]; a string that
    is no numeral compares as NaN. *)
Definition scanDominant (acc : string * nat)
           (entry : string * JsObject.value) : string * nat :=
  let (dominant, maxCount) := acc in
  let (em, c) := entry in
  match c with
  | JsObject.Number n =>
      if (maxCount <? n)%nat then (em, n) else (dominant, maxCount)
  | JsObject.Text => (dominant, maxCount)
  end.

Definition findDominant (counts : JsObject.t) : string :=
  fst (fold_left scanDominant (JsObject.entries counts) ("neutral", 0)).

Definition computeEmotionDayStats (emotions : Mapping Emotion.t)
           (dayKey : string) : completion Day.t :=
  bind (forEach (visitEmotion dayKey) (Object_values emotions) emptyDay)
       (fun st =>
  Returns {| Day.total := Day.total st;
             Day.counts := Day.counts st;
             Day.hourly := Day.hourly st;
             Day.dominant := findDominant (Day.counts st) |}).

End WithRuntime.

(** The comparison of [sortedEmotions], [b[1] - a[1]]; with a string
    that is no numeral on either side the difference is NaN. *)
Definition countAfter (a b : string * JsObject.value) : bool :=
  match snd a, snd b with
  | JsObject.Number x, JsObject.Number y =>
      positive (js_sub (of_nat y) (of_nat x))
  | _, _ => false
  end.

(** [Object.entries(emotionDayStats.counts).sort((a, b) => b[1] - a[1])]. *)
Definition sortedEmotions (emotionDayStats : Day.t)
  : list (string * JsObject.value) :=
  sortBy countAfter (JsObject.entries (Day.counts emotionDayStats)).

(** [(count / emotionDayStats.total) * 100]. *)
Definition emotionPct (emotionDayStats : Day.t) (count : JsObject.value)
  : jsnum :=
  match count with
  | JsObject.Number n =>
      js_mul (js_div (of_nat n) (of_nat (Day.total emotionDayStats)))
             (Fin 100)
  | JsObject.Text => NaN
  end.

(** The statistics over tables of numbers, as statistics over counter
    objects. *)
Definition ofHour (b : EmotionHour.t) : Hour.t :=
  {| Hour.hour := EmotionHour.hour b;
     Hour.counts := JsObject.ofCounts (EmotionHour.counts b);
     Hour.total := EmotionHour.total b |}.

Definition ofDay (r : EmotionDay.t) : Day.t :=
  {| Day.total := EmotionDay.total r;
     Day.counts := JsObject.ofCounts (EmotionDay.counts r);
     Day.hourly := map ofHour (EmotionDay.hourly r);
     Day.dominant := EmotionDay.dominant r |}.

Definition ofCompletion (c : completion EmotionDay.t) : completion Day.t :=
  match c with
  | Returns r => Returns (ofDay r)
  | Throws => Throws
  end.

End EmotionStats.

(** Records whose labels are no plain keys. *)
Module OddLabels.

Import Stats Scenarios.
Local Open Scope string_scope.

(** Two records of one day, "happy" first, then "7". *)
Definition happyThenSeven : Mapping Emotion.t :=
  [("e1", emotionOf "happy" "2024-05-01T10:15");
   ("e2", emotionOf "7" "2024-05-01T10:15")].

(** One record with the label "__proto__", one with "constructor". *)
Definition protoLabel : Mapping Emotion.t :=
  [("e1", emotionOf "__proto__" "2024-05-01T10:15")].

Definition constructorLabel : Mapping Emotion.t :=
  [("e1", emotionOf "constructor" "2024-05-01T10:15")].

End OddLabels.

(* ================================================================== *)
(** * Properties of the alarm hook *)

Module AlarmFacts.

Import Alarm.
Unset Implicit Arguments.

Lemma reached_spec cfg d :
  reached cfg d = true <-> thresholdSeconds cfg <= inject_Z d.
Proof. unfold reached. apply Qle_bool_iff. Qed.

Lemma reached_false cfg d :
  reached cfg d = false <-> ~ thresholdSeconds cfg <= inject_Z d.
Proof.
  rewrite <- reached_spec. destruct (reached cfg d); split; congruence.
Qed.

Lemma run_app cfg es1 es2 s :
  run cfg (es1 ++ es2) s =
  (fst (run cfg es2 (fst (run cfg es1 s))),
   snd (run cfg es1 s) ++ snd (run cfg es2 (fst (run cfg es1 s)))).
Proof.
  revert s. induction es1 as [|e es1 IH]; intros s; simpl.
  - destruct (run cfg es2 s); reflexivity.
  - destruct (step cfg e s) as [s1 o1].
    rewrite IH. destruct (run cfg es1 s1) as [s2 o2]; simpl.
    now rewrite app_assoc.
Qed.

(** An integer below a ceiling is below the number itself. *)
Lemma lt_ceiling_lt (j : Z) (x : Q) :
  (j < Qceiling x)%Z -> inject_Z j < x.
Proof.
  intros H. apply Qnot_le_lt. intros Hle.
  apply Qceiling_resp_le in Hle. rewrite Qceiling_Z in Hle. lia.
Qed.

Lemma le_floor_of_le (c : Z) (x : Q) :
  inject_Z c <= x -> (c <= Qfloor x)%Z.
Proof.
  intros H. apply Qfloor_resp_le in H. now rewrite Qfloor_Z in H.
Qed.

Lemma ceiling_le_of_le (x : Q) (c : Z) :
  x <= inject_Z c -> (Qceiling x <= c)%Z.
Proof.
  intros H. apply Qceiling_resp_le in H. now rewrite Qceiling_Z in H.
Qed.

Section Episode.
Variable cfg : Config.
Hypothesis interval_pos : 0 < pollingInterval cfg.

Let dt := tickSeconds cfg.
Let T := thresholdSeconds cfg.

Lemma tickSeconds_pos : 0 < dt.
Proof.
  unfold dt, tickSeconds. apply Qlt_shift_div_l; [reflexivity|].
  now rewrite Qmult_0_l.
Qed.

Lemma firingTick_pos : (1 <= firingTick cfg)%Z.
Proof. unfold firingTick. lia. Qed.

(** Before the firing tick the floored accumulator is below the
    threshold. *)
Lemma below_before_firing (j : Z) :
  (1 <= j < firingTick cfg)%Z ->
  reached cfg (Qfloor (inject_Z j * dt)) = false.
Proof.
  intros [Hj1 Hjn]. apply reached_false. intros Hreach.
  unfold firingTick in Hjn.
  assert (Hlt : (j < Qceiling (inject_Z (Qceiling T) / dt))%Z) by (subst T dt; lia).
  apply lt_ceiling_lt in Hlt.
  pose proof tickSeconds_pos as Hdt.
  assert (Hmul : inject_Z j * dt < inject_Z (Qceiling T)).
  { apply Qmult_lt_compat_r with (z := dt) in Hlt; [|exact Hdt].
    assert (E : inject_Z (Qceiling T) / dt * dt == inject_Z (Qceiling T))
      by (field; intros E0; rewrite E0 in Hdt; discriminate).
    now rewrite E in Hlt. }
  pose proof (Qfloor_le (inject_Z j * dt)) as Hfl.
  assert (Hz : (Qfloor (inject_Z j * dt) < Qceiling T)%Z).
  { rewrite Zlt_Qlt. eapply Qle_lt_trans; eassumption. }
  apply ceiling_le_of_le in Hreach. fold T in Hreach. lia.
Qed.

(** On the firing tick it has reached it. *)
Lemma reached_at_firing :
  reached cfg (Qfloor (inject_Z (firingTick cfg) * dt)) = true.
Proof.
  apply reached_spec. fold T.
  pose proof tickSeconds_pos as Hdt.
  set (c := Qceiling T).
  assert (Hn : inject_Z c / dt <= inject_Z (firingTick cfg)).
  { eapply Qle_trans; [apply Qle_ceiling|].
    rewrite <- Zle_Qle. unfold firingTick. fold T c dt. lia. }
  assert (Hmul : inject_Z c <= inject_Z (firingTick cfg) * dt).
  { apply Qmult_le_compat_r with (z := dt) in Hn; [|now apply Qlt_le_weak].
    assert (E : inject_Z c / dt * dt == inject_Z c)
      by (field; intros E0; rewrite E0 in Hdt; discriminate).
    now rewrite E in Hn. }
  apply le_floor_of_le in Hmul.
  eapply Qle_trans; [apply Qle_ceiling|]. fold c.
  now rewrite <- Zle_Qle.
Qed.

(** With a whole threshold of at least one second the firing tick is
    [ceil (T / dt)]. *)
Lemma firingTick_whole_threshold (t : Z) :
  (1 <= t)%Z -> T == inject_Z t ->
  firingTick cfg = Qceiling (T / dt).
Proof.
  intros Ht HT. unfold firingTick. fold T dt.
  pose proof tickSeconds_pos as Hdt.
  assert (Hc : Qceiling T = t) by (rewrite HT; apply Qceiling_Z).
  rewrite Hc.
  assert (E : inject_Z t / dt == T / dt) by now rewrite HT.
  rewrite E.
  assert (Hpos : 0 < T / dt).
  { apply Qlt_shift_div_l; [exact Hdt|]. rewrite Qmult_0_l, HT.
    change 0 with (inject_Z 0). rewrite <- Zlt_Qlt. lia. }
  assert (0 < Qceiling (T / dt))%Z; [|lia].
  rewrite Zlt_Qlt. eapply Qlt_le_trans; [exact Hpos|apply Qle_ceiling].
Qed.

End Episode.

(** *** One tick, branch by branch *)

Lemma check_open cfg d ear s :
  eyesClosed d ear = false ->
  checkDrowsiness cfg d ear s = (afterOpen s, []).
Proof. intros H. unfold checkDrowsiness. now rewrite H. Qed.

Lemma check_closed_below cfg d ear s :
  eyesClosed d ear = true ->
  reached cfg (Qfloor (eyesClosedCounterRef s + tickSeconds cfg)) = false ->
  checkDrowsiness cfg d ear s =
  ({| showAlarm := showAlarm s;
      eyesClosedDuration := eyesClosedDuration s;
      eyesClosedCounterRef := eyesClosedCounterRef s + tickSeconds cfg;
      alarmTriggeredRef := alarmTriggeredRef s |}, []).
Proof. intros H R. unfold checkDrowsiness. now rewrite H, R. Qed.

Lemma check_closed_fire cfg d ear s :
  eyesClosed d ear = true ->
  reached cfg (Qfloor (eyesClosedCounterRef s + tickSeconds cfg)) = true ->
  alarmTriggeredRef s = false ->
  checkDrowsiness cfg d ear s =
  ({| showAlarm := true;
      eyesClosedDuration := Qfloor (eyesClosedCounterRef s + tickSeconds cfg);
      eyesClosedCounterRef := eyesClosedCounterRef s + tickSeconds cfg;
      alarmTriggeredRef := true |},
   [Qfloor (eyesClosedCounterRef s + tickSeconds cfg)]).
Proof. intros H R G. unfold checkDrowsiness. now rewrite H, R, G. Qed.

Lemma closedTick_inv e :
  closedTick e = true ->
  exists d ear, e = Tick d ear /\ eyesClosed d ear = true.
Proof. destruct e; simpl; try discriminate. eauto. Qed.

Lemma openTick_inv e :
  openTick e = true ->
  exists d ear, e = Tick d ear /\ eyesClosed d ear = false.
Proof.
  destruct e as [d ear| |]; simpl; try discriminate.
  intros H. exists d, ear. split; [reflexivity|].
  now destruct (eyesClosed d ear).
Qed.

(** Closed-eye ticks that stay below the threshold only move the
    accumulator. *)
Lemma run_closed_quiet cfg (es : list Event) :
  forall (s : State) (m : Z),
    Forall (fun e => closedTick e = true) es ->
    eyesClosedCounterRef s == inject_Z m * tickSeconds cfg ->
    (forall j, (m < j <= m + Z.of_nat (List.length es))%Z ->
               reached cfg (Qfloor (inject_Z j * tickSeconds cfg)) = false) ->
    snd (run cfg es s) = [] /\
    showAlarm (fst (run cfg es s)) = showAlarm s /\
    eyesClosedDuration (fst (run cfg es s)) = eyesClosedDuration s /\
    alarmTriggeredRef (fst (run cfg es s)) = alarmTriggeredRef s /\
    eyesClosedCounterRef (fst (run cfg es s)) ==
      inject_Z (m + Z.of_nat (List.length es)) * tickSeconds cfg.
Proof.
  induction es as [|e es IH]; intros s m Hall Hc Hbelow.
  - simpl. rewrite Z.add_0_r. repeat split; auto.
  - inversion Hall as [|? ? He Hrest]; subst.
    destruct (closedTick_inv e He) as (d & ear & -> & Hcl).
    assert (Hnext : eyesClosedCounterRef s + tickSeconds cfg ==
                    inject_Z (m + 1) * tickSeconds cfg).
    { rewrite Hc, inject_Z_plus. ring. }
    assert (Hlow : reached cfg
              (Qfloor (eyesClosedCounterRef s + tickSeconds cfg)) = false).
    { rewrite Hnext. apply Hbelow. simpl List.length. lia. }
    simpl run. rewrite (check_closed_below cfg d ear s Hcl Hlow).
    set (s1 := {| showAlarm := showAlarm s;
                  eyesClosedDuration := eyesClosedDuration s;
                  eyesClosedCounterRef := eyesClosedCounterRef s + tickSeconds cfg;
                  alarmTriggeredRef := alarmTriggeredRef s |}).
    destruct (IH s1 (m + 1)%Z Hrest Hnext) as (Ho & Hs & Hd & Ht & Hq).
    { intros j Hj. apply Hbelow. simpl List.length. lia. }
    destruct (run cfg es s1) as [s2 o2]. simpl in *.
    repeat split; auto.
    rewrite Hq. replace (m + 1 + Z.of_nat (List.length es))%Z
      with (m + Z.pos (Pos.of_succ_nat (List.length es)))%Z by lia.
    reflexivity.
Qed.

(** *** A whole episode *)

Lemma run_single cfg e s : run cfg [e] s = step cfg e s.
Proof. simpl. destruct (step cfg e s). now rewrite app_nil_r. Qed.

Lemma Forall_prefix {A} (P : A -> Prop) (l : list A) :
  Forall P l -> forall k, Forall P (firstn k l).
Proof.
  induction 1 as [|x l Hx Hl IH]; intros [|k]; simpl; constructor; auto.
Qed.

(** Closed-eye ticks from a zero accumulator, fewer than [firingTick]:
    nothing is logged and nothing but the accumulator moves. *)
Lemma run_before_firing cfg (es : list Event) (s0 : State) :
  0 < pollingInterval cfg ->
  eyesClosedCounterRef s0 == 0 ->
  Forall (fun e => closedTick e = true) es ->
  (Z.of_nat (List.length es) < firingTick cfg)%Z ->
  snd (run cfg es s0) = [] /\
  showAlarm (fst (run cfg es s0)) = showAlarm s0 /\
  eyesClosedDuration (fst (run cfg es s0)) = eyesClosedDuration s0 /\
  alarmTriggeredRef (fst (run cfg es s0)) = alarmTriggeredRef s0 /\
  eyesClosedCounterRef (fst (run cfg es s0)) ==
    inject_Z (Z.of_nat (List.length es)) * tickSeconds cfg.
Proof.
  intros Hpos Hzero Hall Hlen.
  destruct (run_closed_quiet cfg es s0 0%Z Hall) as (Ho & Hs & Hd & Ht & Hq).
  - rewrite Hzero. simpl. ring.
  - intros j Hj. apply below_before_firing; [exact Hpos|lia].
  - repeat split; auto.
Qed.

(** With the additions exact: from any state between two episodes
    (accumulator 0, triggered flag down), with any threshold and any tick
    period above zero, [firingTick] consecutive closed-eye ticks followed
    by one open-eye tick trigger the alarm exactly once, on the last
    closed tick and not before; the open tick resets the accumulator and
    clears the triggered flag, while the published [eyesClosedDuration]
    keeps the duration of the trigger and [showAlarm] stays true. *)
Lemma exact_episode_fires_once_then_reopens
        (cfg : Config) (s0 : State) (es : list Event) (o : Event) :
  0 < pollingInterval cfg ->
  eyesClosedCounterRef s0 == 0 ->
  alarmTriggeredRef s0 = false ->
  Forall (fun e => closedTick e = true) es ->
  Z.of_nat (List.length es) = firingTick cfg ->
  openTick o = true ->
  let d := Qfloor (inject_Z (firingTick cfg) * tickSeconds cfg) in
  (forall k, (k < List.length es)%nat ->
     snd (run cfg (firstn k es) s0) = [] /\
     showAlarm (fst (run cfg (firstn k es) s0)) = showAlarm s0) /\
  snd (run cfg es s0) = [d] /\
  showAlarm (fst (run cfg es s0)) = true /\
  eyesClosedDuration (fst (run cfg es s0)) = d /\
  thresholdSeconds cfg <= inject_Z d /\
  snd (run cfg (es ++ [o]) s0) = [d] /\
  fst (run cfg (es ++ [o]) s0) =
    {| showAlarm := true;
       eyesClosedDuration := d;
       eyesClosedCounterRef := 0;
       alarmTriggeredRef := false |}.
Proof.
  intros Hpos Hzero Hdown Hall Hlen Hopen d.
  assert (Hquiet : forall k, (k < List.length es)%nat ->
     snd (run cfg (firstn k es) s0) = [] /\
     showAlarm (fst (run cfg (firstn k es) s0)) = showAlarm s0).
  { intros k Hk.
    destruct (run_before_firing cfg (firstn k es) s0 Hpos Hzero)
      as (Ho & Hs & _).
    - now apply Forall_prefix.
    - rewrite length_firstn. lia.
    - auto. }
  (* the last closed tick *)
  pose proof (firingTick_pos cfg) as Hn.
  destruct (@exists_last _ es) as (es' & e & Hes).
  { intros ->. simpl in Hlen. lia. }
  assert (Hlen' : Z.of_nat (List.length es') = (firingTick cfg - 1)%Z).
  { rewrite Hes, length_app in Hlen. simpl in Hlen. lia. }
  assert (Hall' : Forall (fun e => closedTick e = true) es'
                  /\ closedTick e = true).
  { rewrite Hes in Hall. apply Forall_app in Hall as [H1 H2].
    inversion H2; subst. auto. }
  destruct Hall' as [Hall' He].
  destruct (run_before_firing cfg es' s0 Hpos Hzero Hall')
    as (Ho1 & Hs1 & Hd1 & Ht1 & Hq1); [lia|].
  rewrite Hdown in Ht1.
  destruct (closedTick_inv e He) as (dr & ear & -> & Hcl).
  set (s1 := fst (run cfg es' s0)) in *.
  assert (Hcount : eyesClosedCounterRef s1 + tickSeconds cfg ==
                   inject_Z (firingTick cfg) * tickSeconds cfg).
  { rewrite Hq1.
    replace (firingTick cfg) with (Z.of_nat (List.length es') + 1)%Z by lia.
    rewrite inject_Z_plus. change (inject_Z 1) with 1. ring. }
  assert (Hfloor : Qfloor (eyesClosedCounterRef s1 + tickSeconds cfg) = d).
  { unfold d. now rewrite Hcount. }
  assert (Hreach : reached cfg d = true)
    by (apply reached_at_firing; exact Hpos).
  assert (Hfire : run cfg es s0 =
     ({| showAlarm := true; eyesClosedDuration := d;
         eyesClosedCounterRef := eyesClosedCounterRef s1 + tickSeconds cfg;
         alarmTriggeredRef := true |}, [d])).
  { rewrite Hes, run_app. fold s1. rewrite Ho1, run_single. simpl step.
    rewrite (check_closed_fire cfg dr ear s1 Hcl);
      [| rewrite Hfloor; exact Hreach | exact Ht1].
    cbn [fst snd app]. now rewrite Hfloor. }
  destruct (openTick_inv o Hopen) as (do & earo & -> & Hop).
  split; [exact Hquiet|].
  rewrite run_app, run_single, Hfire. simpl fst; simpl snd.
  cbn [step]. rewrite (check_open cfg do earo _ Hop).
  cbn [fst snd app afterOpen showAlarm eyesClosedDuration].
  repeat split; auto.
  now apply reached_spec.
Qed.

(** Two more inputs on which [ceil (T / dt)] closed ticks do not fire: a
    threshold of 0 asks for no closed tick at all, and a fractional
    threshold is compared with a floored duration. *)
Example zero_threshold_needs_a_tick :
  let cfg := {| thresholdSeconds := 0; pollingInterval := 1000 |} in
  Qceiling (thresholdSeconds cfg / tickSeconds cfg) = 0%Z /\
  run cfg [openReading] initial = (initial, []) /\
  firingTick cfg = 1%Z.
Proof. vm_compute. repeat split. Qed.

Example fractional_threshold_fires_later :
  let cfg := {| thresholdSeconds := 1 # 2; pollingInterval := 500 |} in
  Qceiling (thresholdSeconds cfg / tickSeconds cfg) = 1%Z /\
  snd (run cfg [closedReading; openReading] initial) = [] /\
  showAlarm (fst (run cfg [closedReading; openReading] initial)) = false /\
  firingTick cfg = 2%Z.
Proof. vm_compute. repeat split. Qed.

(** *** Dismissal *)

Lemma reached_mono cfg (a b : Z) :
  (a <= b)%Z -> reached cfg a = true -> reached cfg b = true.
Proof.
  intros Hab Ha. apply reached_spec. apply reached_spec in Ha.
  eapply Qle_trans; [exact Ha|]. now rewrite <- Zle_Qle.
Qed.




(** *** Readings that are not numbers in range *)

(** C3 (amended).  A reading of NaN or of +Infinity is not below 0.25 and
    takes the eyes-open branch whatever [isDrowsy] is: accumulator 0,
    triggered flag cleared, [showAlarm] and the published duration
    untouched, nothing logged; that is the state any eyes-open tick leaves,
    so nothing remembers the fault.  A negative reading, or -Infinity, is
    below 0.25 and is handled like every other closed-eye reading. *)
Theorem faulty_reading_handling (cfg : Config) (isDrowsy : bool) (s : State) :
  checkDrowsiness cfg isDrowsy NaN s = (afterOpen s, []) /\
  checkDrowsiness cfg isDrowsy PosInf s = (afterOpen s, []) /\
  showAlarm (afterOpen s) = showAlarm s /\
  eyesClosedCounterRef (afterOpen s) = 0 /\
  alarmTriggeredRef (afterOpen s) = false /\
  (forall d ear, eyesClosed d ear = false ->
                 checkDrowsiness cfg d ear s = (afterOpen s, [])) /\
  (forall q, q < 0 ->
             checkDrowsiness cfg true (Fin q) s =
             checkDrowsiness cfg true (Fin (1 # 5)) s) /\
  checkDrowsiness cfg true NegInf s = checkDrowsiness cfg true (Fin (1 # 5)) s.
Proof.
  repeat split.
  - apply check_open. now destruct isDrowsy.
  - apply check_open. now destruct isDrowsy.
  - intros d ear H. now apply check_open.
  - intros q Hq. unfold checkDrowsiness.
    replace (eyesClosed true (Fin q)) with true; [reflexivity|].
    symmetry. unfold eyesClosed, EAR_CLOSED, js_lt. simpl andb.
    apply negb_true_iff. apply not_true_is_false. intros Hle.
    apply Qle_bool_iff in Hle. assert (0 < 1 # 4) by reflexivity. lra.
Qed.

Lemma faulty_reading_handling_witness :
  checkDrowsiness defaultConfig true NaN initial = (initial, []) /\
  checkDrowsiness defaultConfig true (Fin (-1)) initial =
  checkDrowsiness defaultConfig true (Fin (1 # 5)) initial.
Proof.
  pose proof (faulty_reading_handling defaultConfig true initial)
    as (H1 & _ & _ & _ & _ & _ & H7 & _).
  split; [exact H1 | apply H7; reflexivity].
Defined.

(** C3, as stated, fails on a negative reading: with [isDrowsy = true],
    an ear value of -1 is below 0.25, the tick counts as closed, and as
    the fourth tick of an episode it fires the alarm. *)
Lemma negative_ear_counts_as_closed :
  let ticks := [closedReading; closedReading; closedReading;
                Tick true (Fin (-1))] in
  eyesClosed true (Fin (-1)) = true /\
  eyesClosed true NegInf = true /\
  snd (run defaultConfig ticks initial) = [4%Z] /\
  showAlarm (fst (run defaultConfig ticks initial)) = true /\
  alarmTriggeredRef (fst (run defaultConfig ticks initial)) = true.
Proof. vm_compute. repeat split. Qed.

(** *** The published duration *)


(** Without a trigger the flag stays down and the duration stays put. *)
Lemma step_without_trigger cfg e s :
  alarmTriggeredRef s = false ->
  isReset e = false ->
  snd (step cfg e s) = [] ->
  alarmTriggeredRef (fst (step cfg e s)) = false /\
  eyesClosedDuration (fst (step cfg e s)) = eyesClosedDuration s.
Proof.
  intros Ht Hr. destruct e as [d ear| |]; simpl in *; try discriminate; auto.
  unfold checkDrowsiness. rewrite Ht.
  destruct (eyesClosed d ear); [|simpl; auto].
  destruct (reached cfg _); simpl; [discriminate|auto].
Qed.

Lemma run_without_trigger cfg es :
  forall s,
    alarmTriggeredRef s = false ->
    existsb isReset es = false ->
    snd (run cfg es s) = [] ->
    eyesClosedDuration (fst (run cfg es s)) = eyesClosedDuration s.
Proof.
  induction es as [|e es IH]; intros s Ht Hr Hlog; [reflexivity|].
  simpl in Hr. apply orb_false_iff in Hr as [Hr1 Hr2].
  simpl in *. destruct (step cfg e s) as [s1 o1] eqn:Hstep.
  destruct (run cfg es s1) as [s2 o2] eqn:Hrun.
  simpl in *. apply app_eq_nil in Hlog as [-> ->].
  pose proof (step_without_trigger cfg e s Ht Hr1) as Hs.
  rewrite Hstep in Hs. destruct (Hs eq_refl) as [Ht1 Hd1].
  specialize (IH s1 Ht1 Hr2). rewrite Hrun in IH. simpl in *.
  rewrite IH; auto.
Qed.




End AlarmFacts.

(* ================================================================== *)
(** * Properties of the statistics screen *)

Module StatsFacts.

Import Stats.
Unset Implicit Arguments.
Local Open Scope nat_scope.
Local Open Scope string_scope.
Local Open Scope list_scope.

(** *** Array updates and loops *)

Lemma bump_length {B} (f : B -> B) :
  forall i arr out, bump f i arr = Returns out -> List.length out = List.length arr.
Proof.
  intros i arr; revert i.
  induction arr as [|b rest IH]; intros [|i] out H; simpl in H;
    try discriminate.
  - inversion H; reflexivity.
  - destruct (bump f i rest) as [r|] eqn:E; simpl in H; [|discriminate].
    inversion H; subst; simpl. f_equal. eauto.
Qed.

Lemma bump_returns {B} (f : B -> B) :
  forall i arr, i < List.length arr -> exists out, bump f i arr = Returns out.
Proof.
  intros i arr; revert i.
  induction arr as [|b rest IH]; intros [|i] H; simpl in *; try lia; eauto.
  destruct (IH i) as [out ->]; [lia|]. simpl. eauto.
Qed.

(** A bump that adds [k] to a measure of one element adds [k] to the sum
    of the measure. *)
Lemma bump_sum {B} (g : B -> nat) (f : B -> B) (k : nat) :
  (forall b, g (f b) = g b + k) ->
  forall i arr out,
    bump f i arr = Returns out ->
    list_sum (map g out) = list_sum (map g arr) + k.
Proof.
  intros Hg i arr; revert i.
  induction arr as [|b rest IH]; intros [|i] out H; simpl in H;
    try discriminate.
  - inversion H; subst; simpl. rewrite Hg. lia.
  - destruct (bump f i rest) as [r|] eqn:E; simpl in H; [|discriminate].
    inversion H; subst; simpl. rewrite (IH _ _ E). lia.
Qed.

(** A loop keeps what every round keeps; [Q] is what is known when a
    round throws. *)
Lemma forEach_invariant {A S} (P : S -> Prop) (Q : Prop)
      (body : S -> A -> completion S) (xs : list A) :
  (forall s x, In x xs -> P s ->
               match body s x with Returns s' => P s' | Throws => Q end) ->
  forall s, P s ->
            match forEach body xs s with Returns s' => P s' | Throws => Q end.
Proof.
  induction xs as [|x xs IH]; intros Hbody s Hs; simpl; [exact Hs|].
  pose proof (Hbody s x (or_introl eq_refl) Hs) as Hx.
  destruct (body s x) as [s1|]; simpl; [|exact Hx].
  apply IH; [|exact Hx]. intros s' y Hy. apply Hbody. now right.
Qed.

(** *** The invariants of [computeDayStats] *)

Lemma emptyDay_inv : DayInv emptyDay.
Proof. repeat split; simpl; lia. Qed.

Section WithRuntime.
Context {rt : Runtime}.

Lemma visitAlert_inv dayKey st a :
  DayInv st ->
  match visitAlert dayKey st a with
  | Returns st' => DayInv st'
  | Throws =>
      dayKey = "NaN-NaN-NaN" /\
      truthy (Alert.timestamp a) = true /\
      Date_parse (Alert.timestamp a) = InvalidDate
  end.
Proof.
  intros (Hle & Hsum & Hlen). unfold visitAlert.
  destruct (truthy (Alert.timestamp a)) eqn:Hts; simpl; [|repeat split; auto].
  destruct (formatDateKey (Date_parse (Alert.timestamp a)) =? dayKey) eqn:Hkey;
    simpl; [|repeat split; auto].
  destruct (Date_parse (Alert.timestamp a)) as [|f] eqn:Hd; simpl.
  { apply String.eqb_eq in Hkey. simpl in Hkey. auto. }
  assert (Hh : hours f < 24) by (apply Nat.ltb_lt, hours_range).
  destruct (bump_returns Hour.incTotal (hours f) (Day.hourly st)) as [h1 E1];
    [lia|].
  rewrite E1; simpl.
  pose proof (bump_length _ _ _ _ E1) as L1.
  pose proof (bump_sum Hour.total Hour.incTotal 1
                (fun b => eq_sym (Nat.add_1_r _) ) _ _ _ E1) as S1.
  destruct (Alert.type a =? "drowsiness").
  - destruct (bump_returns Hour.incDrowsy (hours f) h1) as [h2 E2]; [lia|].
    rewrite E2; simpl.
    pose proof (bump_length _ _ _ _ E2) as L2.
    pose proof (bump_sum Hour.total Hour.incDrowsy 0
                  (fun b => eq_sym (Nat.add_0_r _)) _ _ _ E2) as S2.
    unfold DayInv, sumHourlyTotal in *; simpl. repeat split; lia.
  - destruct (Alert.type a =? "yawning").
    + destruct (bump_returns Hour.incYawn (hours f) h1) as [h2 E2]; [lia|].
      rewrite E2; simpl.
      pose proof (bump_length _ _ _ _ E2) as L2.
      pose proof (bump_sum Hour.total Hour.incYawn 0
                    (fun b => eq_sym (Nat.add_0_r _)) _ _ _ E2) as S2.
      unfold DayInv, sumHourlyTotal in *; simpl. repeat split; lia.
    + unfold DayInv, sumHourlyTotal in *; simpl. repeat split; lia.
Qed.

(** The loop of [computeDayStats] ends in a state that satisfies the
    invariant, or throws on a record with an unparsable timestamp. *)
Lemma computeDayStats_result (alerts : Mapping Alert.t) (dayKey : string) :
  match computeDayStats alerts dayKey with
  | Returns r => DayInv r
  | Throws =>
      dayKey = "NaN-NaN-NaN" /\
      exists a, In a (Object_values alerts) /\
                truthy (Alert.timestamp a) = true /\
                Date_parse (Alert.timestamp a) = InvalidDate
  end.
Proof.
  unfold computeDayStats.
  apply (forEach_invariant DayInv); [|exact emptyDay_inv].
  intros s x Hin Hs. pose proof (visitAlert_inv dayKey s x Hs) as H.
  destruct (visitAlert dayKey s x); [exact H|].
  destruct H as (H1 & H2 & H3). split; [exact H1|]. exists x. auto.
Qed.

(** C4.  Whatever the alert mapping and the day key, a result of
    [computeDayStats] has [drowsy + yawn <= total], and its 24 hourly
    totals add up to [total]; there is a result for every day key but
    "NaN-NaN-NaN", the key of an unparsable timestamp, where indexing the
    hour buckets with NaN throws. *)
Theorem computeDayStats_invariants
        (alerts : Mapping Alert.t) (dayKey : string) :
  match computeDayStats alerts dayKey with
  | Returns r =>
      Day.drowsy r + Day.yawn r <= Day.total r /\
      sumHourlyTotal (Day.hourly r) = Day.total r /\
      List.length (Day.hourly r) = 24
  | Throws =>
      dayKey = "NaN-NaN-NaN" /\
      exists a, In a (Object_values alerts) /\
                truthy (Alert.timestamp a) = true /\
                Date_parse (Alert.timestamp a) = InvalidDate
  end.
Proof. exact (computeDayStats_result alerts dayKey). Qed.

End WithRuntime.

(** Scenario B: two of the three alerts are of 2024-05-01, both at ten. *)
Example scenarioB_counts :
  exists r,
    @computeDayStats Scenarios.runtime Scenarios.scenarioB "2024-05-01"
      = Returns r /\
    Day.total r = 2 /\ Day.drowsy r = 1 /\ Day.yawn r = 1 /\
    option_map Hour.total (nth_error (Day.hourly r) 10) = Some 2.
Proof. eexists. split; [vm_compute; reflexivity|]. repeat split. Qed.

(** *** The safe rate *)

Lemma of_nat_positive (n : nat) :
  js_gt (of_nat n) (Fin 0) = (0 <? n)%nat.
Proof.
  unfold js_gt, js_lt, of_nat.
  destruct n as [|n]; [reflexivity|].
  change (0 <? S n)%nat with true. apply negb_true_iff.
  apply not_true_is_false. intros H. apply Qle_bool_iff in H.
  change 0%Q with (inject_Z 0) in H. rewrite <- Zle_Qle in H. lia.
Qed.

Lemma inject_nat_nonzero (n : nat) :
  0 < n -> Qeq_bool (inject_Z (Z.of_nat n)) 0 = false.
Proof.
  intros H. apply not_true_is_false. intros E. apply Qeq_bool_iff in E.
  unfold Qeq in E. simpl in E. lia.
Qed.

Lemma daySafeRate_positive (r : Day.t) :
  0 < Day.total r -> daySafeRate r = Fin (safeRateFormula r).
Proof.
  intros H. unfold daySafeRate. rewrite of_nat_positive.
  apply Nat.ltb_lt in H. rewrite H. unfold of_nat, js_sub, js_div.
  apply Nat.ltb_lt in H. rewrite (inject_nat_nonzero _ H). reflexivity.
Qed.

Lemma daySafeRate_zero (r : Day.t) :
  Day.total r = 0 -> daySafeRate r = Fin 100.
Proof. intros H. unfold daySafeRate. rewrite of_nat_positive, H. reflexivity. Qed.

Lemma safeRateFormula_bounds (r : Day.t) :
  0 < Day.total r ->
  Day.drowsy r + Day.yawn r <= Day.total r ->
  (0 <= safeRateFormula r /\ safeRateFormula r <= 100)%Q.
Proof.
  intros Ht Hle. unfold safeRateFormula.
  set (t := inject_Z (Z.of_nat (Day.total r))).
  set (n := (t - inject_Z (Z.of_nat (Day.drowsy r))
             - inject_Z (Z.of_nat (Day.yawn r)))%Q).
  assert (Htpos : (0 < t)%Q).
  { subst t. change 0%Q with (inject_Z 0). rewrite <- Zlt_Qlt. lia. }
  assert (Hn : (0 <= n /\ n <= t)%Q).
  { assert (Hd : (0 <= inject_Z (Z.of_nat (Day.drowsy r)))%Q)
      by (change 0%Q with (inject_Z 0); rewrite <- Zle_Qle; lia).
    assert (Hy : (0 <= inject_Z (Z.of_nat (Day.yawn r)))%Q)
      by (change 0%Q with (inject_Z 0); rewrite <- Zle_Qle; lia).
    assert (Hs : (inject_Z (Z.of_nat (Day.drowsy r))
                  + inject_Z (Z.of_nat (Day.yawn r)) <= t)%Q)
      by (subst t; rewrite <- inject_Z_plus, <- Zle_Qle; lia).
    subst n. split; lra. }
  destruct Hn as [Hn0 Hnt].
  assert (H0 : (0 <= n / t)%Q).
  { apply Qle_shift_div_l; [exact Htpos|]. now rewrite Qmult_0_l. }
  assert (H1 : (n / t <= 1)%Q).
  { apply Qle_shift_div_r; [exact Htpos|]. now rewrite Qmult_1_l. }
  split; lra.
Qed.

Section SafeRate.
Context {rt : Runtime}.

(** C5.  On every result of [computeDayStats] the safe rate is a finite
    number: 100 when [total] is 0, and
    [(total - drowsy - yawn) / total * 100], between 0 and 100, when
    [total] is above 0.  An empty mapping gives [total = 0] and a rate of
    100 for every day key. *)
Theorem daySafeRate_defined
        (alerts : Mapping Alert.t) (dayKey : string) (r : Day.t) :
  computeDayStats alerts dayKey = Returns r ->
  (Day.total r = 0 -> daySafeRate r = Fin 100) /\
  (0 < Day.total r ->
   daySafeRate r = Fin (safeRateFormula r) /\
   (0 <= safeRateFormula r /\ safeRateFormula r <= 100)%Q) /\
  is_finite (daySafeRate r) = true /\
  (exists r0, computeDayStats [] dayKey = Returns r0 /\
              Day.total r0 = 0 /\ daySafeRate r0 = Fin 100).
Proof.
  intros Hr.
  pose proof (computeDayStats_result alerts dayKey) as Hinv.
  rewrite Hr in Hinv. destruct Hinv as (Hle & _ & _).
  split; [apply daySafeRate_zero|].
  split.
  { intros Ht. split; [now apply daySafeRate_positive|].
    now apply safeRateFormula_bounds. }
  split.
  { destruct (Day.total r) eqn:Ht.
    - now rewrite daySafeRate_zero.
    - rewrite daySafeRate_positive; [reflexivity|lia]. }
  exists emptyDay. repeat split.
Qed.

End SafeRate.

Lemma daySafeRate_defined_witness :
  exists r,
    @computeDayStats Scenarios.runtime Scenarios.scenarioB "2024-05-01"
      = Returns r /\
    is_finite (daySafeRate r) = true.
Proof.
  eexists. split; [vm_compute; reflexivity|].
  eapply (@daySafeRate_defined Scenarios.runtime Scenarios.scenarioB
                               "2024-05-01").
  vm_compute; reflexivity.
Defined.

(** *** Deleting a record *)

Lemma Forall2_refl {B} (R : B -> B -> Prop) :
  (forall b, R b b) -> forall l, Forall2 R l l.
Proof. intros HR l. induction l; constructor; auto. Qed.

Lemma Forall2_trans {B} (R : B -> B -> Prop) :
  (forall a b c, R a b -> R b c -> R a c) ->
  forall l1 l2 l3, Forall2 R l1 l2 -> Forall2 R l2 l3 -> Forall2 R l1 l3.
Proof.
  intros HR l1 l2 l3 H12. revert l3.
  induction H12; intros l3 H23; inversion H23; subst; constructor; eauto.
Qed.

(** Bumping related arrays at the same index keeps them related. *)
Lemma bump_mono {B} (R : B -> B -> Prop) (f : B -> B) :
  (forall b' b, R b' b -> R (f b') (f b)) ->
  forall i arr' arr out,
    Forall2 R arr' arr ->
    bump f i arr = Returns out ->
    exists out', bump f i arr' = Returns out' /\ Forall2 R out' out.
Proof.
  intros Hf i arr' arr out Hrel. revert i out.
  induction Hrel as [|b' b rest' rest Hb Hrest IH]; intros [|i] out H;
    simpl in H; try discriminate.
  - inversion H; subst. simpl. eexists; split; [reflexivity|].
    constructor; auto.
  - destruct (bump f i rest) as [r|] eqn:E; simpl in H; [|discriminate].
    inversion H; subst.
    destruct (IH i r E) as (r' & E' & Hr'). simpl. rewrite E'. simpl.
    eexists; split; [reflexivity|]. constructor; auto.
Qed.

(** A bump that only raises an element only raises the array. *)
Lemma bump_infl {B} (R : B -> B -> Prop) (f : B -> B) :
  (forall b, R b b) -> (forall b, R b (f b)) ->
  forall i arr out, bump f i arr = Returns out -> Forall2 R arr out.
Proof.
  intros Hrefl Hf i arr. revert i.
  induction arr as [|b rest IH]; intros [|i] out H; simpl in H;
    try discriminate.
  - inversion H; subst. constructor; [apply Hf|].
    now apply Forall2_refl.
  - destruct (bump f i rest) as [r|] eqn:E; simpl in H; [|discriminate].
    inversion H; subst. constructor; eauto.
Qed.

(** Leaving records out of a loop whose rounds only raise the captured
    variables, and raise them monotonically, gives a result no larger. *)
Lemma forEach_filter_mono {K A S} (le : S -> S -> Prop)
      (body : S -> A -> completion S) (keep : K * A -> bool) :
  (forall a b c, le a b -> le b c -> le a c) ->
  (forall s' s x t, le s' s -> body s x = Returns t ->
                    exists t', body s' x = Returns t' /\ le t' t) ->
  (forall s x t, body s x = Returns t -> le s t) ->
  forall (m : list (K * A)) s' s t,
    le s' s ->
    forEach body (map snd m) s = Returns t ->
    exists t', forEach body (map snd (filter keep m)) s' = Returns t' /\
               le t' t.
Proof.
  intros Htrans Hmono Hinfl m.
  induction m as [|[k x] m IH]; intros s' s t Hle H; simpl in *.
  - inversion H; subst. eauto.
  - destruct (body s x) as [s1|] eqn:E; simpl in H; [|discriminate].
    destruct (keep (k, x)); simpl.
    + destruct (Hmono s' s x s1 Hle E) as (s1' & E' & Hle1).
      rewrite E'; simpl. eapply IH; eauto.
    + eapply IH; [|exact H]. eapply Htrans; [exact Hle|]. eapply Hinfl; eauto.
Qed.

Lemma Hour_le_refl b : Hour_le b b.
Proof. unfold Hour_le; auto. Qed.

Lemma Hour_le_trans a b c : Hour_le a b -> Hour_le b c -> Hour_le a c.
Proof. unfold Hour_le. intuition lia. Qed.

Lemma Day_le_trans a b c : Day_le a b -> Day_le b c -> Day_le a c.
Proof.
  intros (H1 & H2 & H3 & H4) (G1 & G2 & G3 & G4).
  repeat split; try lia.
  eapply Forall2_trans; eauto using Hour_le_trans.
Qed.

Lemma Day_le_refl a : Day_le a a.
Proof.
  repeat split; auto. apply Forall2_refl, Hour_le_refl.
Qed.

Lemma incTotal_mono b' b : Hour_le b' b -> Hour_le (Hour.incTotal b') (Hour.incTotal b).
Proof. unfold Hour_le; simpl; intuition lia. Qed.
Lemma incDrowsy_mono b' b : Hour_le b' b -> Hour_le (Hour.incDrowsy b') (Hour.incDrowsy b).
Proof. unfold Hour_le; simpl; intuition lia. Qed.
Lemma incYawn_mono b' b : Hour_le b' b -> Hour_le (Hour.incYawn b') (Hour.incYawn b).
Proof. unfold Hour_le; simpl; intuition lia. Qed.
Lemma incTotal_infl b : Hour_le b (Hour.incTotal b).
Proof. unfold Hour_le; simpl; intuition lia. Qed.
Lemma incDrowsy_infl b : Hour_le b (Hour.incDrowsy b).
Proof. unfold Hour_le; simpl; intuition lia. Qed.
Lemma incYawn_infl b : Hour_le b (Hour.incYawn b).
Proof. unfold Hour_le; simpl; intuition lia. Qed.

Section Deletion.
Context {rt : Runtime}.

Lemma visitAlert_mono dayKey st' st a t :
  Day_le st' st ->
  visitAlert dayKey st a = Returns t ->
  exists t', visitAlert dayKey st' a = Returns t' /\ Day_le t' t.
Proof.
  intros Hle. pose proof Hle as (H1 & H2 & H3 & H4). unfold visitAlert.
  destruct (negb (truthy (Alert.timestamp a))).
  { intros E; inversion E; subst; eauto. }
  destruct (negb (formatDateKey (Date_parse (Alert.timestamp a)) =? dayKey)).
  { intros E; inversion E; subst; eauto. }
  destruct (getHours (Date_parse (Alert.timestamp a))) as [h|];
    [|discriminate].
  destruct (bump Hour.incTotal h (Day.hourly st)) as [h1|] eqn:E1;
    simpl; [|discriminate].
  destruct (bump_mono Hour_le Hour.incTotal incTotal_mono h _ _ _ H4 E1)
    as (h1' & E1' & R1).
  rewrite E1'; simpl.
  destruct (Alert.type a =? "drowsiness").
  - destruct (bump Hour.incDrowsy h h1) as [h2|] eqn:E2; simpl; [|discriminate].
    destruct (bump_mono Hour_le Hour.incDrowsy incDrowsy_mono h _ _ _ R1 E2)
      as (h2' & E2' & R2).
    rewrite E2'; simpl. intros E; inversion E; subst.
    eexists; split; [reflexivity|]. repeat split; simpl; auto; lia.
  - destruct (Alert.type a =? "yawning").
    + destruct (bump Hour.incYawn h h1) as [h2|] eqn:E2; simpl; [|discriminate].
      destruct (bump_mono Hour_le Hour.incYawn incYawn_mono h _ _ _ R1 E2)
        as (h2' & E2' & R2).
      rewrite E2'; simpl. intros E; inversion E; subst.
      eexists; split; [reflexivity|]. repeat split; simpl; auto; lia.
    + intros E; inversion E; subst.
      eexists; split; [reflexivity|]. repeat split; simpl; auto; lia.
Qed.

Lemma visitAlert_infl dayKey st a t :
  visitAlert dayKey st a = Returns t -> Day_le st t.
Proof.
  unfold visitAlert.
  destruct (negb (truthy (Alert.timestamp a))).
  { intros E; inversion E; subst. apply Day_le_refl. }
  destruct (negb (formatDateKey (Date_parse (Alert.timestamp a)) =? dayKey)).
  { intros E; inversion E; subst. apply Day_le_refl. }
  destruct (getHours (Date_parse (Alert.timestamp a))) as [h|];
    [|discriminate].
  destruct (bump Hour.incTotal h (Day.hourly st)) as [h1|] eqn:E1;
    simpl; [|discriminate].
  pose proof (bump_infl Hour_le Hour.incTotal Hour_le_refl incTotal_infl
                        _ _ _ E1) as R1.
  destruct (Alert.type a =? "drowsiness").
  - destruct (bump Hour.incDrowsy h h1) as [h2|] eqn:E2; simpl; [|discriminate].
    pose proof (bump_infl Hour_le Hour.incDrowsy Hour_le_refl incDrowsy_infl
                          _ _ _ E2) as R2.
    intros E; inversion E; subst. repeat split; simpl; try lia.
    eapply Forall2_trans; eauto using Hour_le_trans.
  - destruct (Alert.type a =? "yawning").
    + destruct (bump Hour.incYawn h h1) as [h2|] eqn:E2; simpl; [|discriminate].
      pose proof (bump_infl Hour_le Hour.incYawn Hour_le_refl incYawn_infl
                            _ _ _ E2) as R2.
      intros E; inversion E; subst. repeat split; simpl; try lia.
      eapply Forall2_trans; eauto using Hour_le_trans.
    + intros E; inversion E; subst. repeat split; simpl; auto; lia.
Qed.

Lemma computeDayStats_remove alerts k dayKey r :
  computeDayStats alerts dayKey = Returns r ->
  exists r', computeDayStats (remove_key k alerts) dayKey = Returns r' /\
             Day_le r' r.
Proof.
  unfold computeDayStats, Object_values, remove_key. intros H.
  eapply (forEach_filter_mono Day_le (visitAlert dayKey)); eauto.
  - apply Day_le_trans.
  - intros; eapply visitAlert_mono; eauto.
  - intros; eapply visitAlert_infl; eauto.
  - apply Day_le_refl.
Qed.

End Deletion.

(** *** Counting emotions *)

Lemma getCount_setCount x em v c :
  getCount x (setCount em v c) = if em =? x then v else getCount x c.
Proof.
  induction c as [|[k c0] rest IH]; simpl.
  - reflexivity.
  - destruct (k =? em) eqn:Ek; simpl.
    + apply String.eqb_eq in Ek; subst k. now destruct (em =? x).
    + rewrite IH. destruct (k =? x) eqn:Ex; [|reflexivity].
      apply String.eqb_eq in Ex; subst k.
      now rewrite String.eqb_sym, Ek.
Qed.

Lemma getCount_incCount x em c :
  getCount x (incCount em c) = getCount x c + (if em =? x then 1 else 0).
Proof.
  unfold incCount. rewrite getCount_setCount.
  destruct (em =? x) eqn:E; [|lia].
  apply String.eqb_eq in E. now subst.
Qed.

Lemma Counts_le_refl c : Counts_le c c.
Proof. intros em; lia. Qed.

Lemma Counts_le_trans a b c : Counts_le a b -> Counts_le b c -> Counts_le a c.
Proof. intros H1 H2 em. specialize (H1 em). specialize (H2 em). lia. Qed.

Lemma incCount_mono em c' c :
  Counts_le c' c -> Counts_le (incCount em c') (incCount em c).
Proof. intros H x. rewrite !getCount_incCount. specialize (H x). lia. Qed.

Lemma incCount_infl em c : Counts_le c (incCount em c).
Proof. intros x. rewrite getCount_incCount. lia. Qed.

Lemma EmotionHour_le_refl b : EmotionHour_le b b.
Proof. repeat split; auto. apply Counts_le_refl. Qed.

Lemma EmotionHour_le_trans a b c :
  EmotionHour_le a b -> EmotionHour_le b c -> EmotionHour_le a c.
Proof.
  intros (H1 & H2 & H3) (G1 & G2 & G3). repeat split; try lia; try congruence.
  eapply Counts_le_trans; eauto.
Qed.

Lemma EmotionDay_le_refl a : EmotionDay_le a a.
Proof.
  repeat split; auto using Counts_le_refl.
  apply Forall2_refl, EmotionHour_le_refl.
Qed.

Lemma EmotionDay_le_trans a b c :
  EmotionDay_le a b -> EmotionDay_le b c -> EmotionDay_le a c.
Proof.
  intros (H1 & H2 & H3) (G1 & G2 & G3). repeat split; try lia.
  - eapply Counts_le_trans; eauto.
  - eapply Forall2_trans; eauto using EmotionHour_le_trans.
Qed.

Lemma eIncTotal_mono b' b :
  EmotionHour_le b' b ->
  EmotionHour_le (EmotionHour.incTotal b') (EmotionHour.incTotal b).
Proof. intros (H1 & H2 & H3); repeat split; simpl; auto; lia. Qed.

Lemma eIncTotal_infl b : EmotionHour_le b (EmotionHour.incTotal b).
Proof. repeat split; simpl; auto using Counts_le_refl. Qed.

Lemma eIncCounts_mono em b' b :
  EmotionHour_le b' b ->
  EmotionHour_le (EmotionHour.incCounts (incCount em) b')
                 (EmotionHour.incCounts (incCount em) b).
Proof.
  intros (H1 & H2 & H3); repeat split; simpl; auto.
  now apply incCount_mono.
Qed.

Lemma eIncCounts_infl em b :
  EmotionHour_le b (EmotionHour.incCounts (incCount em) b).
Proof. repeat split; simpl; auto using incCount_infl. Qed.

Section EmotionDeletion.
Context {rt : Runtime}.

Lemma visitEmotion_mono dayKey st' st e t :
  EmotionDay_le st' st ->
  visitEmotion dayKey st e = Returns t ->
  exists t', visitEmotion dayKey st' e = Returns t' /\ EmotionDay_le t' t.
Proof.
  intros Hle. pose proof Hle as (H1 & H2 & H3). unfold visitEmotion.
  destruct (negb (truthy (Emotion.timestamp e))
            || negb (truthy (Emotion.emotion e))).
  { intros E; inversion E; subst; eauto. }
  destruct (negb (formatDateKey (Date_parse (Emotion.timestamp e)) =? dayKey)).
  { intros E; inversion E; subst; eauto. }
  destruct (getHours (Date_parse (Emotion.timestamp e))) as [h|];
    [|discriminate].
  set (em := toLowerCase (Emotion.emotion e)).
  destruct (bump EmotionHour.incTotal h (EmotionDay.hourly st)) as [h1|] eqn:E1;
    simpl; [|discriminate].
  destruct (bump_mono EmotionHour_le EmotionHour.incTotal eIncTotal_mono
                      h _ _ _ H3 E1) as (h1' & E1' & R1).
  rewrite E1'; simpl.
  destruct (bump (EmotionHour.incCounts (incCount em)) h h1) as [h2|] eqn:E2;
    simpl; [|discriminate].
  destruct (bump_mono EmotionHour_le (EmotionHour.incCounts (incCount em))
                      (eIncCounts_mono em) h _ _ _ R1 E2) as (h2' & E2' & R2).
  rewrite E2'; simpl. intros E; inversion E; subst.
  eexists; split; [reflexivity|]. repeat split; simpl; auto; try lia.
  now apply incCount_mono.
Qed.

Lemma visitEmotion_infl dayKey st e t :
  visitEmotion dayKey st e = Returns t -> EmotionDay_le st t.
Proof.
  unfold visitEmotion.
  destruct (negb (truthy (Emotion.timestamp e))
            || negb (truthy (Emotion.emotion e))).
  { intros E; inversion E; subst. apply EmotionDay_le_refl. }
  destruct (negb (formatDateKey (Date_parse (Emotion.timestamp e)) =? dayKey)).
  { intros E; inversion E; subst. apply EmotionDay_le_refl. }
  destruct (getHours (Date_parse (Emotion.timestamp e))) as [h|];
    [|discriminate].
  set (em := toLowerCase (Emotion.emotion e)).
  destruct (bump EmotionHour.incTotal h (EmotionDay.hourly st)) as [h1|] eqn:E1;
    simpl; [|discriminate].
  pose proof (bump_infl EmotionHour_le EmotionHour.incTotal
                EmotionHour_le_refl eIncTotal_infl _ _ _ E1) as R1.
  destruct (bump (EmotionHour.incCounts (incCount em)) h h1) as [h2|] eqn:E2;
    simpl; [|discriminate].
  pose proof (bump_infl EmotionHour_le (EmotionHour.incCounts (incCount em))
                EmotionHour_le_refl (eIncCounts_infl em) _ _ _ E2) as R2.
  intros E; inversion E; subst. repeat split; simpl; try lia.
  - apply incCount_infl.
  - eapply Forall2_trans; eauto using EmotionHour_le_trans.
Qed.

Lemma computeEmotionDayStats_remove emotions k dayKey r :
  computeEmotionDayStats emotions dayKey = Returns r ->
  exists r', computeEmotionDayStats (remove_key k emotions) dayKey
             = Returns r' /\
             EmotionDay_le r' r.
Proof.
  unfold computeEmotionDayStats, Object_values, remove_key. intros H.
  destruct (forEach (visitEmotion dayKey) (map snd emotions) emptyEmotionDay)
    as [st|] eqn:E; simpl in H; [|discriminate].
  inversion H; subst; clear H.
  destruct (forEach_filter_mono EmotionDay_le (visitEmotion dayKey)
              (fun p : string * Emotion.t => negb (fst p =? k))
              EmotionDay_le_trans
              (fun s' s x t => @visitEmotion_mono dayKey s' s x t)
              (fun s x t => @visitEmotion_infl dayKey s x t)
              emotions emptyEmotionDay emptyEmotionDay st
              (EmotionDay_le_refl _) E) as (st' & E' & Hle).
  rewrite E'; simpl. eexists; split; [reflexivity|].
  destruct Hle as (H1 & H2 & H3). repeat split; simpl; auto.
Qed.

(** C6.  When [computeDayStats] has a result on a mapping, it has one on
    the mapping without the key [k] as well, and there [total], [drowsy],
    [yawn] and the three counters of each of the 24 hourly buckets are
    less than or equal to what they were; likewise
    [computeEmotionDayStats]: [total], the count of every emotion, and the
    total and every emotion count of each hourly bucket. *)
Theorem stats_monotone_under_deletion (k dayKey : string) :
  (forall (alerts : Mapping Alert.t) (r : Day.t),
      computeDayStats alerts dayKey = Returns r ->
      exists r', computeDayStats (remove_key k alerts) dayKey = Returns r' /\
                 Day_le r' r) /\
  (forall (emotions : Mapping Emotion.t) (r : EmotionDay.t),
      computeEmotionDayStats emotions dayKey = Returns r ->
      exists r', computeEmotionDayStats (remove_key k emotions) dayKey
                 = Returns r' /\
                 EmotionDay_le r' r).
Proof.
  split.
  - intros alerts r. apply computeDayStats_remove.
  - intros emotions r. apply computeEmotionDayStats_remove.
Qed.

End EmotionDeletion.

Lemma stats_monotone_under_deletion_witness :
  (exists r',
      @computeDayStats Scenarios.runtime
        (remove_key "a2" Scenarios.scenarioB) "2024-05-01" = Returns r') /\
  (exists r',
      @computeEmotionDayStats Scenarios.runtime
        (remove_key "e3" Scenarios.scenarioD) "2024-05-01" = Returns r').
Proof.
  destruct (@stats_monotone_under_deletion Scenarios.runtime
              "a2" "2024-05-01") as [HA _].
  destruct (@stats_monotone_under_deletion Scenarios.runtime
              "e3" "2024-05-01") as [_ HE].
  split.
  - destruct (HA Scenarios.scenarioB _ eq_refl) as (r' & Hr' & _).
    exists r'. exact Hr'.
  - destruct (HE Scenarios.scenarioD _ eq_refl) as (r' & Hr' & _).
    exists r'. exact Hr'.
Defined.

(** *** The dominant emotion *)

Lemma keys_setCount_present em v c :
  In em (map fst c) -> map fst (setCount em v c) = map fst c.
Proof.
  induction c as [|[k c0] rest IH]; simpl; [tauto|].
  intros [Hk|Hin].
  - subst k. now rewrite String.eqb_refl.
  - destruct (k =? em); simpl; [reflexivity|]. now rewrite IH.
Qed.

Lemma keys_setCount_absent em v c :
  ~ In em (map fst c) -> map fst (setCount em v c) = map fst c ++ [em].
Proof.
  induction c as [|[k c0] rest IH]; simpl; [reflexivity|].
  intros Hnot. destruct (k =? em) eqn:E.
  - apply String.eqb_eq in E. tauto.
  - simpl. rewrite IH; tauto.
Qed.

Lemma keys_incCount em c :
  exists ext, map fst (incCount em c) = map fst c ++ ext /\
              (forall k, In k ext -> k = em) /\
              (~ In em (map fst c) -> ext = [em]).
Proof.
  unfold incCount.
  destruct (in_dec string_dec em (map fst c)) as [Hin|Hnot].
  - exists []. rewrite keys_setCount_present, app_nil_r by assumption.
    repeat split; [intros k []|tauto].
  - exists [em]. rewrite keys_setCount_absent by assumption.
    repeat split. intros k [<-|[]]; reflexivity.
Qed.

Lemma In_keys_incCount em c : In em (map fst (incCount em c)).
Proof.
  unfold incCount.
  destruct (in_dec string_dec em (map fst c)) as [Hin|Hnot].
  - now rewrite keys_setCount_present.
  - rewrite keys_setCount_absent by assumption. apply in_or_app; simpl; auto.
Qed.

Lemma NoDup_keys_incCount em c :
  NoDup (map fst c) -> NoDup (map fst (incCount em c)).
Proof.
  intros H. unfold incCount.
  destruct (in_dec string_dec em (map fst c)) as [Hin|Hnot].
  - now rewrite keys_setCount_present.
  - rewrite keys_setCount_absent by assumption.
    apply NoDup_app; [exact H|repeat constructor; simpl; tauto|].
    intros x Hx [<-|[]]. tauto.
Qed.

(** Counting the labels [L] one after the other, on top of [c]. *)
Lemma tally_count L :
  forall c x,
    getCount x (fold_left (fun c em => incCount em c) L c)
    = getCount x c + count_occ string_dec L x.
Proof.
  induction L as [|em L IH]; intros c x; simpl; [lia|].
  rewrite IH, getCount_incCount.
  destruct (string_dec em x) as [->|Hne].
  - rewrite String.eqb_refl. lia.
  - apply String.eqb_neq in Hne. rewrite Hne. lia.
Qed.

Lemma tally_keys_extend L :
  forall c, exists ext,
      map fst (fold_left (fun c em => incCount em c) L c) = map fst c ++ ext /\
      (forall k, In k ext -> In k L).
Proof.
  induction L as [|em L IH]; intros c; simpl.
  - exists []. rewrite app_nil_r. split; [reflexivity|intros k []].
  - destruct (IH (incCount em c)) as (ext & Hext & Hsub).
    destruct (keys_incCount em c) as (e1 & He1 & Hem & _).
    exists (e1 ++ ext). rewrite Hext, He1, app_assoc. split; [reflexivity|].
    intros k Hk. apply in_app_or in Hk as [Hk|Hk]; [left|right]; auto.
    symmetry; auto.
Qed.

Lemma tally_keys_cover L :
  forall c k, In k L ->
              In k (map fst (fold_left (fun c em => incCount em c) L c)).
Proof.
  induction L as [|em L IH]; intros c k; simpl; [tauto|].
  intros [->|Hin]; [|now apply IH].
  destruct (tally_keys_extend L (incCount k c)) as (ext & -> & _).
  apply in_or_app. left. apply In_keys_incCount.
Qed.

Lemma tally_NoDup L :
  forall c, NoDup (map fst c) ->
            NoDup (map fst (fold_left (fun c em => incCount em c) L c)).
Proof.
  induction L as [|em L IH]; intros c H; simpl; [exact H|].
  apply IH. now apply NoDup_keys_incCount.
Qed.

Lemma getCount_of_entry c :
  NoDup (map fst c) ->
  forall k v, In (k, v) c -> getCount k c = v.
Proof.
  induction c as [|[k0 v0] rest IH]; simpl; intros Hnd k v; [tauto|].
  inversion Hnd as [|? ? Hnot Hrest]; subst.
  intros [E|Hin].
  - inversion E; subst. now rewrite String.eqb_refl.
  - destruct (k0 =? k) eqn:Ek; [|now apply IH].
    apply String.eqb_eq in Ek; subst k0. exfalso. apply Hnot.
    apply in_map_iff. now exists (k, v).
Qed.

Lemma entry_of_getCount c k :
  getCount k c <> 0 -> In (k, getCount k c) c.
Proof.
  induction c as [|[k0 v0] rest IH]; simpl; [tauto|].
  destruct (k0 =? k) eqn:Ek.
  - apply String.eqb_eq in Ek; subst. auto.
  - auto.
Qed.

Lemma split_at_first {A} (dec : forall a b : A, {a = b} + {a <> b})
      (x : A) (l : list A) :
  In x l -> exists pre post, l = pre ++ x :: post /\ ~ In x pre.
Proof.
  induction l as [|y l IH]; simpl; [tauto|].
  intros H. destruct (dec y x) as [->|Hne].
  - exists [], l. simpl. tauto.
  - destruct IH as (pre & post & -> & Hnot); [tauto|].
    exists (y :: pre), post. simpl. split; [reflexivity|tauto].
Qed.

Lemma NoDup_split_unique {A} (x : A) :
  forall a b a' b',
    NoDup (a ++ x :: b) -> a ++ x :: b = a' ++ x :: b' -> a = a'.
Proof.
  induction a as [|y a IH]; intros b a' b' Hnd E.
  - destruct a' as [|z a']; [reflexivity|].
    simpl in *. inversion E; subst. inversion Hnd as [|? ? Hnot _]; subst.
    exfalso. apply Hnot. apply in_or_app. simpl; auto.
  - destruct a' as [|z a']; simpl in *.
    + inversion E; subst. inversion Hnd as [|? ? Hnot _]; subst.
      exfalso. apply Hnot. apply in_or_app. simpl; auto.
    + inversion E; subst. inversion Hnd; subst. f_equal. eapply IH; eauto.
Qed.

(** The scan keeps the first entry with the largest count above the
    starting maximum. *)
Lemma scanDominant_fold l :
  forall d0 m0,
    let res := fold_left scanDominant l (d0, m0) in
    (forall k c, In (k, c) l -> c <= snd res) /\
    m0 <= snd res /\
    ((res = (d0, m0) /\ forall k c, In (k, c) l -> c <= m0) \/
     (m0 < snd res /\
      exists pre post,
        l = pre ++ res :: post /\
        forall k c, In (k, c) pre -> c < snd res)).
Proof.
  induction l as [|[k c] l IH]; intros d0 m0; cbv zeta.
  - simpl. split; [tauto|]. split; [lia|]. left. split; [reflexivity|tauto].
  - change (fold_left scanDominant ((k, c) :: l) (d0, m0))
      with (fold_left scanDominant l (scanDominant (d0, m0) (k, c))).
    assert (Hstep : scanDominant (d0, m0) (k, c)
                    = if (m0 <? c)%nat then (k, c) else (d0, m0))
      by reflexivity.
    rewrite Hstep; clear Hstep.
    destruct (m0 <? c)%nat eqn:Hlt.
    + apply Nat.ltb_lt in Hlt.
      pose proof (IH k c) as IHk. cbv zeta in IHk.
      destruct (fold_left scanDominant l (k, c)) as [d m] eqn:Hres.
      simpl snd in *.
      destruct IHk as (Hmax & Hge & Hcase).
      split.
      { intros k1 c1 [E|Hin]; [inversion E; subst; lia|eauto]. }
      split; [lia|]. right. split; [lia|].
      destruct Hcase as [[E Hall]|[Hgt (pre & post & Hl & Hpre)]].
      * inversion E; subst. exists [], l. simpl. split; [reflexivity|tauto].
      * exists ((k, c) :: pre), post. rewrite Hl. simpl.
        split; [reflexivity|].
        intros k1 c1 [E|Hin]; [inversion E; subst; lia|eauto].
    + apply Nat.ltb_ge in Hlt.
      pose proof (IH d0 m0) as IH0. cbv zeta in IH0.
      destruct (fold_left scanDominant l (d0, m0)) as [d m] eqn:Hres.
      simpl snd in *.
      destruct IH0 as (Hmax & Hge & Hcase).
      split.
      { intros k1 c1 [E|Hin]; [inversion E; subst; lia|eauto]. }
      split; [lia|].
      destruct Hcase as [[E Hall]|[Hgt (pre & post & Hl & Hpre)]].
      * left. split; [exact E|].
        intros k1 c1 [E1|Hin]; [inversion E1; subst; lia|eauto].
      * right. split; [lia|].
        exists ((k, c) :: pre), post. rewrite Hl. simpl.
        split; [reflexivity|].
        intros k1 c1 [E|Hin]; [inversion E; subst; lia|eauto].
Qed.

Section Dominant.
Context {rt : Runtime}.

Lemma visitEmotion_counts dayKey st e t :
  visitEmotion dayKey st e = Returns t ->
  EmotionDay.counts t =
  if countedEmotion dayKey e
  then incCount (toLowerCase (Emotion.emotion e)) (EmotionDay.counts st)
  else EmotionDay.counts st.
Proof.
  unfold visitEmotion, countedEmotion.
  destruct (truthy (Emotion.timestamp e)); simpl;
    [|intros E; inversion E; reflexivity].
  destruct (truthy (Emotion.emotion e)); simpl;
    [|intros E; inversion E; reflexivity].
  destruct (formatDateKey (Date_parse (Emotion.timestamp e)) =? dayKey); simpl;
    [|intros E; inversion E; reflexivity].
  destruct (getHours (Date_parse (Emotion.timestamp e))) as [h|];
    [|discriminate].
  destruct (bump EmotionHour.incTotal h (EmotionDay.hourly st)) as [h1|];
    simpl; [|discriminate].
  destruct (bump _ h h1) as [h2|]; simpl; [|discriminate].
  intros E; inversion E; reflexivity.
Qed.

Lemma forEach_counts dayKey es :
  forall st t,
    forEach (visitEmotion dayKey) es st = Returns t ->
    EmotionDay.counts t =
    fold_left (fun c em => incCount em c)
              (map (fun e => toLowerCase (Emotion.emotion e))
                   (filter (countedEmotion dayKey) es))
              (EmotionDay.counts st).
Proof.
  induction es as [|e es IH]; intros st t H; simpl in H.
  - inversion H; reflexivity.
  - destruct (visitEmotion dayKey st e) as [s1|] eqn:E; simpl in H;
      [|discriminate].
    rewrite (IH _ _ H), (visitEmotion_counts _ _ _ _ E). simpl.
    destruct (countedEmotion dayKey e); reflexivity.
Qed.

(** Over tables of numbers: on every result of
    [computeEmotionDayStats] the count of a category is the number of the
    day's records of that category; with no record of the day the
    dominant emotion is "neutral"; otherwise it is a category of the day
    whose count no other category exceeds, and every category met before
    its first record, in the order the records are visited, has a
    strictly smaller count. *)
Lemma table_dominant_is_first_maximum
        (emotions : Mapping Emotion.t) (dayKey : string) (r : EmotionDay.t) :
  computeEmotionDayStats emotions dayKey = Returns r ->
  let L := dayLabels emotions dayKey in
  let n := count_occ string_dec L in
  (forall em, getCount em (EmotionDay.counts r) = n em) /\
  (L = [] -> EmotionDay.dominant r = "neutral") /\
  (L <> [] ->
   0 < n (EmotionDay.dominant r) /\
   (forall em, n em <= n (EmotionDay.dominant r)) /\
   exists pre post,
     L = pre ++ EmotionDay.dominant r :: post /\
     ~ In (EmotionDay.dominant r) pre /\
     forall em, In em pre -> n em < n (EmotionDay.dominant r)).
Proof.
  intros H L n. unfold computeEmotionDayStats in H.
  destruct (forEach (visitEmotion dayKey) (Object_values emotions)
                    emptyEmotionDay) as [st|] eqn:E; simpl in H; [|discriminate].
  inversion H; subst r; clear H. simpl.
  pose proof (forEach_counts _ _ _ _ E) as Hc. simpl in Hc.
  fold (dayLabels emotions dayKey) in Hc. fold L in Hc.
  set (counts := EmotionDay.counts st) in *.
  assert (Hcount : forall em, getCount em counts = n em).
  { intros em. rewrite Hc, tally_count. reflexivity. }
  assert (Hnd : NoDup (map fst counts)).
  { rewrite Hc. apply tally_NoDup. constructor. }
  split; [exact Hcount|]. split.
  { intros HL. rewrite Hc, HL. reflexivity. }
  intros HL.
  pose proof (scanDominant_fold counts "neutral" 0) as Hscan.
  cbv zeta in Hscan. unfold findDominant.
  destruct (fold_left scanDominant counts ("neutral", 0)) as [d m] eqn:Hres.
  simpl fst; simpl snd in Hscan.
  destruct Hscan as (Hmax & _ & Hcase).
  (* some category has a record, so the scan moved *)
  assert (Hpos : 0 < m).
  { destruct L as [|x L'] eqn:EL; [congruence|].
    assert (Hx : n x <> 0) by (unfold n; simpl; destruct (string_dec x x); [lia|congruence]).
    rewrite <- Hcount in Hx. apply entry_of_getCount in Hx.
    apply Hmax in Hx. rewrite Hcount in Hx.
    unfold n in Hx; simpl in Hx. destruct (string_dec x x); [lia|congruence]. }
  destruct Hcase as [[E0 _]|[_ (cpre & cpost & Hsplit & Hpre)]].
  { inversion E0; subst. lia. }
  assert (Hin : In (d, m) counts).
  { rewrite Hsplit. apply in_or_app. simpl; auto. }
  assert (Hd : n d = m).
  { rewrite <- Hcount. now apply getCount_of_entry. }
  split; [lia|]. split.
  { intros em. rewrite Hd. destruct (Nat.eq_dec (n em) 0) as [->|Hne]; [lia|].
    rewrite <- Hcount in Hne |- *. apply entry_of_getCount in Hne. eauto. }
  (* the first record of the dominant category *)
  assert (HdL : In d L).
  { apply (count_occ_In string_dec). fold (n d). lia. }
  destruct (split_at_first string_dec d L HdL) as (pre & post & HLsplit & Hnot).
  exists pre, post. split; [exact HLsplit|]. split; [exact Hnot|].
  intros em Hem. rewrite Hd.
  (* the keys of [counts] before [d] are the categories of [pre] *)
  assert (Hkeys : exists ext,
             map fst counts =
             map fst (fold_left (fun c em => incCount em c) pre []) ++ d :: ext).
  { rewrite Hc, HLsplit, fold_left_app. simpl.
    set (c0 := fold_left (fun c em => incCount em c) pre []).
    destruct (tally_keys_extend post (incCount d c0)) as (ext & -> & _).
    destruct (keys_incCount d c0) as (e1 & -> & _ & Habs).
    rewrite Habs.
    - exists ext. now rewrite <- app_assoc.
    - intros Hk. apply Hnot.
      destruct (tally_keys_extend pre []) as (ext0 & Hext0 & Hsub).
      fold c0 in Hext0. rewrite Hext0 in Hk. simpl in Hk. auto. }
  destruct Hkeys as (ext & Hkeys).
  assert (Hsame : map fst cpre
                  = map fst (fold_left (fun c em => incCount em c) pre [])).
  { apply (NoDup_split_unique d) with (b := map fst cpost) (b' := ext).
    - rewrite Hsplit in Hnd. now rewrite map_app in Hnd.
    - rewrite <- Hkeys, Hsplit, map_app. reflexivity. }
  assert (Hempre : In em (map fst cpre)).
  { rewrite Hsame. now apply tally_keys_cover. }
  apply in_map_iff in Hempre as ([k c] & Hk & Hkc). simpl in Hk; subst k.
  assert (Hc' : n em = c).
  { rewrite <- Hcount. apply getCount_of_entry; [exact Hnd|].
    rewrite Hsplit. apply in_or_app. now left. }
  rewrite Hc'. eauto.
Qed.

End Dominant.

(** *** The day navigator *)

Lemma Set_add_In x y s : In x (Set_add y s) <-> x = y \/ In x s.
Proof.
  unfold Set_add. destruct (existsb (String.eqb y) s) eqn:E.
  - split; [tauto|]. intros [->|H]; [|exact H].
    apply existsb_exists in E as (z & Hz & Ez).
    apply String.eqb_eq in Ez. now subst.
  - rewrite in_app_iff. simpl. intuition.
Qed.

Lemma Set_add_NoDup y s : NoDup s -> NoDup (Set_add y s).
Proof.
  intros H. unfold Set_add. destruct (existsb (String.eqb y) s) eqn:E.
  - exact H.
  - apply NoDup_app; [exact H|repeat constructor; simpl; tauto|].
    intros x Hx [E'|[]]. subst x.
    assert (existsb (String.eqb y) s = true); [|congruence].
    apply existsb_exists. exists y. split; [exact Hx|apply String.eqb_refl].
Qed.

Lemma insertSorted_In x y l : In x (insertSorted y l) <-> x = y \/ In x l.
Proof.
  induction l as [|z l IH]; simpl; [intuition|].
  destruct (y <=? z); simpl; rewrite ?IH; intuition.
Qed.

Lemma insertSorted_NoDup y l :
  NoDup l -> ~ In y l -> NoDup (insertSorted y l).
Proof.
  induction l as [|z l IH]; simpl; intros Hnd Hnot.
  - repeat constructor. simpl; tauto.
  - destruct (y <=? z).
    + constructor; [simpl; tauto|exact Hnd].
    + inversion Hnd; subst. constructor.
      * rewrite insertSorted_In. intuition.
      * apply IH; tauto.
Qed.

Lemma Array_sort_In x l : In x (Array_sort l) <-> In x l.
Proof.
  unfold Array_sort. induction l as [|y l IH]; simpl; [tauto|].
  rewrite insertSorted_In, IH. intuition.
Qed.

Lemma Array_sort_NoDup l : NoDup l -> NoDup (Array_sort l).
Proof.
  unfold Array_sort. induction 1 as [|y l Hnot Hnd IH]; simpl; [constructor|].
  apply insertSorted_NoDup; [exact IH|].
  change (fold_right insertSorted [] l) with (Array_sort l).
  now rewrite Array_sort_In.
Qed.

Lemma insertSorted_ascending y l :
  Sorted (fun a b => (a <=? b) = true) l ->
  Sorted (fun a b => (a <=? b) = true) (insertSorted y l).
Proof.
  induction l as [|z l IH]; simpl; intros Hs.
  - repeat constructor.
  - destruct (y <=? z) eqn:E.
    + constructor; [exact Hs|constructor; exact E].
    + apply Sorted_inv in Hs as [Hs Hhd].
      constructor; [now apply IH|].
      destruct l as [|w l]; simpl.
      * constructor. destruct (String.leb_total y z); congruence.
      * destruct (y <=? w).
        { constructor. destruct (String.leb_total y z); congruence. }
        { constructor. now apply HdRel_inv in Hhd. }
Qed.

Lemma Array_sort_ascending l :
  Sorted (fun a b => (a <=? b) = true) (Array_sort l).
Proof.
  unfold Array_sort. induction l as [|y l IH]; simpl; [constructor|].
  now apply insertSorted_ascending.
Qed.

Lemma Sorted_snoc {A} (R : A -> A -> Prop) (l : list A) (x : A) :
  Sorted R l ->
  (forall z, last l x = z -> l <> [] -> R z x) ->
  Sorted R (l ++ [x]).
Proof.
  induction l as [|y l IH]; simpl; intros Hs Hlast.
  - repeat constructor.
  - apply Sorted_inv in Hs as [Hs Hhd]. constructor.
    + apply IH; [exact Hs|]. intros z Hz Hne. apply Hlast; [|discriminate].
      destruct l; [contradiction|exact Hz].
    + destruct l as [|w l]; simpl.
      * constructor. apply Hlast; [reflexivity|discriminate].
      * constructor. now apply HdRel_inv in Hhd.
Qed.

Lemma Sorted_rev_flip {A} (R : A -> A -> Prop) (l : list A) :
  Sorted R l -> Sorted (fun a b => R b a) (rev l).
Proof.
  induction l as [|y l IH]; simpl; intros Hs; [constructor|].
  apply Sorted_inv in Hs as [Hs Hhd].
  apply Sorted_snoc; [now apply IH|].
  intros z Hz Hne. destruct l as [|w l]; [contradiction|].
  apply HdRel_inv in Hhd. simpl in Hz.
  rewrite last_last in Hz. now subst.
Qed.

Section Navigator.
Context {rt : Runtime}.

Lemma addAlertDay_fold xs :
  forall s k,
    In k (fold_left addAlertDay xs s) <->
    In k s \/
    exists a, In a xs /\ truthy (Alert.timestamp a) = true /\
              formatDateKey (Date_parse (Alert.timestamp a)) = k.
Proof.
  induction xs as [|x xs IH]; intros s k; simpl.
  - split; [tauto|]. intros [H|(a & [] & _)]; exact H.
  - rewrite IH. unfold addAlertDay.
    destruct (truthy (Alert.timestamp x)) eqn:E.
    + rewrite Set_add_In. split.
      * intros [[->|H]|(a & Ha & Hk)]; eauto 6.
      * intros [H|(a & [->|Ha] & Ht & Hk)]; eauto 6.
    + split.
      * intros [H|(a & Ha & Hk)]; eauto 6.
      * intros [H|(a & [->|Ha] & Ht & Hk)]; eauto 6. congruence.
Qed.

Lemma addEmotionDay_fold xs :
  forall s k,
    In k (fold_left addEmotionDay xs s) <->
    In k s \/
    exists e, In e xs /\ truthy (Emotion.timestamp e) = true /\
              formatDateKey (Date_parse (Emotion.timestamp e)) = k.
Proof.
  induction xs as [|x xs IH]; intros s k; simpl.
  - split; [tauto|]. intros [H|(a & [] & _)]; exact H.
  - rewrite IH. unfold addEmotionDay.
    destruct (truthy (Emotion.timestamp x)) eqn:E.
    + rewrite Set_add_In. split.
      * intros [[->|H]|(a & Ha & Hk)]; eauto 6.
      * intros [H|(a & [->|Ha] & Ht & Hk)]; eauto 6.
    + split.
      * intros [H|(a & Ha & Hk)]; eauto 6.
      * intros [H|(a & [->|Ha] & Ht & Hk)]; eauto 6. congruence.
Qed.

Lemma addAlertDay_NoDup xs :
  forall s, NoDup s -> NoDup (fold_left addAlertDay xs s).
Proof.
  induction xs as [|x xs IH]; intros s H; simpl; [exact H|].
  apply IH. unfold addAlertDay.
  destruct (truthy (Alert.timestamp x)); [now apply Set_add_NoDup|exact H].
Qed.

Lemma addEmotionDay_NoDup xs :
  forall s, NoDup s -> NoDup (fold_left addEmotionDay xs s).
Proof.
  induction xs as [|x xs IH]; intros s H; simpl; [exact H|].
  apply IH. unfold addEmotionDay.
  destruct (truthy (Emotion.timestamp x)); [now apply Set_add_NoDup|exact H].
Qed.

(** What [getAvailableDays] returns: the keys of the records that have a
    timestamp, each once, in descending order of the strings, with today's
    key in front when no record has it. *)
Lemma getAvailableDays_shape now alerts emotions :
  exists days,
    getAvailableDays now alerts emotions =
      (if Array_includes (formatDateKey (ValidDate now)) days
       then days else formatDateKey (ValidDate now) :: days) /\
    NoDup days /\
    Sorted (fun a b => (b <=? a) = true) days /\
    forall k,
      In k days <->
      (exists a, In a (Object_values alerts) /\
                 truthy (Alert.timestamp a) = true /\
                 formatDateKey (Date_parse (Alert.timestamp a)) = k) \/
      (exists e, In e (Object_values emotions) /\
                 truthy (Emotion.timestamp e) = true /\
                 formatDateKey (Date_parse (Emotion.timestamp e)) = k).
Proof.
  set (daySet := fold_left addEmotionDay (Object_values emotions)
                   (fold_left addAlertDay (Object_values alerts) [])).
  exists (rev (Array_sort daySet)). split.
  { unfold getAvailableDays. fold daySet.
    now destruct (Array_includes _ (rev (Array_sort daySet))). }
  split.
  { apply NoDup_rev, Array_sort_NoDup.
    apply addEmotionDay_NoDup, addAlertDay_NoDup. constructor. }
  split.
  { apply (Sorted_rev_flip (fun a b => (a <=? b) = true)).
    apply Array_sort_ascending. }
  intros k. rewrite <- in_rev, Array_sort_In. unfold daySet.
  rewrite addEmotionDay_fold, addAlertDay_fold. simpl. tauto.
Qed.

Lemma getAvailableDays_has_today now alerts emotions :
  In (formatDateKey (ValidDate now)) (getAvailableDays now alerts emotions).
Proof.
  destruct (getAvailableDays_shape now alerts emotions) as (days & -> & _).
  destruct (Array_includes _ days) eqn:E; [|now left].
  unfold Array_includes in E. apply existsb_exists in E as (x & Hx & Ex).
  apply String.eqb_eq in Ex. now subst.
Qed.

Lemma getAvailableDays_nonempty now alerts emotions :
  getAvailableDays now alerts emotions <> [].
Proof.
  intros E. pose proof (getAvailableDays_has_today now alerts emotions) as H.
  now rewrite E in H.
Qed.

Lemma getAvailableDays_NoDup now alerts emotions :
  NoDup (getAvailableDays now alerts emotions).
Proof.
  destruct (getAvailableDays_shape now alerts emotions)
    as (days & -> & Hnd & _).
  destruct (Array_includes _ days) eqn:E; [exact Hnd|].
  constructor; [|exact Hnd]. intros Hin.
  assert (Array_includes (formatDateKey (ValidDate now)) days = true);
    [|congruence].
  apply existsb_exists. eexists; split; [exact Hin|apply String.eqb_refl].
Qed.

End Navigator.

(** The two arrows never take the selected index out of the list, and at
    either end they leave it where it is. *)
Lemma press_in_range (availableDays : list string) (p : Press) (idx : nat) :
  idx < List.length availableDays ->
  press availableDays p idx < List.length availableDays.
Proof.
  intros H. destruct p; simpl.
  - unfold pressPrev, canGoPrev.
    destruct (Z.ltb_spec (Z.of_nat idx)
                         (Z.of_nat (List.length availableDays) - 1)); lia.
  - unfold pressNext, canGoNext. destruct (0 <? idx)%nat; lia.
Qed.

Lemma press_at_ends (availableDays : list string) :
  pressNext 0 = 0 /\
  pressPrev availableDays (List.length availableDays - 1)
  = List.length availableDays - 1.
Proof.
  split; [reflexivity|]. unfold pressPrev, canGoPrev.
  destruct (Z.ltb_spec (Z.of_nat (List.length availableDays - 1))
                       (Z.of_nat (List.length availableDays) - 1)); lia.
Qed.

Lemma presses_in_range (availableDays : list string) (ps : list Press) :
  forall idx,
    idx < List.length availableDays ->
    fold_left (fun i p => press availableDays p i) ps idx
    < List.length availableDays.
Proof.
  induction ps as [|p ps IH]; intros idx H; simpl; [exact H|].
  apply IH. now apply press_in_range.
Qed.

(** C7 at an alert stamped on the day after the viewer's today, when no
    record is of today: today's key is put in front of the later day, so
    the list is not newest first.  And at an alert whose timestamp cannot
    be parsed: the key "NaN-NaN-NaN", which is no calendar date, is listed
    and sorts before every date. *)
Theorem getAvailableDays_today_before_later_day :
  @getAvailableDays Scenarios.runtime Scenarios.may2_1200
                    Scenarios.tomorrowAlert []
  = ["2024-05-02"; "2024-05-03"] /\
  ("2024-05-02" <? "2024-05-03") = true /\
  @getAvailableDays Scenarios.runtime Scenarios.may2_1200
                    Scenarios.unparsableAlert []
  = ["NaN-NaN-NaN"; "2024-05-02"].
Proof. vm_compute. repeat split. Qed.

End StatsFacts.

(* ================================================================== *)
(** * Properties of the realtime mirror *)

Module MirrorFacts.

Import Stats Mirror.
Unset Implicit Arguments.

Lemma alerts_handleAll getLatest evs :
  forall s,
    Alerts.alerts (Alerts.handleAll getLatest evs s)
    = lastSnapshot evs (Alerts.alerts s).
Proof.
  unfold Alerts.handleAll.
  induction evs as [|[val|err] evs IH]; intros s; simpl; [reflexivity| |];
    rewrite IH; reflexivity.
Qed.

Lemma emotions_handleAll getLatest evs :
  forall s,
    Emotions.emotions (Emotions.handleAll getLatest evs s)
    = lastSnapshot evs (Emotions.emotions s).
Proof.
  unfold Emotions.handleAll.
  induction evs as [|[val|err] evs IH]; intros s; simpl; [reflexivity| |];
    rewrite IH; reflexivity.
Qed.

(** C9.  An error of the channel leaves the held mapping and the latest
    record of either hook as they were and records the error's message
    (and ends loading); so after any sequence of snapshots and errors each
    hook holds the mapping of the last snapshot, whatever errors came
    after it. *)
Theorem error_keeps_last_mapping :
  (forall getLatest (s : Alerts.State) (err : Error),
      let s' := Alerts.handle getLatest (Cancelled err) s in
      Alerts.alerts s' = Alerts.alerts s /\
      Alerts.latestAlert s' = Alerts.latestAlert s /\
      Alerts.error s' = Some (message err) /\
      Alerts.loading s' = false) /\
  (forall getLatest (s : Emotions.State) (err : Error),
      let s' := Emotions.handle getLatest (Cancelled err) s in
      Emotions.emotions s' = Emotions.emotions s /\
      Emotions.latestEmotion s' = Emotions.latestEmotion s /\
      Emotions.error s' = Some (message err) /\
      Emotions.loading s' = false) /\
  (forall getLatest evs (s : Alerts.State),
      Alerts.alerts (Alerts.handleAll getLatest evs s)
      = lastSnapshot evs (Alerts.alerts s)) /\
  (forall getLatest evs (s : Emotions.State),
      Emotions.emotions (Emotions.handleAll getLatest evs s)
      = lastSnapshot evs (Emotions.emotions s)).
Proof.
  split; [intros; repeat split|].
  split; [intros; repeat split|].
  split; [apply alerts_handleAll | apply emotions_handleAll].
Qed.

(** A snapshot, then an error: the alerts of the snapshot are still held,
    next to the message. *)
Example stale_but_available :
  let s := Alerts.handleAll (fun _ => None)
             [Snapshot (Some Scenarios.scenarioB);
              Cancelled {| message := "permission_denied" |}]
             Alerts.initial in
  Alerts.alerts s = Scenarios.scenarioB /\
  Alerts.error s = Some "permission_denied"%string.
Proof. split; reflexivity. Qed.

End MirrorFacts.

(* ================================================================== *)
(** * More on the alarm hook *)

Module AlarmMore.

Import Alarm Episode Avatar AlarmFacts.
Unset Implicit Arguments.

Lemma run_cons cfg e es s :
  run cfg (e :: es) s =
  (fst (run cfg es (fst (step cfg e s))),
   snd (step cfg e s) ++ snd (run cfg es (fst (step cfg e s)))).
Proof.
  simpl. destruct (step cfg e s) as [s1 o1]. simpl.
  destruct (run cfg es s1) as [s2 o2]. reflexivity.
Qed.

(** Every property of states that each event keeps holds after a run. *)
Lemma run_invariant cfg (P : State -> Prop) (ok : Event -> Prop) :
  (forall e s, ok e -> P s -> P (fst (step cfg e s))) ->
  forall es s, Forall ok es -> P s -> P (fst (run cfg es s)).
Proof.
  intros Hstep es. induction es as [|e es IH]; intros s Hok Hs; [exact Hs|].
  inversion Hok; subst. rewrite run_cons. simpl. apply IH; auto.
Qed.

Lemma Forall_True {A} (l : list A) : Forall (fun _ => True) l.
Proof. induction l; constructor; auto. Qed.

Lemma tickSeconds_nonneg cfg :
  0 <= pollingInterval cfg -> 0 <= tickSeconds cfg.
Proof.
  intros H. unfold tickSeconds. apply Qle_shift_div_l; [reflexivity|].
  now rewrite Qmult_0_l.
Qed.

Lemma run_ticks_keep_alarm cfg es s :
  Forall (fun e => isTick e = true) es ->
  showAlarm s = true ->
  showAlarm (fst (run cfg es s)) = true.
Proof.
  intros Hticks Hs.
  apply (run_invariant cfg (fun s => showAlarm s = true)
                       (fun e => isTick e = true)); auto.
  intros e s0 He H0. destruct e as [d ear| |]; try discriminate.
  simpl. unfold checkDrowsiness.
  destruct (eyesClosed d ear); [|exact H0].
  destruct (reached cfg _ && negb (alarmTriggeredRef s0)); [reflexivity|].
  destruct (reached cfg _); exact H0.
Qed.

(** X1.  No reading turns the alarm off: once [showAlarm] is true it stays
    true through every run of ticks, open or closed; only [dismissAlarm]
    and [resetAlarm] set it to false. *)
Theorem ticks_never_hide_alarm (cfg : Config) (es : list Event) (s : State) :
  Forall (fun e => isTick e = true) es ->
  showAlarm s = true ->
  showAlarm (fst (run cfg es s)) = true.
Proof. apply run_ticks_keep_alarm. Qed.

Lemma ticks_never_hide_alarm_witness :
  showAlarm (fst (run defaultConfig
                      (scenarioA ++ [openReading; closedReading; openReading])
                      initial)) = true.
Proof.
  rewrite run_app.
  apply (ticks_never_hide_alarm defaultConfig
           [openReading; closedReading; openReading]).
  - repeat constructor.
  - reflexivity.
Defined.

(** X2.  In every state the hook can reach from its initial state, by
    ticks, dismissals and resets in any order, a raised triggered flag
    comes with a visible alarm. *)
Theorem triggered_implies_shown (cfg : Config) (es : list Event) :
  alarmTriggeredRef (fst (run cfg es initial)) = true ->
  showAlarm (fst (run cfg es initial)) = true.
Proof.
  apply (run_invariant cfg
           (fun s => alarmTriggeredRef s = true -> showAlarm s = true)
           (fun _ => True)); [|apply Forall_True|discriminate].
  intros e s _ Hs. destruct e as [d ear| |]; simpl; try discriminate.
  unfold checkDrowsiness.
  destruct (eyesClosed d ear); [|simpl; discriminate].
  destruct (reached cfg _ && negb (alarmTriggeredRef s)); [reflexivity|].
  destruct (reached cfg _); exact Hs.
Qed.

Lemma triggered_implies_shown_witness :
  showAlarm (fst (run defaultConfig scenarioA initial)) = true.
Proof. apply triggered_implies_shown. reflexivity. Defined.

(** What each event keeps of the published duration. *)
Lemma step_keeps_reached_duration cfg e s :
  isReset e = false ->
  reached cfg (eyesClosedDuration s) = true ->
  reached cfg (eyesClosedDuration (fst (step cfg e s))) = true.
Proof.
  intros He Hs. destruct e as [d ear| |]; simpl; try discriminate; auto.
  unfold checkDrowsiness.
  destruct (eyesClosed d ear); [|exact Hs].
  destruct (reached cfg (Qfloor _)) eqn:R; simpl; [|exact Hs].
  destruct (negb (alarmTriggeredRef s)); simpl; exact R.
Qed.

Lemma step_duration_zero_or_reached cfg e s :
  eyesClosedDuration s = 0%Z \/ reached cfg (eyesClosedDuration s) = true ->
  eyesClosedDuration (fst (step cfg e s)) = 0%Z \/
  reached cfg (eyesClosedDuration (fst (step cfg e s))) = true.
Proof.
  intros Hs. destruct e as [d ear| |]; simpl; auto.
  unfold checkDrowsiness.
  destruct (eyesClosed d ear); [|exact Hs].
  destruct (reached cfg (Qfloor _)) eqn:R; simpl; [|exact Hs].
  destruct (negb (alarmTriggeredRef s)); simpl; right; exact R.
Qed.

(** X3.  The published [eyesClosedDuration] is never strictly between 0
    and the threshold: in every reachable state it is 0 or has reached
    [thresholdSeconds]; and once it has, it stays so through all ticks and
    dismissals: only [resetAlarm] brings it back to 0. *)
Theorem duration_zero_or_at_threshold (cfg : Config) :
  (forall es,
      eyesClosedDuration (fst (run cfg es initial)) = 0%Z \/
      reached cfg (eyesClosedDuration (fst (run cfg es initial))) = true) /\
  (forall es s,
      existsb isReset es = false ->
      reached cfg (eyesClosedDuration s) = true ->
      reached cfg (eyesClosedDuration (fst (run cfg es s))) = true).
Proof.
  split.
  - intros es.
    apply (run_invariant cfg
             (fun s => eyesClosedDuration s = 0%Z \/
                       reached cfg (eyesClosedDuration s) = true)
             (fun _ => True)); [|apply Forall_True|now left].
    intros e s _. apply step_duration_zero_or_reached.
  - intros es s Hno Hs.
    apply (run_invariant cfg
             (fun s => reached cfg (eyesClosedDuration s) = true)
             (fun e => isReset e = false)); auto.
    + intros e s0. apply step_keeps_reached_duration.
    + apply Forall_forall. intros e He.
      destruct (isReset e) eqn:E; [|reflexivity].
      assert (existsb isReset es = true); [|congruence].
      apply existsb_exists. eauto.
Qed.

Lemma duration_zero_or_at_threshold_witness :
  reached defaultConfig
    (eyesClosedDuration
       (fst (run defaultConfig
                 [openReading; Dismiss; closedReading; openReading]
                 (fst (run defaultConfig scenarioA initial))))) = true.
Proof.
  apply (proj2 (duration_zero_or_at_threshold defaultConfig)); reflexivity.
Defined.

(** While the triggered flag is up the published duration follows the
    accumulator. *)
Lemma step_keeps_live_duration cfg e s :
  0 <= pollingInterval cfg ->
  (alarmTriggeredRef s = true ->
   eyesClosedDuration s = Qfloor (eyesClosedCounterRef s) /\
   reached cfg (Qfloor (eyesClosedCounterRef s)) = true) ->
  alarmTriggeredRef (fst (step cfg e s)) = true ->
  eyesClosedDuration (fst (step cfg e s))
    = Qfloor (eyesClosedCounterRef (fst (step cfg e s))) /\
  reached cfg (Qfloor (eyesClosedCounterRef (fst (step cfg e s)))) = true.
Proof.
  intros Hpos Hs. destruct e as [d ear| |]; simpl; try discriminate.
  unfold checkDrowsiness.
  destruct (eyesClosed d ear); [|simpl; discriminate].
  destruct (alarmTriggeredRef s) eqn:Ht.
  - destruct (Hs eq_refl) as [Hd Hr].
    assert (Hr' : reached cfg
               (Qfloor (eyesClosedCounterRef s + tickSeconds cfg)) = true).
    { apply reached_mono with (a := Qfloor (eyesClosedCounterRef s)); auto.
      apply Qfloor_resp_le. pose proof (tickSeconds_nonneg cfg Hpos). lra. }
    rewrite Hr'. simpl. auto.
  - destruct (reached cfg
                (Qfloor (eyesClosedCounterRef s + tickSeconds cfg))) eqn:R;
      simpl; [auto|discriminate].
Qed.

Lemma run_keeps_live_duration cfg es s :
  0 <= pollingInterval cfg ->
  (alarmTriggeredRef s = true ->
   eyesClosedDuration s = Qfloor (eyesClosedCounterRef s) /\
   reached cfg (Qfloor (eyesClosedCounterRef s)) = true) ->
  alarmTriggeredRef (fst (run cfg es s)) = true ->
  eyesClosedDuration (fst (run cfg es s))
    = Qfloor (eyesClosedCounterRef (fst (run cfg es s))) /\
  reached cfg (Qfloor (eyesClosedCounterRef (fst (run cfg es s)))) = true.
Proof.
  intros Hpos Hs.
  apply (run_invariant cfg
           (fun s => alarmTriggeredRef s = true ->
                     eyesClosedDuration s = Qfloor (eyesClosedCounterRef s) /\
                     reached cfg (Qfloor (eyesClosedCounterRef s)) = true)
           (fun _ => True)); [|apply Forall_True|exact Hs].
  intros e s0 _ Hs0. now apply step_keeps_live_duration.
Qed.

(** X4.  With a tick period that is not negative, whenever the triggered
    flag is up in a reachable state, the published [eyesClosedDuration] is
    the floor of the accumulator, and that floor has reached the threshold:
    during a triggered episode the displayed duration is up to date. *)
Theorem triggered_duration_is_live (cfg : Config) (es : list Event) :
  0 <= pollingInterval cfg ->
  alarmTriggeredRef (fst (run cfg es initial)) = true ->
  eyesClosedDuration (fst (run cfg es initial))
    = Qfloor (eyesClosedCounterRef (fst (run cfg es initial))) /\
  reached cfg (Qfloor (eyesClosedCounterRef (fst (run cfg es initial)))) = true.
Proof.
  intros Hpos. apply run_keeps_live_duration; [exact Hpos|discriminate].
Qed.

Lemma triggered_duration_is_live_witness :
  eyesClosedDuration
    (fst (run defaultConfig (scenarioA ++ [closedReading; closedReading])
              initial)) = 6%Z.
Proof.
  assert (Hpos : 0 <= pollingInterval defaultConfig) by discriminate.
  destruct (triggered_duration_is_live defaultConfig
              (scenarioA ++ [closedReading; closedReading]) Hpos eq_refl)
    as [Hd _].
  rewrite Hd. reflexivity.
Defined.

(** Closed-eye ticks after the trigger log nothing. *)
Lemma closed_run_after_trigger cfg es :
  forall s,
    Forall (fun e => closedTick e = true) es ->
    alarmTriggeredRef s = true ->
    snd (run cfg es s) = [] /\ alarmTriggeredRef (fst (run cfg es s)) = true.
Proof.
  induction es as [|e es IH]; intros s Hall Ht; [auto|].
  inversion Hall as [|? ? He Hrest]; subst.
  destruct (closedTick_inv e He) as (d & ear & -> & Hcl).
  rewrite run_cons. simpl step. unfold checkDrowsiness. rewrite Hcl, Ht.
  rewrite andb_false_r.
  destruct (reached cfg _); simpl; apply IH; auto.
Qed.

(** X5.  An uninterrupted run of closed-eye ticks, from any state and of
    any length, logs at most one trigger, and none when the triggered flag
    was already up: the alarm fires once per continuous episode. *)
Theorem closed_run_fires_at_most_once
        (cfg : Config) (es : list Event) (s : State) :
  Forall (fun e => closedTick e = true) es ->
  (List.length (snd (run cfg es s)) <= 1)%nat /\
  (alarmTriggeredRef s = true -> snd (run cfg es s) = []).
Proof.
  intros Hall. split.
  - revert s Hall. induction es as [|e es IH]; intros s Hall; [simpl; lia|].
    inversion Hall as [|? ? He Hrest]; subst.
    destruct (closedTick_inv e He) as (d & ear & -> & Hcl).
    rewrite run_cons. simpl step. unfold checkDrowsiness. rewrite Hcl.
    destruct (reached cfg _ && negb (alarmTriggeredRef s)) eqn:E.
    + cbn [fst snd].
      destruct (closed_run_after_trigger cfg es
                  {| showAlarm := true;
                     eyesClosedDuration :=
                       Qfloor (eyesClosedCounterRef s + tickSeconds cfg);
                     eyesClosedCounterRef :=
                       eyesClosedCounterRef s + tickSeconds cfg;
                     alarmTriggeredRef := true |} Hrest eq_refl) as [-> _].
      simpl. lia.
    + destruct (reached cfg _); cbn [fst snd app]; apply IH; auto.
  - intros Ht. now apply closed_run_after_trigger.
Qed.

Lemma closed_run_fires_at_most_once_witness :
  (List.length
     (snd (run defaultConfig (scenarioA ++ scenarioA ++ scenarioA) initial))
   <= 1)%nat.
Proof.
  apply closed_run_fires_at_most_once. repeat constructor.
Defined.

Lemma run_counter_streak cfg es :
  forall (s : State) (n : nat),
    eyesClosedCounterRef s == inject_Z (Z.of_nat n) * tickSeconds cfg ->
    eyesClosedCounterRef (fst (run cfg es s)) ==
    inject_Z (Z.of_nat (closedStreak es n)) * tickSeconds cfg.
Proof.
  induction es as [|e es IH]; intros s n Hs; [exact Hs|].
  rewrite run_cons. cbn [fst]. unfold closedStreak. simpl fold_left.
  apply IH. destruct e as [d ear| |]; simpl.
  - unfold checkDrowsiness. destruct (eyesClosed d ear).
    + assert (E : eyesClosedCounterRef s + tickSeconds cfg ==
                  inject_Z (Z.of_nat (S n)) * tickSeconds cfg).
      { rewrite Hs, Nat2Z.inj_succ. unfold Z.succ.
        rewrite inject_Z_plus. change (inject_Z 1) with 1. ring. }
      destruct (reached cfg _ && negb (alarmTriggeredRef s)); [exact E|].
      destruct (reached cfg _); exact E.
    + simpl. ring.
  - exact Hs.
  - ring.
Qed.

Lemma closedStreak_closed es :
  Forall (fun e => closedTick e = true) es ->
  forall n, closedStreak es n = (n + List.length es)%nat.
Proof.
  unfold closedStreak.
  induction 1 as [|e es He Hes IH]; intros n; simpl; [lia|].
  destruct (closedTick_inv e He) as (d & ear & -> & Hcl).
  simpl. rewrite Hcl, IH. lia.
Qed.

Lemma closed_are_ticks es :
  Forall (fun e => closedTick e = true) es ->
  Forall (fun e => isTick e = true) es.
Proof.
  intros H. eapply Forall_impl; [|exact H].
  intros e He. destruct e; simpl in *; congruence.
Qed.

(** The closed-eye tick number [firingTick] of an episode fires. *)
Lemma run_fires_at_firingTick cfg s0 es :
  0 < pollingInterval cfg ->
  eyesClosedCounterRef s0 == 0 ->
  alarmTriggeredRef s0 = false ->
  Forall (fun e => closedTick e = true) es ->
  Z.of_nat (List.length es) = firingTick cfg ->
  let d := Qfloor (inject_Z (firingTick cfg) * tickSeconds cfg) in
  snd (run cfg es s0) = [d] /\
  showAlarm (fst (run cfg es s0)) = true /\
  eyesClosedDuration (fst (run cfg es s0)) = d /\
  alarmTriggeredRef (fst (run cfg es s0)) = true /\
  eyesClosedCounterRef (fst (run cfg es s0)) ==
    inject_Z (firingTick cfg) * tickSeconds cfg.
Proof.
  intros Hpos Hzero Hdown Hall Hlen d.
  pose proof (firingTick_pos cfg) as Hn.
  destruct (@exists_last _ es) as (es' & e & Hes).
  { intros ->. simpl in Hlen. lia. }
  assert (Hlen' : Z.of_nat (List.length es') = (firingTick cfg - 1)%Z).
  { rewrite Hes, length_app in Hlen. simpl in Hlen. lia. }
  rewrite Hes in Hall. apply Forall_app in Hall as [Hall' He].
  inversion He as [|? ? He' _]; subst. clear He.
  destruct (run_before_firing cfg es' s0 Hpos Hzero Hall')
    as (Ho1 & Hs1 & Hd1 & Ht1 & Hq1); [lia|].
  rewrite Hdown in Ht1.
  destruct (closedTick_inv e He') as (dr & ear & -> & Hcl).
  set (s1 := fst (run cfg es' s0)) in *.
  assert (Hcount : eyesClosedCounterRef s1 + tickSeconds cfg ==
                   inject_Z (firingTick cfg) * tickSeconds cfg).
  { rewrite Hq1.
    replace (firingTick cfg) with (Z.of_nat (List.length es') + 1)%Z by lia.
    rewrite inject_Z_plus. change (inject_Z 1) with 1. ring. }
  assert (Hfloor : Qfloor (eyesClosedCounterRef s1 + tickSeconds cfg) = d).
  { unfold d. now rewrite Hcount. }
  assert (Hreach : reached cfg d = true)
    by (apply reached_at_firing; exact Hpos).
  rewrite run_app. fold s1. rewrite Ho1, run_single. simpl step.
  rewrite (check_closed_fire cfg dr ear s1 Hcl);
    [| rewrite Hfloor; exact Hreach | exact Ht1].
  cbn [fst snd app showAlarm eyesClosedDuration alarmTriggeredRef
       eyesClosedCounterRef].
  rewrite Hfloor. repeat split; auto.
Qed.

(** With the additions exact: from a state between two episodes, any
    number [n >= firingTick] of consecutive closed-eye ticks logs the one
    trigger of tick [firingTick] and nothing more, and leaves the alarm
    shown, the triggered flag up and the published duration at
    [floor (n * dt)]. *)
Lemma exact_long_episode
        (cfg : Config) (s0 : State) (es : list Event) :
  0 < pollingInterval cfg ->
  eyesClosedCounterRef s0 == 0 ->
  alarmTriggeredRef s0 = false ->
  Forall (fun e => closedTick e = true) es ->
  (firingTick cfg <= Z.of_nat (List.length es))%Z ->
  snd (run cfg es s0)
    = [Qfloor (inject_Z (firingTick cfg) * tickSeconds cfg)] /\
  showAlarm (fst (run cfg es s0)) = true /\
  alarmTriggeredRef (fst (run cfg es s0)) = true /\
  eyesClosedDuration (fst (run cfg es s0))
    = Qfloor (inject_Z (Z.of_nat (List.length es)) * tickSeconds cfg).
Proof.
  intros Hpos Hzero Hdown Hall Hlen.
  pose proof (firingTick_pos cfg) as Hn.
  set (N := Z.to_nat (firingTick cfg)).
  assert (HN : Z.of_nat N = firingTick cfg) by (unfold N; lia).
  rewrite <- (firstn_skipn N es) in Hall |- *.
  apply Forall_app in Hall as [Hall1 Hall2].
  assert (Hlen1 : Z.of_nat (List.length (firstn N es)) = firingTick cfg).
  { rewrite length_firstn. lia. }
  destruct (run_fires_at_firingTick cfg s0 (firstn N es)
              Hpos Hzero Hdown Hall1 Hlen1) as (Ho & Hs & Hd & Ht & Hq).
  set (s1 := fst (run cfg (firstn N es) s0)) in *.
  destruct (closed_run_after_trigger cfg (skipn N es) s1 Hall2 Ht)
    as (Ho2 & Ht2).
  rewrite run_app. fold s1. cbn [fst snd]. rewrite Ho, Ho2.
  split; [reflexivity|]. split.
  { apply run_ticks_keep_alarm; [now apply closed_are_ticks|exact Hs]. }
  split; [exact Ht2|].
  assert (Hlive : alarmTriggeredRef s1 = true ->
                  eyesClosedDuration s1 = Qfloor (eyesClosedCounterRef s1) /\
                  reached cfg (Qfloor (eyesClosedCounterRef s1)) = true).
  { intros _. rewrite Hd, Hq. split; [reflexivity|].
    apply reached_at_firing; exact Hpos. }
  destruct (run_keeps_live_duration cfg (skipn N es) s1
              (Qlt_le_weak _ _ Hpos) Hlive Ht2) as [Hdur _].
  rewrite Hdur.
  assert (Hq1 : eyesClosedCounterRef s1 == inject_Z (Z.of_nat N) * tickSeconds cfg)
    by (rewrite HN; exact Hq).
  rewrite (run_counter_streak cfg (skipn N es) s1 N Hq1).
  rewrite (closedStreak_closed _ Hall2).
  rewrite length_app, length_firstn, length_skipn.
  replace (N + (List.length es - N))%nat
    with (Nat.min N (List.length es) + (List.length es - N))%nat by lia.
  reflexivity.
Qed.

(** *** What the avatar makes of the published duration *)

(** X8.  After an episode whose published duration is 6 or more, the
    avatar of the detection screen shows [sleeping] at every later render,
    whatever the current reading says, through any ticks and dismissals
    that log no new trigger: the screen never calls [resetAlarm], and
    nothing else lowers the published duration. *)
Theorem avatar_stays_sleeping
        (cfg : Config) (es : list Event) (s : State) (is_drowsy : bool) :
  alarmTriggeredRef s = false ->
  existsb isReset es = false ->
  snd (run cfg es s) = [] ->
  (6 <= eyesClosedDuration s)%Z ->
  screenAvatar is_drowsy (fst (run cfg es s)) = sleeping.
Proof.
  intros Ht Hno Hlog H6. unfold screenAvatar, avatarState.
  rewrite (run_without_trigger cfg es s Ht Hno Hlog).
  apply Z.leb_le in H6. now rewrite H6.
Qed.

Lemma avatar_stays_sleeping_witness :
  let s := fst (run defaultConfig
                    (scenarioA ++ [closedReading; closedReading; openReading])
                    initial) in
  screenAvatar false
    (fst (run defaultConfig [openReading; Dismiss; openReading; closedReading]
              s)) = sleeping.
Proof.
  intros s. apply avatar_stays_sleeping; reflexivity || discriminate.
Defined.

(** X9.  With a threshold of 4 seconds or more, once the published
    duration has reached the threshold the avatar of a drowsy reading is
    [very_drowsy] or [sleeping], never plain [drowsy], for the rest of the
    session (any ticks and dismissals). *)
Theorem avatar_never_plain_drowsy_again
        (cfg : Config) (es : list Event) (s : State) :
  4 <= thresholdSeconds cfg ->
  existsb isReset es = false ->
  reached cfg (eyesClosedDuration s) = true ->
  screenAvatar true (fst (run cfg es s)) = very_drowsy \/
  screenAvatar true (fst (run cfg es s)) = sleeping.
Proof.
  intros H4 Hno Hs.
  assert (Hr : reached cfg (eyesClosedDuration (fst (run cfg es s))) = true).
  { apply (run_invariant cfg
             (fun s => reached cfg (eyesClosedDuration s) = true)
             (fun e => isReset e = false)); auto.
    - intros e s0. apply step_keeps_reached_duration.
    - apply Forall_forall. intros e He.
      destruct (isReset e) eqn:E; [|reflexivity].
      assert (existsb isReset es = true); [|congruence].
      apply existsb_exists. eauto. }
  apply reached_spec in Hr.
  assert (H : (4 <= eyesClosedDuration (fst (run cfg es s)))%Z).
  { rewrite Zle_Qle. eapply Qle_trans; [exact H4|exact Hr]. }
  unfold screenAvatar, avatarState.
  destruct (6 <=? _)%Z; [now right|].
  apply Z.leb_le in H. rewrite H. now left.
Qed.

Lemma avatar_never_plain_drowsy_again_witness :
  let s := fst (run defaultConfig scenarioA initial) in
  screenAvatar true (fst (run defaultConfig [openReading; Dismiss] s))
  = very_drowsy \/
  screenAvatar true (fst (run defaultConfig [openReading; Dismiss] s))
  = sleeping.
Proof.
  intros s. apply avatar_never_plain_drowsy_again;
    reflexivity || discriminate.
Defined.

(** *** The alarm modal *)

Lemma step_shown_is_reached cfg e s :
  (showAlarm s = true -> reached cfg (eyesClosedDuration s) = true) ->
  showAlarm (fst (step cfg e s)) = true ->
  reached cfg (eyesClosedDuration (fst (step cfg e s))) = true.
Proof.
  intros Hs. destruct e as [d ear| |]; simpl; try discriminate.
  unfold checkDrowsiness.
  destruct (eyesClosed d ear); [|exact Hs].
  destruct (reached cfg (Qfloor (eyesClosedCounterRef s + tickSeconds cfg)))
    eqn:R; simpl; [|exact Hs].
  destruct (negb (alarmTriggeredRef s)); simpl; intros _; exact R.
Qed.

Lemma run_shown_is_reached cfg es :
  showAlarm (fst (run cfg es initial)) = true ->
  reached cfg (eyesClosedDuration (fst (run cfg es initial))) = true.
Proof.
  apply (run_invariant cfg
           (fun s => showAlarm s = true ->
                     reached cfg (eyesClosedDuration s) = true)
           (fun _ => True)).
  - intros e s _. apply step_shown_is_reached.
  - apply Forall_True.
  - discriminate.
Qed.

(** X10.  Whenever the alarm modal is visible, in any state the hook
    reaches from its initial state, the duration it shows has reached the
    threshold; so with a threshold above 1 second (the screen uses 4) its
    text is always in the plural, [Eyes Closed for N seconds] with
    [N >= thresholdSeconds]. *)
Theorem modal_shows_reached_duration
        (cfg : Config) (es : list Event) (text : string) :
  1 < thresholdSeconds cfg ->
  Modal.screenModal (fst (run cfg es initial)) = Some text ->
  exists n : Z,
    n = eyesClosedDuration (fst (run cfg es initial)) /\
    thresholdSeconds cfg <= inject_Z n /\
    text = ("Eyes Closed for " ++ Stats.String_of_Z n ++ " seconds")%string.
Proof.
  intros Hthr. unfold Modal.screenModal.
  destruct (showAlarm (fst (run cfg es initial))) eqn:Hshow; [|discriminate].
  intros E; inversion E; subst text; clear E.
  pose proof (run_shown_is_reached cfg es Hshow) as R.
  apply reached_spec in R.
  exists (eyesClosedDuration (fst (run cfg es initial))).
  split; [reflexivity|]. split; [exact R|].
  unfold Modal.durationText.
  assert (H1 : (1 <? eyesClosedDuration (fst (run cfg es initial)))%Z = true).
  { apply Z.ltb_lt. rewrite Zlt_Qlt. eapply Qlt_le_trans; [|exact R].
    exact Hthr. }
  rewrite H1. reflexivity.
Qed.

Lemma modal_shows_reached_duration_witness :
  exists n : Z,
    n = 4%Z /\
    thresholdSeconds defaultConfig <= inject_Z n /\
    "Eyes Closed for 4 seconds"%string
    = ("Eyes Closed for " ++ Stats.String_of_Z n ++ " seconds")%string.
Proof.
  exact (modal_shows_reached_duration defaultConfig
           [Tick true (Fin (1 # 10)); Tick true (Fin (1 # 10));
            Tick true (Fin (1 # 10)); Tick true (Fin (1 # 10))]
           "Eyes Closed for 4 seconds"
           ltac:(reflexivity) ltac:(reflexivity)).
Defined.
End AlarmMore.

(* ================================================================== *)
(** * Properties of the alarm hook in binary64 *)

Module Alarm64Facts.

Import Alarm Episode Binary64 AlarmFacts AlarmMore.
Unset Implicit Arguments.

(** *** Rounding *)

Lemma round64_compat (x y : Q) : x == y -> round64 x = round64 y.
Proof.
  intros E. unfold round64.
  rewrite (Qcompare_comp x y E 0 0 (Qeq_refl 0)).
  rewrite (Qred_complete x y E).
  assert (E' : - x == - y) by (now rewrite E).
  now rewrite (Qred_complete (- x) (- y) E').
Qed.

Lemma representable_spec (x : Q) :
  representable x = true -> exists q, round64 x = Fin q /\ q == x.
Proof.
  unfold representable. destruct (round64 x) as [q| | |]; try discriminate.
  intros H. exists q. split; [reflexivity|]. now apply Qeq_bool_iff.
Qed.

(** The binary64 numbers nearest to 0.1 and to 0.1 + 0.2, the largest
    binary64 number and the first real that rounds to infinity. *)
Example round64_values :
  round64 (1 # 10) = Fin (3602879701896397 # 36028797018963968) /\
  js_add (round64 (1 # 10)) (round64 (2 # 10))
  = Fin (1351079888211149 # 4503599627370496) /\
  round64 (pow2 1024 - pow2 971) = Fin (Qred (pow2 1024 - pow2 971)) /\
  round64 (pow2 1024 - pow2 970) = PosInf /\
  round64 (pow2 (-1075)) = Fin 0 /\
  representable (1 # 10) = false /\
  representable (1 # 4) = true.
Proof. vm_compute. repeat split. Qed.

Lemma exactTicks_spec cfg (N : nat) :
  Alarm64.exactTicks cfg N = true ->
  forall j, (1 <= j <= N)%nat ->
    exists q, round64 (inject_Z (Z.of_nat j) * tickSeconds cfg) = Fin q /\
              q == inject_Z (Z.of_nat j) * tickSeconds cfg.
Proof.
  unfold Alarm64.exactTicks. rewrite forallb_forall. intros H j Hj.
  apply representable_spec, H, in_seq. lia.
Qed.

Lemma exact_tickSeconds cfg (N : nat) :
  Alarm64.exactTicks cfg N = true -> (1 <= N)%nat ->
  exists q, Alarm64.tickSeconds cfg = Fin q /\ q == tickSeconds cfg.
Proof.
  intros H HN. destruct (exactTicks_spec cfg N H 1%nat) as (q & Hq & E);
    [lia|].
  exists q. split.
  - unfold Alarm64.tickSeconds. rewrite <- Hq. apply round64_compat.
    unfold tickSeconds. change (inject_Z (Z.of_nat 1)) with 1. ring.
  - rewrite E. change (inject_Z (Z.of_nat 1)) with 1. ring.
Qed.

Lemma reached_whole cfg (d : Z) :
  Alarm64.reached cfg (Alarm64.whole d) = reached cfg d.
Proof. reflexivity. Qed.

(** *** One event *)

(** A closed-eye tick number [k + 1] of an episode whose sums are exact:
    the new accumulator is [(k + 1) * dt], and the hook branches on the
    floor of that. *)
Lemma closed_step64 cfg (N k : nat) (s : Alarm64.State) (c : Q) d ear :
  Alarm64.exactTicks cfg N = true ->
  (S k <= N)%nat ->
  Alarm64.eyesClosedCounterRef s = Fin c ->
  c == inject_Z (Z.of_nat k) * tickSeconds cfg ->
  eyesClosed d ear = true ->
  exists q,
    q == inject_Z (Z.of_nat (S k)) * tickSeconds cfg /\
    let dur := Qfloor (inject_Z (Z.of_nat (S k)) * tickSeconds cfg) in
    Alarm64.step cfg (Tick d ear) s =
    if reached cfg dur && negb (Alarm64.alarmTriggeredRef s) then
      ({| Alarm64.showAlarm := true;
          Alarm64.eyesClosedDuration := Alarm64.whole dur;
          Alarm64.eyesClosedCounterRef := Fin q;
          Alarm64.alarmTriggeredRef := true |}, [Alarm64.whole dur])
    else if reached cfg dur then
      ({| Alarm64.showAlarm := Alarm64.showAlarm s;
          Alarm64.eyesClosedDuration := Alarm64.whole dur;
          Alarm64.eyesClosedCounterRef := Fin q;
          Alarm64.alarmTriggeredRef := Alarm64.alarmTriggeredRef s |}, [])
    else
      ({| Alarm64.showAlarm := Alarm64.showAlarm s;
          Alarm64.eyesClosedDuration := Alarm64.eyesClosedDuration s;
          Alarm64.eyesClosedCounterRef := Fin q;
          Alarm64.alarmTriggeredRef := Alarm64.alarmTriggeredRef s |}, []).
Proof.
  intros Hex Hk Hc Hck Hcl.
  destruct (exact_tickSeconds cfg N Hex) as (q1 & Hq1 & E1); [lia|].
  destruct (exactTicks_spec cfg N Hex (S k)) as (q & Hq & E); [lia|].
  exists q. split; [exact E|]. cbv zeta.
  assert (Hsum : round64 (c + q1) = Fin q).
  { rewrite <- Hq. apply round64_compat. rewrite Hck, E1, Nat2Z.inj_succ.
    unfold Z.succ. rewrite inject_Z_plus. change (inject_Z 1) with 1. ring. }
  assert (Hfloor : Qfloor q
                   = Qfloor (inject_Z (Z.of_nat (S k)) * tickSeconds cfg))
    by (now rewrite E).
  simpl Alarm64.step. unfold Alarm64.checkDrowsiness.
  rewrite Hcl, Hc, Hq1. simpl js_add. rewrite Hsum. simpl js_floor.
  fold (Alarm64.whole (Qfloor q)). rewrite reached_whole, Hfloor.
  reflexivity.
Qed.

Lemma streakStep_bound (k : nat) (e : Event) : (streakStep k e <= S k)%nat.
Proof. destruct e as [d ear| |]; simpl; [destruct (eyesClosed d ear)| |]; lia. Qed.

(** An event does the same to the hook with and without rounding, as
    long as the sum is exact. *)
Lemma step_agree cfg (N k : nat) e (s : Alarm64.State) (s' : State) :
  Alarm64.exactTicks cfg N = true ->
  (S k <= N)%nat ->
  Alarm64.agree s s' ->
  eyesClosedCounterRef s' == inject_Z (Z.of_nat k) * tickSeconds cfg ->
  Alarm64.agree (fst (Alarm64.step cfg e s)) (fst (step cfg e s')) /\
  snd (Alarm64.step cfg e s) = map Alarm64.whole (snd (step cfg e s')) /\
  eyesClosedCounterRef (fst (step cfg e s'))
  == inject_Z (Z.of_nat (streakStep k e)) * tickSeconds cfg.
Proof.
  intros Hex Hk (Hshow & Htrig & c & Hc & Ecc) Hck.
  destruct e as [d ear| |].
  - destruct (eyesClosed d ear) eqn:Hcl.
    + assert (Hck' : c == inject_Z (Z.of_nat k) * tickSeconds cfg)
        by (now rewrite Ecc).
      destruct (closed_step64 cfg N k s c d ear Hex Hk Hc Hck' Hcl)
        as (q & Eq & Hstep).
      cbv zeta in Hstep. rewrite Hstep. clear Hstep.
      assert (Hnext : eyesClosedCounterRef s' + tickSeconds cfg
                      == inject_Z (Z.of_nat (S k)) * tickSeconds cfg).
      { rewrite Hck, Nat2Z.inj_succ. unfold Z.succ.
        rewrite inject_Z_plus. change (inject_Z 1) with 1. ring. }
      assert (Hfloor : Qfloor (eyesClosedCounterRef s' + tickSeconds cfg)
                       = Qfloor (inject_Z (Z.of_nat (S k)) * tickSeconds cfg))
        by (now rewrite Hnext).
      simpl step. unfold checkDrowsiness. simpl streakStep.
      rewrite Hcl, Hfloor, <- Htrig.
      assert (Hq : q == eyesClosedCounterRef s' + tickSeconds cfg)
        by (now rewrite Eq, Hnext).
      destruct (reached cfg _ && negb (Alarm64.alarmTriggeredRef s));
        [|destruct (reached cfg _)]; simpl;
        (split; [repeat split; auto; exists q; split; [reflexivity|exact Hq]|]);
        (split; [reflexivity|exact Hnext]).
    + simpl. unfold Alarm64.checkDrowsiness, checkDrowsiness. rewrite Hcl.
      simpl. split; [|split; [reflexivity|ring]].
      repeat split; auto. exists 0. split; reflexivity.
  - simpl. split; [|split; [reflexivity|exact Hck]].
    repeat split; auto. exists c. split; [exact Hc|exact Ecc].
  - simpl. split; [|split; [reflexivity|ring]].
    repeat split; auto. exists 0. split; reflexivity.
Qed.

(** *** Runs *)

Lemma run64_cons cfg e es s :
  Alarm64.run cfg (e :: es) s =
  (fst (Alarm64.run cfg es (fst (Alarm64.step cfg e s))),
   snd (Alarm64.step cfg e s)
   ++ snd (Alarm64.run cfg es (fst (Alarm64.step cfg e s)))).
Proof.
  simpl. destruct (Alarm64.step cfg e s) as [s1 o1]. simpl.
  destruct (Alarm64.run cfg es s1) as [s2 o2]. reflexivity.
Qed.

Lemma run64_app cfg es1 es2 s :
  Alarm64.run cfg (es1 ++ es2) s =
  (fst (Alarm64.run cfg es2 (fst (Alarm64.run cfg es1 s))),
   snd (Alarm64.run cfg es1 s)
   ++ snd (Alarm64.run cfg es2 (fst (Alarm64.run cfg es1 s)))).
Proof.
  revert s. induction es1 as [|e es1 IH]; intros s.
  - simpl. destruct (Alarm64.run cfg es2 s); reflexivity.
  - rewrite <- app_comm_cons, !run64_cons, IH. cbn [fst snd].
    now rewrite app_assoc.
Qed.

Lemma run64_single cfg e s : Alarm64.run cfg [e] s = Alarm64.step cfg e s.
Proof.
  simpl. destruct (Alarm64.step cfg e s). now rewrite app_nil_r.
Qed.

(** The hook with rounding does what the hook without rounding does, as
    long as every sum of the run is exact. *)
Lemma run_agree cfg (N : nat) (es : list Event) :
  Alarm64.exactTicks cfg N = true ->
  forall (k : nat) (s : Alarm64.State) (s' : State),
    (k + List.length es <= N)%nat ->
    Alarm64.agree s s' ->
    eyesClosedCounterRef s' == inject_Z (Z.of_nat k) * tickSeconds cfg ->
    Alarm64.agree (fst (Alarm64.run cfg es s)) (fst (run cfg es s')) /\
    snd (Alarm64.run cfg es s) = map Alarm64.whole (snd (run cfg es s')) /\
    eyesClosedCounterRef (fst (run cfg es s'))
    == inject_Z (Z.of_nat (closedStreak es k)) * tickSeconds cfg.
Proof.
  intros Hex. induction es as [|e es IH]; intros k s s' Hlen Hag Hck.
  - simpl. auto.
  - simpl List.length in Hlen.
    destruct (step_agree cfg N k e s s' Hex ltac:(lia) Hag Hck)
      as (Hag1 & Hlog1 & Hck1).
    pose proof (streakStep_bound k e) as Hb.
    destruct (IH (streakStep k e) _ _ ltac:(lia) Hag1 Hck1)
      as (Hag2 & Hlog2 & Hck2).
    rewrite run64_cons, run_cons. cbn [fst snd].
    split; [exact Hag2|]. split; [|exact Hck2].
    now rewrite Hlog1, Hlog2, map_app.
Qed.

Lemma agree_exactState (s : Alarm64.State) (c : Q) :
  Alarm64.eyesClosedCounterRef s = Fin c ->
  Alarm64.agree s (Alarm64.exactState s c).
Proof.
  intros Hc. repeat split. exists c. split; [exact Hc|reflexivity].
Qed.

Lemma exactTicks_le cfg (n m : nat) :
  (n <= m)%nat -> Alarm64.exactTicks cfg m = true ->
  Alarm64.exactTicks cfg n = true.
Proof.
  unfold Alarm64.exactTicks. rewrite !forallb_forall.
  intros Hnm H j Hj. apply H. apply in_seq. apply in_seq in Hj. lia.
Qed.

(** The published duration after the last of [n] closed-eye ticks whose
    floor has reached the threshold. *)
Lemma last_closed_tick64 cfg (es : list Event) (s0 : Alarm64.State) :
  Alarm64.exactTicks cfg (List.length es) = true ->
  Alarm64.eyesClosedCounterRef s0 = Fin 0 ->
  Forall (fun e => closedTick e = true) es ->
  es <> [] ->
  let dur := Qfloor (inject_Z (Z.of_nat (List.length es)) * tickSeconds cfg) in
  reached cfg dur = true ->
  Alarm64.eyesClosedDuration (fst (Alarm64.run cfg es s0))
  = Alarm64.whole dur.
Proof.
  intros Hex Hzero Hall Hne dur Hreach.
  destruct (exists_last Hne) as (es' & e & Hes).
  assert (Hlen : List.length es = S (List.length es')).
  { rewrite Hes, length_app. simpl. lia. }
  rewrite Hes in Hall. apply Forall_app in Hall as [Hall' He].
  apply Forall_cons_iff in He as [He' _].
  destruct (closedTick_inv e He') as (d & ear & -> & Hcl).
  destruct (run_agree cfg (List.length es) es' Hex 0%nat s0
              (Alarm64.exactState s0 0) ltac:(lia)
              (agree_exactState s0 0 Hzero))
    as ((_ & _ & c & Hc & Ec) & _ & Hck).
  { simpl. ring. }
  rewrite (closedStreak_closed _ Hall') in Hck. simpl in Hck.
  assert (Hc' : c == inject_Z (Z.of_nat (List.length es')) * tickSeconds cfg)
    by (now rewrite Ec).
  destruct (closed_step64 cfg (List.length es) (List.length es') _ c d ear
              Hex ltac:(lia) Hc Hc' Hcl) as (q & _ & Hstep).
  cbv zeta in Hstep.
  rewrite Hes at 1. rewrite run64_app, run64_single. cbn [fst].
  rewrite Hstep. unfold dur in Hreach. rewrite Hlen in Hreach.
  rewrite Hreach. unfold dur. rewrite Hlen.
  destruct (negb _); reflexivity.
Qed.

(** C1 (amended).  Take any state between two episodes (accumulator 0,
    triggered flag down), any threshold and any tick period above zero,
    and let [n] be [firingTick], that is [max 1 (ceil (ceil T / dt))].
    If the first [n] multiples of the tick period are binary64 numbers,
    so that the accumulator is added up without rounding, then [n]
    consecutive closed-eye ticks followed by one open-eye tick trigger
    the alarm exactly once, on the last closed tick and not before; the
    open tick resets the accumulator to 0 and clears the triggered flag,
    while the published [eyesClosedDuration] keeps the duration of the
    trigger and [showAlarm] stays true. *)
Theorem episode_fires_once_then_reopens
        (cfg : Config) (s0 : Alarm64.State) (es : list Event) (o : Event) :
  0 < pollingInterval cfg ->
  Alarm64.exactTicks cfg (List.length es) = true ->
  Alarm64.eyesClosedCounterRef s0 = Fin 0 ->
  Alarm64.alarmTriggeredRef s0 = false ->
  Forall (fun e => closedTick e = true) es ->
  Z.of_nat (List.length es) = firingTick cfg ->
  openTick o = true ->
  let d := Qfloor (inject_Z (firingTick cfg) * tickSeconds cfg) in
  (forall k, (k < List.length es)%nat ->
     snd (Alarm64.run cfg (firstn k es) s0) = [] /\
     Alarm64.showAlarm (fst (Alarm64.run cfg (firstn k es) s0))
     = Alarm64.showAlarm s0) /\
  snd (Alarm64.run cfg es s0) = [Alarm64.whole d] /\
  Alarm64.showAlarm (fst (Alarm64.run cfg es s0)) = true /\
  Alarm64.eyesClosedDuration (fst (Alarm64.run cfg es s0))
  = Alarm64.whole d /\
  thresholdSeconds cfg <= inject_Z d /\
  snd (Alarm64.run cfg (es ++ [o]) s0) = [Alarm64.whole d] /\
  fst (Alarm64.run cfg (es ++ [o]) s0) =
    {| Alarm64.showAlarm := true;
       Alarm64.eyesClosedDuration := Alarm64.whole d;
       Alarm64.eyesClosedCounterRef := Fin 0;
       Alarm64.alarmTriggeredRef := false |}.
Proof.
  intros Hpos Hex Hzero Hdown Hall Hlen Hopen d.
  set (s0' := Alarm64.exactState s0 0).
  assert (Hag : Alarm64.agree s0 s0') by (now apply agree_exactState).
  assert (Hz : eyesClosedCounterRef s0' == inject_Z (Z.of_nat 0)
                                          * tickSeconds cfg)
    by (simpl; ring).
  assert (Hz' : eyesClosedCounterRef s0' == 0) by reflexivity.
  assert (Hd' : alarmTriggeredRef s0' = false) by exact Hdown.
  destruct (exact_episode_fires_once_then_reopens cfg s0' es o
              Hpos Hz' Hd' Hall Hlen Hopen)
    as (Hquiet & Hlog & Hshow & _ & Hthr & Hlog2 & Hfinal).
  fold d in Hlog, Hthr, Hlog2, Hfinal.
  assert (Hne : es <> []).
  { intros ->. pose proof (firingTick_pos cfg). simpl in Hlen. lia. }
  assert (Hreach : reached cfg d = true) by (now apply reached_spec).
  assert (Hdur : Alarm64.eyesClosedDuration (fst (Alarm64.run cfg es s0))
                 = Alarm64.whole d).
  { unfold d. rewrite <- Hlen.
    apply last_closed_tick64; auto. rewrite Hlen. exact Hreach. }
  destruct (run_agree cfg (List.length es) es Hex 0%nat s0 s0'
              ltac:(lia) Hag Hz) as ((Hs1 & _) & Hl1 & _).
  split.
  { intros k Hk. destruct (Hquiet k Hk) as [Hq1 Hq2].
    destruct (run_agree cfg (List.length es) (firstn k es) Hex 0%nat s0 s0')
      as ((Hsk & _) & Hlk & _); auto.
    { rewrite length_firstn. lia. }
    rewrite Hlk, Hq1, Hsk, Hq2. split; reflexivity. }
  split; [now rewrite Hl1, Hlog|].
  split; [now rewrite Hs1|].
  split; [exact Hdur|].
  split; [exact Hthr|].
  destruct (openTick_inv o Hopen) as (do & earo & -> & Hop).
  rewrite run64_app, run64_single. cbn [fst snd].
  simpl Alarm64.step. unfold Alarm64.checkDrowsiness. rewrite Hop.
  cbn [fst snd]. rewrite app_nil_r, Hdur, Hs1, Hshow, Hl1, Hlog.
  split; reflexivity.
Qed.

Lemma episode_fires_once_then_reopens_witness :
  snd (Alarm64.run defaultConfig (scenarioA ++ [openReading])
                   Alarm64.initial) = [Alarm64.whole 4] /\
  fst (Alarm64.run defaultConfig (scenarioA ++ [openReading])
                   Alarm64.initial) =
    {| Alarm64.showAlarm := true;
       Alarm64.eyesClosedDuration := Alarm64.whole 4;
       Alarm64.eyesClosedCounterRef := Fin 0;
       Alarm64.alarmTriggeredRef := false |}.
Proof.
  assert (Hpos : 0 < pollingInterval defaultConfig) by reflexivity.
  assert (Hex : Alarm64.exactTicks defaultConfig (List.length scenarioA)
                = true) by (vm_compute; reflexivity).
  assert (Hall : Forall (fun e => closedTick e = true) scenarioA)
    by (repeat constructor).
  assert (Hlen : Z.of_nat (List.length scenarioA) = firingTick defaultConfig)
    by reflexivity.
  assert (Hopen : openTick openReading = true) by reflexivity.
  pose proof (episode_fires_once_then_reopens
                defaultConfig Alarm64.initial scenarioA openReading
                Hpos Hex eq_refl eq_refl Hall Hlen Hopen) as H.
  cbv zeta in H. destruct H as (_ & _ & _ & _ & _ & H5 & H6).
  split; [exact H5 | exact H6].
Defined.

(** C1, as stated, fails twice.  On Scenario A itself the alarm fires
    once, after tick 4, but on tick 5 the published [eyesClosedDuration]
    is still 4; only the accumulator is back to 0.  And with a threshold
    of 1 s polled every 100 ms, [ceil (T / dt)] is 10, but ten closed-eye
    ticks add up to 0.9999999999999999, whose floor is 0: nothing fires,
    and the alarm comes with the eleventh tick. *)
Lemma episode_claim_fails :
  (let s5 := fst (Alarm64.run defaultConfig (scenarioA ++ [openReading])
                              Alarm64.initial) in
   snd (Alarm64.run defaultConfig scenarioA Alarm64.initial)
   = [Alarm64.whole 4] /\
   Alarm64.eyesClosedDuration s5 = Alarm64.whole 4 /\
   Alarm64.eyesClosedDuration s5 <> Fin 0 /\
   Alarm64.eyesClosedCounterRef s5 = Fin 0) /\
  (let cfg := Alarm64.tenthOfASecond in
   let ten := repeat closedReading 10 in
   Qceiling (thresholdSeconds cfg / tickSeconds cfg) = 10%Z /\
   firingTick cfg = 10%Z /\
   Alarm64.exactTicks cfg 10 = false /\
   Alarm64.eyesClosedCounterRef (fst (Alarm64.run cfg ten Alarm64.initial))
   = Fin (9007199254740991 # 9007199254740992) /\
   snd (Alarm64.run cfg ten Alarm64.initial) = [] /\
   Alarm64.showAlarm (fst (Alarm64.run cfg ten Alarm64.initial)) = false /\
   snd (Alarm64.run cfg (ten ++ [closedReading]) Alarm64.initial)
   = [Alarm64.whole 1]).
Proof. vm_compute. repeat split; discriminate. Qed.

(** Two more inputs on which [ceil (T / dt)] closed ticks do not fire,
    with sums that are exact: a threshold of 0 asks for no closed tick at
    all, and a fractional threshold is compared with a floored
    duration. *)
Example zero_threshold_in_binary64 :
  let cfg := {| thresholdSeconds := 0; pollingInterval := 1000 |} in
  Qceiling (thresholdSeconds cfg / tickSeconds cfg) = 0%Z /\
  Alarm64.run cfg [openReading] Alarm64.initial = (Alarm64.initial, []) /\
  firingTick cfg = 1%Z /\
  snd (Alarm64.run cfg [closedReading] Alarm64.initial) = [Alarm64.whole 1].
Proof. vm_compute. repeat split. Qed.

Example fractional_threshold_in_binary64 :
  let cfg := {| thresholdSeconds := 1 # 2; pollingInterval := 500 |} in
  Qceiling (thresholdSeconds cfg / tickSeconds cfg) = 1%Z /\
  Alarm64.exactTicks cfg 2 = true /\
  snd (Alarm64.run cfg [closedReading; openReading] Alarm64.initial) = [] /\
  Alarm64.showAlarm
    (fst (Alarm64.run cfg [closedReading; openReading] Alarm64.initial))
  = false /\
  firingTick cfg = 2%Z /\
  snd (Alarm64.run cfg [closedReading; closedReading] Alarm64.initial)
  = [Alarm64.whole 1].
Proof. vm_compute. repeat split. Qed.

(** *** Longer episodes *)

(** X6.  As long as the sums are exact (the multiples of the tick period
    up to the longest streak possible are binary64 numbers), the
    accumulator is the tick period times the number of closed-eye ticks
    since the last eyes-open tick or reset, dismissals not counted: a
    dismissal in the middle of an episode does not restart the count. *)
Theorem accumulator_counts_closed_streak
        (cfg : Config) (es : list Event) (s : Alarm64.State)
        (n : nat) (c : Q) :
  Alarm64.exactTicks cfg (n + List.length es) = true ->
  Alarm64.eyesClosedCounterRef s = Fin c ->
  c == inject_Z (Z.of_nat n) * tickSeconds cfg ->
  exists c',
    Alarm64.eyesClosedCounterRef (fst (Alarm64.run cfg es s)) = Fin c' /\
    c' == inject_Z (Z.of_nat (closedStreak es n)) * tickSeconds cfg.
Proof.
  intros Hex Hc Hcn.
  destruct (run_agree cfg (n + List.length es) es Hex n s
              (Alarm64.exactState s c) ltac:(lia)
              (agree_exactState s c Hc) Hcn)
    as ((_ & _ & c' & Hc' & Ec') & _ & Hck).
  exists c'. split; [exact Hc'|]. now rewrite Ec'.
Qed.

Lemma accumulator_counts_closed_streak_witness :
  exists c',
    Alarm64.eyesClosedCounterRef
      (fst (Alarm64.run defaultConfig
              [closedReading; openReading; closedReading; Dismiss;
               closedReading] Alarm64.initial)) = Fin c' /\
    c' == 2.
Proof.
  destruct (accumulator_counts_closed_streak defaultConfig
              [closedReading; openReading; closedReading; Dismiss;
               closedReading] Alarm64.initial 0 0)
    as (c' & Hc & E);
    [vm_compute; reflexivity|reflexivity|reflexivity|].
  exists c'. split; [exact Hc|]. rewrite E. reflexivity.
Defined.

(** X7.  An episode that goes on after the alarm, with exact sums: from
    a state between two episodes, any number [n >= firingTick] of
    consecutive closed-eye ticks whose multiples of the tick period are
    binary64 numbers logs the one trigger of tick [firingTick] and
    nothing more, and leaves the alarm shown, the triggered flag up and
    the published duration at [floor (n * dt)]: the display keeps
    counting without the alarm being raised again. *)
Theorem long_episode_keeps_counting
        (cfg : Config) (s0 : Alarm64.State) (es : list Event) :
  0 < pollingInterval cfg ->
  Alarm64.exactTicks cfg (List.length es) = true ->
  Alarm64.eyesClosedCounterRef s0 = Fin 0 ->
  Alarm64.alarmTriggeredRef s0 = false ->
  Forall (fun e => closedTick e = true) es ->
  (firingTick cfg <= Z.of_nat (List.length es))%Z ->
  snd (Alarm64.run cfg es s0)
    = [Alarm64.whole (Qfloor (inject_Z (firingTick cfg) * tickSeconds cfg))] /\
  Alarm64.showAlarm (fst (Alarm64.run cfg es s0)) = true /\
  Alarm64.alarmTriggeredRef (fst (Alarm64.run cfg es s0)) = true /\
  Alarm64.eyesClosedDuration (fst (Alarm64.run cfg es s0))
    = Alarm64.whole
        (Qfloor (inject_Z (Z.of_nat (List.length es)) * tickSeconds cfg)).
Proof.
  intros Hpos Hex Hzero Hdown Hall Hlen.
  set (s0' := Alarm64.exactState s0 0).
  assert (Hz : eyesClosedCounterRef s0' == inject_Z (Z.of_nat 0)
                                          * tickSeconds cfg)
    by (simpl; ring).
  destruct (exact_long_episode cfg s0' es Hpos (Qeq_refl 0) Hdown Hall Hlen)
    as (Hlog & Hshow & Htrig & Hdur).
  destruct (run_agree cfg (List.length es) es Hex 0%nat s0 s0'
              ltac:(lia) (agree_exactState s0 0 Hzero) Hz)
    as ((Hs1 & Ht1 & _) & Hl1 & _).
  split; [now rewrite Hl1, Hlog|].
  split; [now rewrite Hs1|].
  split; [now rewrite Ht1|].
  pose proof (firingTick_pos cfg) as Hn.
  apply last_closed_tick64; auto.
  - intros ->. simpl in Hlen. lia.
  - rewrite <- Hdur.
    destruct (run_keeps_live_duration cfg es s0' (Qlt_le_weak _ _ Hpos))
      as [Hd1 Hr1]; [|exact Htrig|now rewrite Hd1].
    intros H. unfold s0' in H. simpl in H. congruence.
Qed.

Lemma long_episode_keeps_counting_witness :
  snd (Alarm64.run defaultConfig (scenarioA ++ scenarioA) Alarm64.initial)
  = [Alarm64.whole 4] /\
  Alarm64.eyesClosedDuration
    (fst (Alarm64.run defaultConfig (scenarioA ++ scenarioA)
                      Alarm64.initial))
  = Alarm64.whole 8.
Proof.
  assert (Hpos : 0 < pollingInterval defaultConfig) by reflexivity.
  assert (Hex : Alarm64.exactTicks defaultConfig
                  (List.length (scenarioA ++ scenarioA)) = true)
    by (vm_compute; reflexivity).
  assert (Hall : Forall (fun e => closedTick e = true) (scenarioA ++ scenarioA))
    by (repeat constructor).
  assert (Hlen : (firingTick defaultConfig
                  <= Z.of_nat (List.length (scenarioA ++ scenarioA)))%Z)
    by (vm_compute; discriminate).
  destruct (long_episode_keeps_counting defaultConfig Alarm64.initial
              (scenarioA ++ scenarioA) Hpos Hex eq_refl eq_refl Hall Hlen)
    as (Ho & _ & _ & Hd).
  split; [exact Ho|exact Hd].
Defined.

End Alarm64Facts.

(* ================================================================== *)
(** * Properties of the HTTP client and of the detection screen *)

Module ApiFacts.

Import Api.
Unset Implicit Arguments.
Local Open Scope nat_scope.

Section Fetch.
Variable T : Type.

Lemma fetchLoop_spec (net : nat -> Attempt T) :
  forall remaining attempt,
    let r := fetchLoop remaining net attempt in
    1 <= attempts r <= remaining + 1 /\
    waited r = retryDelay * (attempts r - 1) /\
    result r = tryOnce (net (attempt + attempts r - 1)) /\
    (forall k, attempt <= k < attempt + attempts r - 1 -> exists e, tryOnce (net k) = inr e) /\
    (forall e, result r = inr e -> attempts r = remaining + 1).
Proof.
  assert (Hdone : forall n, n + 1 - 1 = n) by (intros; lia).
  induction remaining as [|remaining IH]; intros attempt; cbv zeta; simpl.
  - destruct (tryOnce (net attempt)) as [data|error] eqn:E; simpl;
      rewrite ?Hdone; repeat split; try lia; try discriminate; auto;
      intros k Hk; lia.
  - destruct (tryOnce (net attempt)) as [data|error] eqn:E; simpl.
    + rewrite ?Hdone; repeat split; try lia; try discriminate; auto;
        intros k Hk; lia.
    + specialize (IH (attempt + 1)). cbv zeta in IH.
      destruct IH as (Hatt & Hwait & Hres & Hfail & Hgive).
      set (r := fetchLoop remaining net (attempt + 1)) in *.
      split; [lia|]. split; [rewrite Hwait; unfold retryDelay; lia|].
      split; [rewrite Hres; f_equal; f_equal; lia|].
      split.
      * intros k Hk. destruct (Nat.eq_dec k attempt) as [->|Hne].
        { exists error. exact E. }
        { apply Hfail. lia. }
      * intros e He. specialize (Hgive e He). lia.
Qed.

(** X11.  [fetchWithRetry] makes at least one attempt and at most
    [retryCount - attempt + 1] (three for the default first attempt 1),
    waits [retryDelay] before each further attempt (at most 2000 ms in
    all), stops at the first attempt that succeeds, and its outcome is
    the outcome of the last attempt it made. *)
Theorem fetchWithRetry_bounded (net : nat -> Attempt T) (attempt : nat) :
  let r := fetchWithRetry net attempt in
  1 <= attempts r <= retryCount - attempt + 1 /\
  waited r = retryDelay * (attempts r - 1) /\
  result r = tryOnce (net (attempt + attempts r - 1)) /\
  (forall k, attempt <= k < attempt + attempts r - 1 ->
             exists e, tryOnce (net k) = inr e).
Proof.
  cbv zeta. unfold fetchWithRetry.
  destruct (fetchLoop_spec net (retryCount - attempt) attempt)
    as (H1 & H2 & H3 & H4 & _).
  auto.
Qed.

(** X12.  Called with the default first attempt, [fetchWithRetry] returns
    data exactly when one of the attempts 1, 2, 3 succeeds, and then the
    data of the first that does; when all three fail it throws what the
    third attempt threw, not the first error. *)
Theorem fetchWithRetry_first_success (net : nat -> Attempt T) :
  let r := fetchWithRetry net 1 in
  (forall data,
      result r = inl data <->
      exists k, 1 <= k <= 3 /\ tryOnce (net k) = inl data /\
                forall j, 1 <= j < k -> exists e, tryOnce (net j) = inr e) /\
  (forall e,
      result r = inr e <->
      tryOnce (net 3) = inr e /\
      forall j, 1 <= j < 3 -> exists e', tryOnce (net j) = inr e').
Proof.
  cbv zeta. unfold fetchWithRetry.
  destruct (fetchLoop_spec net (retryCount - 1) 1)
    as (H1 & _ & H3 & H4 & H5).
  set (r := fetchLoop (retryCount - 1) net 1) in *.
  change (retryCount - 1 + 1) with 3 in *.
  replace (1 + attempts r - 1) with (attempts r) in * by lia.
  split.
  - intros data. split.
    + intros Hr. exists (attempts r). split; [lia|].
      split; [now rewrite <- H3|]. intros j Hj. apply H4. lia.
    + intros (k & Hk & Hok & Hbefore).
      destruct (Nat.lt_trichotomy k (attempts r)) as [Hlt|[->|Hgt]].
      * destruct (H4 k) as (e & He); [lia|]. congruence.
      * now rewrite H3.
      * destruct (Hbefore (attempts r)) as (e & He); [lia|].
        rewrite <- H3 in He. specialize (H5 e He). lia.
  - intros e. split.
    + intros Hr. pose proof (H5 e Hr) as Hn. rewrite Hn in *.
      split; [now rewrite <- H3|]. intros j Hj. apply H4. lia.
    + intros (H3rd & Hbefore).
      destruct (Nat.eq_dec (attempts r) 3) as [Hn|Hn].
      * rewrite H3, Hn. exact H3rd.
      * destruct (result r) as [data|e'] eqn:Hr.
        { destruct (Hbefore (attempts r)) as (e' & He'); [lia|].
          rewrite <- H3 in He'. congruence. }
        { specialize (H5 e' eq_refl). lia. }
Qed.

End Fetch.

Lemma fetchWithRetry_bounded_witness :
  let net := fun n : nat =>
    if (n <? 2)%nat then FetchRejected (ErrorObject "Network request failed")
    else Response true 200 "OK" (inl 7) in
  attempts (fetchWithRetry net 1) = 2 /\
  waited (fetchWithRetry net 1) = 1000 /\
  exists e, tryOnce (net 1) = inr e.
Proof.
  intros net.
  destruct (fetchWithRetry_bounded nat net 1) as (_ & _ & _ & H4).
  split; [reflexivity|]. split; [reflexivity|].
  apply H4. vm_compute. split; apply le_n.
Defined.

Lemma fetchWithRetry_first_success_witness :
  let net := fun n : nat =>
    if (n <? 3)%nat then Response false 503 "Service Unavailable" (inl 0)
    else Response true 200 "OK" (inl 7) in
  result (fetchWithRetry net 1) = inl 7 /\
  attempts (fetchWithRetry net 1) = 3.
Proof.
  intros net. split; [|reflexivity].
  apply (proj1 (fetchWithRetry_first_success nat net)).
  exists 3. split; [lia|]. split; [reflexivity|].
  intros j Hj.
  assert (Hc : j = 1 \/ j = 2) by lia.
  destruct Hc as [-> | ->]; eexists; reflexivity.
Defined.

End ApiFacts.

Module DetectionFacts.

Import Api Detection.
Unset Implicit Arguments.

Lemma run_snoc evs ev st : run (evs ++ [ev]) st = step (run evs st) ev.
Proof. unfold run. now rewrite fold_left_app. Qed.

Lemma alarm_run_append es1 es2 s :
  fst (Alarm.run cfg (es1 ++ es2) s)
  = fst (Alarm.run cfg es2 (fst (Alarm.run cfg es1 s))).
Proof. now rewrite AlarmFacts.run_app. Qed.

(** X13.  On the detection screen the alarm hook sees one tick for every
    drowsiness fetch that resolves, one dismissal for every press in the
    modal, and nothing else: a fetch that is rejected, a fetch under way
    and the emotion fetches leave the accumulator, the triggered flag and
    the alarm as they were, and [resetAlarm] is never called. *)
Theorem screen_alarm_follows_resolved_fetches
        (evs : list Event) (st : State) :
  alarm (run evs st)
  = fst (Alarm.run cfg (alarmEvents evs) (alarm st)) /\
  existsb Alarm.isReset (alarmEvents evs) = false.
Proof.
  split.
  - revert st. induction evs as [|ev evs IH]; intros st; [reflexivity|].
    change (run (ev :: evs) st) with (run evs (step st ev)).
    rewrite IH. unfold alarmEvents. simpl flat_map.
    rewrite alarm_run_append. f_equal. f_equal.
    destruct ev as [|data|err|data|err|]; simpl; try reflexivity.
    + now destruct (Alarm.checkDrowsiness cfg _ _ _).
    + unfold emotionResolved.
      now destruct (truthyEmotion (current_emotion data)).
  - unfold alarmEvents. induction evs as [|ev evs IH]; [reflexivity|].
    simpl. rewrite existsb_app, IH, orb_false_r.
    now destruct ev.
Qed.

(** X14.  Nothing the screen has shown is blanked by a later event: once
    loading has ended it has ended, detection data once present stay
    present (the last resolved data, through every rejected fetch), and an
    emotion once shown is only ever replaced by another non-empty
    emotion. *)
Theorem screen_never_blanks (evs : list Event) (st : State) :
  (loading st = false -> loading (run evs st) = false) /\
  (detectionData st <> None -> detectionData (run evs st) <> None) /\
  (truthyEmotion (emotion (emotionData st)) = true ->
   truthyEmotion (emotion (emotionData (run evs st))) = true).
Proof.
  revert st. induction evs as [|ev evs IH]; intros st; [auto|].
  change (run (ev :: evs) st) with (run evs (step st ev)).
  destruct (IH (step st ev)) as (H1 & H2 & H3).
  split; [|split].
  - intros H. apply H1. destruct ev as [|data|err|data|err|]; simpl; auto.
    unfold emotionResolved.
    now destruct (truthyEmotion (current_emotion data)).
  - intros H. apply H2. destruct ev as [|data|err|data|err|]; simpl; auto.
    + discriminate.
    + unfold emotionResolved.
      now destruct (truthyEmotion (current_emotion data)).
  - intros H. apply H3. destruct ev as [|data|err|data|err|]; simpl; auto.
    unfold emotionResolved.
    destruct (truthyEmotion (current_emotion data)) eqn:E; simpl; auto.
Qed.

Lemma screen_never_blanks_witness :
  let data :=
    {| timestamp := "2024-05-01T10:15"; ear := Fin (1 # 5);
       mar := Fin (1 # 2); is_drowsy := true; is_yawning := false;
       alert_level := "warning"; message := "";
       current_emotion := Some "happy"%string; emotion_scores := [] |} in
  let st := run [DrowsinessStarted; DrowsinessResolved data;
                 EmotionResolved data] initial in
  let later := [DrowsinessStarted;
                DrowsinessRejected (ErrorObject "API Error: 500 - ");
                EmotionRejected OtherValue] in
  loading (run later st) = false /\
  detectionData (run later st) <> None /\
  truthyEmotion (emotion (emotionData (run later st))) = true.
Proof.
  intros data st later.
  destruct (screen_never_blanks later st) as (H1 & H2 & H3).
  split; [apply H1; reflexivity|].
  split; [apply H2; discriminate|apply H3; reflexivity].
Defined.

End DetectionFacts.

(* ================================================================== *)
(** * Properties of the file part of a frame upload *)

Module UploadFacts.

Import Upload.
Unset Implicit Arguments.
Local Open Scope string_scope.

Lemma append_assoc (a b c : string) : (a ++ b) ++ c = a ++ (b ++ c).
Proof. induction a as [|x a IH]; simpl; [reflexivity|now rewrite IH]. Qed.

Lemma append_empty_r (a : string) : a ++ "" = a.
Proof. induction a as [|x a IH]; simpl; [reflexivity|now rewrite IH]. Qed.

(** The segments of a split have no separator in them and give the
    string back when joined with it. *)
Lemma split_spec (sep : ascii) (s : string) :
  split sep s <> [] /\
  Forall (fun seg => occurs sep seg = false) (split sep s) /\
  String.concat (String sep "") (split sep s) = s.
Proof.
  induction s as [|c rest (Hne & Hall & Hcat)]; simpl.
  - split; [discriminate|]. split; [repeat constructor|reflexivity].
  - destruct (Ascii.eqb_spec c sep) as [->|Hc].
    + split; [discriminate|]. split; [constructor; [reflexivity|exact Hall]|].
      destruct (split sep rest) as [|h t]; [now elim Hne|].
      simpl in *. now rewrite Hcat.
    + destruct (split sep rest) as [|h t]; [now elim Hne|].
      split; [discriminate|]. apply Forall_cons_iff in Hall as [Hh Ht].
      split.
      * constructor; [|exact Ht]. simpl.
        apply Ascii.eqb_neq in Hc. now rewrite Hc.
      * destruct t as [|h' t]; simpl in *; now rewrite Hcat.
Qed.

Lemma concat_last (sep : string) (l : list string) :
  l <> [] ->
  exists pre,
    String.concat sep l = pre ++ last l "" /\
    (pre = "" \/ exists p, pre = p ++ sep).
Proof.
  induction l as [|x l IH]; intros Hne; [now elim Hne|].
  destruct l as [|y t].
  - exists "". simpl. split; [reflexivity|now left].
  - destruct IH as (pre & Hcat & Hpre); [discriminate|].
    exists (x ++ sep ++ pre).
    change (String.concat sep (x :: y :: t))
      with (x ++ sep ++ String.concat sep (y :: t)).
    change (last (x :: y :: t) "") with (last (y :: t) "").
    rewrite Hcat. split; [now rewrite !append_assoc|].
    right. destruct Hpre as [->|(p & ->)].
    + exists x. now rewrite append_empty_r.
    + exists (x ++ sep ++ p). now rewrite !append_assoc.
Qed.

Lemma execExtension_some (s e : string) :
  execExtension s = Some e ->
  e <> "" /\ allWord e = true /\ exists stem, s = stem ++ "." ++ e.
Proof.
  induction s as [|c rest IH]; simpl; [discriminate|].
  destruct ((c =? ".")%char && negb (rest =? "") && allWord rest) eqn:E.
  - intros H; inversion H; subst e; clear H.
    apply andb_true_iff in E as [E Hw]. apply andb_true_iff in E as [Hc Hr].
    apply Ascii.eqb_eq in Hc; subst c.
    apply negb_true_iff, String.eqb_neq in Hr.
    split; [exact Hr|]. split; [exact Hw|]. now exists "".
  - intros H. destruct (IH H) as (He & Hw & stem & ->).
    split; [exact He|]. split; [exact Hw|]. now exists (String c stem).
Qed.

Lemma execExtension_none (s : string) :
  execExtension s = None ->
  forall stem e, s = stem ++ "." ++ e -> e = "" \/ allWord e = false.
Proof.
  induction s as [|c rest IH]; simpl; intros H stem e Hs.
  - destruct stem; discriminate.
  - destruct ((c =? ".")%char && negb (rest =? "") && allWord rest) eqn:E;
      [discriminate|].
    destruct stem as [|c' stem]; simpl in Hs; inversion Hs; subst.
    + simpl in E. destruct (String.eqb_spec e ""); [now left|].
      simpl in E. now right.
    + eapply IH; eauto.
Qed.

(** X15.  The file part that [detectFrame] uploads: the name is the part
    of the URI after its last slash, and ['image.jpg'] when that part is
    empty, so it is never empty and has no slash; the type is [image/]
    followed by the name's extension, the word characters after its last
    dot, and [image/jpeg] only for a name without such an extension; so a
    URI that ends in a slash is sent as [image.jpg] of type [image/jpg],
    not [image/jpeg]. *)
Theorem detectFrame_file_part (imageUri : string) :
  let part := filePart imageUri in
  let last := pop (split "/" imageUri) in
  (exists pre, imageUri = pre ++ last /\
               (pre = "" \/ exists p, pre = p ++ "/")) /\
  uri part = imageUri /\
  name part <> "" /\
  occurs "/" (name part) = false /\
  (last <> "" -> name part = last) /\
  (last = "" -> name part = "image.jpg" /\ type part = "image/jpg") /\
  ((type part = "image/jpeg" /\
    forall stem e, name part = stem ++ "." ++ e ->
                   e = "" \/ allWord e = false) \/
   (exists stem e, name part = stem ++ "." ++ e /\ e <> "" /\
                   allWord e = true /\ type part = "image/" ++ e)).
Proof.
  cbv zeta. unfold filePart, fileName, pop; simpl.
  destruct (split_spec "/" imageUri) as (Hne & Hall & Hcat).
  destruct (concat_last "/" _ Hne) as (pre & Hpre & Hend).
  rewrite Hcat in Hpre.
  assert (Hlast : occurs "/" (last (split "/" imageUri) "") = false).
  { rewrite Forall_forall in Hall. apply Hall.
    destruct (exists_last Hne) as (l' & a & E). rewrite E.
    rewrite last_last. apply in_or_app. right. now left. }
  split; [exists pre; split; [exact Hpre|exact Hend]|].
  split; [reflexivity|].
  unfold Stats.truthy.
  destruct (String.eqb_spec (last (split "/" imageUri) "") "") as [E|E];
    simpl.
  - rewrite E. split; [discriminate|]. split; [reflexivity|].
    split; [intros H; now elim H|]. split; [intros _; split; reflexivity|].
    right. exists "image", "jpg". repeat split; discriminate.
  - split; [exact E|]. split; [exact Hlast|]. split; [reflexivity|].
    split; [intros H; now elim E|].
    unfold mimeType.
    destruct (execExtension (last (split "/" imageUri) "")) as [e|] eqn:X.
    + right. destruct (execExtension_some _ _ X) as (He & Hw & stem & Hs).
      exists stem, e. repeat split; auto.
    + left. split; [reflexivity|]. now apply execExtension_none.
Qed.

Lemma detectFrame_file_part_witness :
  name (filePart "file:///data/cache/frame.01.png") = "frame.01.png" /\
  type (filePart "file:///data/cache/") = "image/jpg".
Proof.
  destruct (detectFrame_file_part "file:///data/cache/frame.01.png")
    as (_ & _ & _ & _ & H1 & _).
  destruct (detectFrame_file_part "file:///data/cache/")
    as (_ & _ & _ & _ & _ & H2 & _).
  split; [apply H1; discriminate|apply H2; reflexivity].
Defined.

End UploadFacts.

(* ================================================================== *)
(** * Properties of sorting, of the latest record and of the three hooks *)

Module SortFacts.

Import JsArray.
Unset Implicit Arguments.

Lemma insertBy_In {A} (after : A -> A -> bool) (x y : A) (l : list A) :
  In y (insertBy after x l) <-> y = x \/ In y l.
Proof.
  induction l as [|z l IH]; simpl; [intuition|].
  destruct (after x z); simpl; rewrite ?IH; intuition.
Qed.

Lemma sortBy_In {A} (after : A -> A -> bool) (y : A) (l : list A) :
  In y (sortBy after l) <-> In y l.
Proof.
  unfold sortBy. induction l as [|x l IH]; simpl; [tauto|].
  rewrite insertBy_In, IH. intuition.
Qed.

Lemma insertBy_length {A} (after : A -> A -> bool) (x : A) (l : list A) :
  List.length (insertBy after x l) = S (List.length l).
Proof.
  induction l as [|z l IH]; simpl; [reflexivity|].
  destruct (after x z); simpl; now rewrite ?IH.
Qed.

Lemma sortBy_length {A} (after : A -> A -> bool) (l : list A) :
  List.length (sortBy after l) = List.length l.
Proof.
  unfold sortBy. induction l as [|x l IH]; simpl; [reflexivity|].
  now rewrite insertBy_length, IH.
Qed.

Section Keyed.
Variable A : Type.
Variable after : A -> A -> bool.
Variable key : A -> Q.

Lemma consistentOn_tail x l :
  consistentOn after key (x :: l) -> consistentOn after key l.
Proof. intros H a b Ha Hb. apply H; now right. Qed.

(** The first element of the sorted array is the first element of the
    array with the largest key. *)
Lemma sortBy_head (l : list A) :
  consistentOn after key l ->
  forall e rest,
    sortBy after l = e :: rest ->
    exists pre post,
      l = pre ++ e :: post /\
      (forall x, In x pre -> key x < key e) /\
      (forall x, In x post -> key x <= key e).
Proof.
  induction l as [|x l IH]; intros Hcons e rest Hsort; [discriminate|].
  unfold sortBy in Hsort. simpl in Hsort.
  fold (sortBy after l) in Hsort.
  destruct (sortBy after l) as [|h t] eqn:Hl.
  - assert (l = []).
    { apply length_zero_iff_nil. now rewrite <- (sortBy_length after l), Hl. }
    subst l. simpl in Hsort. inversion Hsort; subst.
    exists [], []. repeat split; intros y [].
  - destruct (IH (consistentOn_tail x l Hcons) h t eq_refl)
      as (pre & post & Hsplit & Hpre & Hpost).
    assert (Hh : In h (x :: l)).
    { right. apply (sortBy_In after). rewrite Hl. now left. }
    simpl in Hsort. destruct (after x h) eqn:E.
    + inversion Hsort; subst e rest.
      exists (x :: pre), post. rewrite Hsplit. split; [reflexivity|].
      split; [|exact Hpost].
      intros y [<-|Hy]; [|now apply Hpre].
      apply (Hcons x h); [now left|exact Hh|exact E].
    + inversion Hsort; subst e rest.
      exists [], l. split; [reflexivity|]. split; [intros y []|].
      assert (Hxh : key h <= key x).
      { apply Qnot_lt_le. intros Hlt.
        apply (Hcons x h) in Hlt; [congruence|now left|exact Hh]. }
      intros y Hy. rewrite Hsplit in Hy.
      apply in_app_or in Hy as [Hy|[<-|Hy]].
      * apply Qlt_le_weak. eapply Qlt_le_trans; [now apply Hpre|exact Hxh].
      * exact Hxh.
      * eapply Qle_trans; [now apply Hpost|exact Hxh].
Qed.

Lemma insertBy_descending x l :
  consistentOn after key (x :: l) ->
  Sorted (fun a b => key b <= key a) l ->
  Sorted (fun a b => key b <= key a) (insertBy after x l).
Proof.
  induction l as [|z l IH]; simpl; intros Hcons Hs.
  - repeat constructor.
  - destruct (after x z) eqn:E.
    + apply Sorted_inv in Hs as [Hs Hhd].
      assert (Hxz : key x < key z).
      { apply (Hcons x z); [now left|right; now left|exact E]. }
      constructor.
      * apply IH; [|exact Hs].
        intros a b Ha Hb. apply Hcons; simpl in *; tauto.
      * destruct l as [|w l]; simpl.
        { constructor. now apply Qlt_le_weak. }
        { destruct (after x w).
          - constructor. now apply HdRel_inv in Hhd.
          - constructor. now apply Qlt_le_weak. }
    + constructor; [exact Hs|]. constructor.
      apply Qnot_lt_le. intros Hlt.
      apply (Hcons x z) in Hlt; [congruence|now left|right; now left].
Qed.

Lemma sortBy_descending (l : list A) :
  consistentOn after key l ->
  Sorted (fun a b => key b <= key a) (sortBy after l).
Proof.
  induction l as [|x l IH]; intros Hcons; [constructor|].
  change (sortBy after (x :: l)) with (insertBy after x (sortBy after l)).
  apply insertBy_descending.
  - intros a b Ha Hb. apply Hcons.
    + destruct Ha as [<-|Ha]; [now left|right].
      exact (proj1 (sortBy_In after a l) Ha).
    + destruct Hb as [<-|Hb]; [now left|right].
      exact (proj1 (sortBy_In after b l) Hb).
  - apply IH. exact (consistentOn_tail x l Hcons).
Qed.

End Keyed.

End SortFacts.

Module LatestFacts.

Import Stats JsArray Latest SortFacts.
Unset Implicit Arguments.

Lemma positive_difference (a b : Q) :
  positive (js_sub (Fin a) (Fin b)) = true <-> b < a.
Proof.
  unfold positive, js_gt, js_lt, js_sub. rewrite negb_true_iff.
  split.
  - intros H. apply Qnot_le_lt. intros Hle.
    assert (Qle_bool (a - b) 0 = true); [|congruence].
    apply Qle_bool_iff. lra.
  - intros H. apply not_true_is_false. intros Hle.
    apply Qle_bool_iff in Hle. lra.
Qed.

Lemma js_lt_finite (a b : Q) : js_lt (Fin a) (Fin b) = true <-> a < b.
Proof.
  unfold js_lt. rewrite negb_true_iff. split.
  - intros H. apply Qnot_le_lt. intros Hle.
    apply Qle_bool_iff in Hle. congruence.
  - intros H. apply not_true_is_false. intros Hle.
    apply Qle_bool_iff in Hle. lra.
Qed.

Section Generic.
Variable A : Type.
Variable getTime : string -> jsnum.
Variable stamp : A -> string.

(** The first element after sorting with
    [getTime(b) - getTime(a)] as comparison, all times being finite. *)
Lemma latest_first (l : list A) :
  (forall e, In e l -> is_finite (getTime (stamp e)) = true) ->
  forall e rest,
    sortBy (fun a b => positive (js_sub (getTime (stamp b))
                                        (getTime (stamp a)))) l
    = e :: rest ->
    exists pre post,
      l = pre ++ e :: post /\
      (forall x, In x pre ->
                 js_lt (getTime (stamp x)) (getTime (stamp e)) = true) /\
      (forall x, In x post ->
                 js_lt (getTime (stamp e)) (getTime (stamp x)) = false).
Proof.
  intros Hfin e rest Hsort.
  set (key := fun x => match getTime (stamp x) with Fin q => q | _ => 0 end).
  assert (Hkey : forall x, In x l -> getTime (stamp x) = Fin (key x)).
  { intros x Hx. specialize (Hfin x Hx). unfold key.
    destruct (getTime (stamp x)); simpl in Hfin; congruence. }
  assert (Hcons : consistentOn
            (fun a b => positive (js_sub (getTime (stamp b))
                                         (getTime (stamp a)))) key l).
  { intros x y Hx Hy. rewrite (Hkey x Hx), (Hkey y Hy).
    apply positive_difference. }
  destruct (sortBy_head A _ key l Hcons e rest Hsort)
    as (pre & post & Hl & Hpre & Hpost).
  exists pre, post. split; [exact Hl|].
  assert (He : In e l) by (rewrite Hl; apply in_or_app; simpl; auto).
  split.
  - intros x Hx.
    assert (Hxl : In x l) by (rewrite Hl; apply in_or_app; auto).
    rewrite (Hkey x Hxl), (Hkey e He). apply js_lt_finite. now apply Hpre.
  - intros x Hx.
    assert (Hxl : In x l) by (rewrite Hl; apply in_or_app; simpl; auto).
    rewrite (Hkey x Hxl), (Hkey e He). apply not_true_is_false.
    intros H. apply js_lt_finite in H. specialize (Hpost x Hx). lra.
Qed.

End Generic.

(** X16.  [getLatestAlert] and [getLatestEmotion] return [null] exactly
    on the empty mapping, and otherwise an entry of the mapping; when the
    timestamps of all records parse, that entry is a most recent one: no
    record has a later time, and every record enumerated before it is
    strictly older, so among records of the same time the first one
    wins. *)
Theorem getLatest_is_most_recent (getTime : string -> jsnum) :
  (forall alerts : Mapping Alert.t,
      (getLatestAlert getTime alerts = None <-> alerts = []) /\
      (forall e, getLatestAlert getTime alerts = Some e -> In e alerts) /\
      ((forall e, In e alerts ->
                  is_finite (getTime (Alert.timestamp (snd e))) = true) ->
       forall e,
         getLatestAlert getTime alerts = Some e ->
         exists pre post,
           alerts = pre ++ e :: post /\
           (forall x, In x pre ->
                      js_lt (getTime (Alert.timestamp (snd x)))
                            (getTime (Alert.timestamp (snd e))) = true) /\
           (forall x, In x post ->
                      js_lt (getTime (Alert.timestamp (snd e)))
                            (getTime (Alert.timestamp (snd x))) = false))) /\
  (forall emotions : Mapping Emotion.t,
      (getLatestEmotion getTime emotions = None <-> emotions = []) /\
      (forall e, getLatestEmotion getTime emotions = Some e ->
                 In e emotions) /\
      ((forall e, In e emotions ->
                  is_finite (getTime (Emotion.timestamp (snd e))) = true) ->
       forall e,
         getLatestEmotion getTime emotions = Some e ->
         exists pre post,
           emotions = pre ++ e :: post /\
           (forall x, In x pre ->
                      js_lt (getTime (Emotion.timestamp (snd x)))
                            (getTime (Emotion.timestamp (snd e))) = true) /\
           (forall x, In x post ->
                      js_lt (getTime (Emotion.timestamp (snd e)))
                            (getTime (Emotion.timestamp (snd x))) = false))).
Proof.
  split.
  - intros alerts. split; [|split].
    + destruct alerts as [|a alerts]; [tauto|]. split; [|discriminate].
      unfold getLatestAlert.
      pose proof (sortBy_length (alertAfter getTime) (a :: alerts)) as Hlen.
      destruct (sortBy _ (a :: alerts)); simpl in *; [lia|discriminate].
    + intros e He. destruct alerts as [|a alerts]; [discriminate|].
      unfold getLatestAlert in He.
      apply (sortBy_In (alertAfter getTime)).
      destruct (sortBy _ (a :: alerts)); simpl in He; [discriminate|].
      inversion He; subst. now left.
    + intros Hfin e He. destruct alerts as [|a alerts]; [discriminate|].
      unfold getLatestAlert in He.
      destruct (sortBy (alertAfter getTime) (a :: alerts)) as [|h t] eqn:Hs;
        simpl in He; [discriminate|].
      inversion He; subst h.
      exact (latest_first _ getTime (fun x => Alert.timestamp (snd x))
                          (a :: alerts) Hfin e t Hs).
  - intros emotions. split; [|split].
    + destruct emotions as [|a emotions]; [tauto|]. split; [|discriminate].
      unfold getLatestEmotion.
      pose proof (sortBy_length (emotionAfter getTime) (a :: emotions))
        as Hlen.
      destruct (sortBy _ (a :: emotions)); simpl in *; [lia|discriminate].
    + intros e He. destruct emotions as [|a emotions]; [discriminate|].
      unfold getLatestEmotion in He.
      apply (sortBy_In (emotionAfter getTime)).
      destruct (sortBy _ (a :: emotions)); simpl in He; [discriminate|].
      inversion He; subst. now left.
    + intros Hfin e He. destruct emotions as [|a emotions]; [discriminate|].
      unfold getLatestEmotion in He.
      destruct (sortBy (emotionAfter getTime) (a :: emotions)) as [|h t] eqn:Hs;
        simpl in He; [discriminate|].
      inversion He; subst h.
      exact (latest_first _ getTime (fun x => Emotion.timestamp (snd x))
                          (a :: emotions) Hfin e t Hs).
Qed.

Lemma getLatest_is_most_recent_witness :
  exists e pre post,
    getLatestAlert scenarioClock Scenarios.scenarioB = Some e /\
    fst e = "a3"%string /\
    Scenarios.scenarioB = pre ++ e :: post /\
    forall x, In x pre ->
              js_lt (scenarioClock (Alert.timestamp (snd x)))
                    (scenarioClock (Alert.timestamp (snd e))) = true.
Proof.
  destruct (getLatest_is_most_recent scenarioClock) as [HA _].
  destruct (HA Scenarios.scenarioB) as (_ & _ & Hmax).
  assert (Hfin : forall e, In e Scenarios.scenarioB ->
            is_finite (scenarioClock (Alert.timestamp (snd e))) = true).
  { intros e He. repeat (destruct He as [<-|He]; [reflexivity|]).
    destruct He. }
  destruct (Hmax Hfin _ eq_refl) as (pre & post & H1 & H2 & H3).
  eexists. exists pre, post.
  split; [reflexivity|]. split; [reflexivity|]. split; [exact H1|exact H2].
Defined.

End LatestFacts.

Module StatsMirrorFacts.

Import Stats Mirror StatsMirror.
Unset Implicit Arguments.

Section WithLatest.
Variable getLatestAlert : Mapping Alert.t -> option Alert.t.
Variable getLatestEmotion : Mapping Emotion.t -> option Emotion.t.

Lemma deliverAll_loading (ds : list Delivery) :
  forall h,
    loading (statsHook (deliverAll getLatestAlert getLatestEmotion ds h))
    = (loading (statsHook h) && negb (existsb isToStats ds))%bool /\
    Alerts.loading
      (alertsHook (deliverAll getLatestAlert getLatestEmotion ds h))
    = (Alerts.loading (alertsHook h) && negb (existsb isToAlerts ds))%bool /\
    Emotions.loading
      (emotionsHook (deliverAll getLatestAlert getLatestEmotion ds h))
    = (Emotions.loading (emotionsHook h)
       && negb (existsb isToEmotions ds))%bool.
Proof.
  induction ds as [|d ds IH]; intros h.
  - simpl. now rewrite !andb_true_r.
  - change (deliverAll getLatestAlert getLatestEmotion (d :: ds) h)
      with (deliverAll getLatestAlert getLatestEmotion ds
              (deliver getLatestAlert getLatestEmotion h d)).
    destruct (IH (deliver getLatestAlert getLatestEmotion h d))
      as (H1 & H2 & H3).
    rewrite H1, H2, H3.
    destruct d as [[val|err]|[val|err]|[val|err]]; simpl;
      rewrite ?andb_false_r; auto.
Qed.

(** X17.  The statistics screen, and [useFirebaseData], stay in the
    loading state until each of the three subscriptions has delivered at
    least one event, a snapshot or an error; as long as one channel is
    silent the loading card hides what the other two have delivered. *)
Theorem loading_until_all_three_delivered (ds : list Delivery) :
  screenLoading (deliverAll getLatestAlert getLatestEmotion ds mounted)
  = negb (existsb isToStats ds && existsb isToAlerts ds
          && existsb isToEmotions ds) /\
  dataLoading (deliverAll getLatestAlert getLatestEmotion ds mounted)
  = negb (existsb isToStats ds && existsb isToAlerts ds
          && existsb isToEmotions ds).
Proof.
  unfold screenLoading, dataLoading.
  destruct (deliverAll_loading ds mounted) as (-> & -> & ->). simpl.
  destruct (existsb isToStats ds), (existsb isToAlerts ds),
    (existsb isToEmotions ds); split; reflexivity.
Qed.

Lemma alerts_error_handleAll (evs : list (ChannelEvent Alert.t)) :
  forall s,
    Alerts.error (Alerts.handleAll getLatestAlert evs s)
    = lastAlertError evs (Alerts.error s).
Proof.
  unfold Alerts.handleAll.
  induction evs as [|[val|err] evs IH]; intros s; simpl; [reflexivity| |];
    rewrite IH; reflexivity.
Qed.

Lemma lastAlertError_keeps (evs : list (ChannelEvent Alert.t)) :
  forall held, held <> None -> lastAlertError evs held <> None.
Proof.
  induction evs as [|[val|err] evs IH]; intros held H; simpl; auto.
  apply IH. discriminate.
Qed.

(** X18.  No event clears an error: in each of the three hooks, once
    [error] is set it stays set through every later snapshot and error,
    and in the alerts hook its value is the message of the last error
    delivered, whatever snapshots came after it. *)
Theorem errors_never_cleared (ds : list Delivery) :
  forall h,
    (error (statsHook h) <> None ->
     error (statsHook (deliverAll getLatestAlert getLatestEmotion ds h))
     <> None) /\
    (Alerts.error (alertsHook h) <> None ->
     Alerts.error
       (alertsHook (deliverAll getLatestAlert getLatestEmotion ds h))
     <> None) /\
    (Emotions.error (emotionsHook h) <> None ->
     Emotions.error
       (emotionsHook (deliverAll getLatestAlert getLatestEmotion ds h))
     <> None) /\
    (forall evs s,
        Alerts.error (Alerts.handleAll getLatestAlert evs s)
        = lastAlertError evs (Alerts.error s)).
Proof.
  induction ds as [|d ds IH]; intros h.
  - repeat split; auto. intros evs s. apply alerts_error_handleAll.
  - change (deliverAll getLatestAlert getLatestEmotion (d :: ds) h)
      with (deliverAll getLatestAlert getLatestEmotion ds
              (deliver getLatestAlert getLatestEmotion h d)).
    destruct (IH (deliver getLatestAlert getLatestEmotion h d))
      as (H1 & H2 & H3 & H4).
    repeat split; [| | |exact H4].
    + intros H. apply H1.
      destruct d as [[val|err]|[val|err]|[val|err]]; simpl; auto; discriminate.
    + intros H. apply H2.
      destruct d as [[val|err]|[val|err]|[val|err]]; simpl; auto; discriminate.
    + intros H. apply H3.
      destruct d as [[val|err]|[val|err]|[val|err]]; simpl; auto; discriminate.
Qed.

End WithLatest.

Lemma errors_never_cleared_witness :
  let ds := [ToAlerts (Cancelled {| message := "permission_denied" |});
             ToAlerts (Snapshot (Some Scenarios.scenarioB));
             ToStats (StatsSnapshot None)] in
  let h := deliverAll (fun _ => None) (fun _ => None) ds mounted in
  Alerts.error (alertsHook h) <> None /\
  Alerts.alerts (alertsHook h) = Scenarios.scenarioB.
Proof.
  intros ds h. split; [|reflexivity].
  destruct (errors_never_cleared (fun _ => None) (fun _ => None)
              [ToAlerts (Snapshot (Some Scenarios.scenarioB));
               ToStats (StatsSnapshot None)]
              (deliver (fun _ => None) (fun _ => None) mounted
                 (ToAlerts (Cancelled {| message := "permission_denied" |}))))
    as (_ & H2 & _).
  apply H2. discriminate.
Defined.

End StatsMirrorFacts.

(* ================================================================== *)
(** * The latest record held by the two mirror hooks *)

Module MirrorMore.

Import Stats Mirror.
Unset Implicit Arguments.

Lemma alerts_latest_invariant
      (getLatest : Mapping Alert.t -> option Alert.t) evs :
  forall s,
    Alerts.latestAlert s = getLatest (Alerts.alerts s) ->
    Alerts.latestAlert (Alerts.handleAll getLatest evs s)
    = getLatest (Alerts.alerts (Alerts.handleAll getLatest evs s)).
Proof.
  unfold Alerts.handleAll.
  induction evs as [|[val|err] evs IH]; intros s Hs; simpl;
    [exact Hs| |]; apply IH; simpl; [reflexivity|exact Hs].
Qed.

Lemma emotions_latest_invariant
      (getLatest : Mapping Emotion.t -> option Emotion.t) evs :
  forall s,
    Emotions.latestEmotion s = getLatest (Emotions.emotions s) ->
    Emotions.latestEmotion (Emotions.handleAll getLatest evs s)
    = getLatest (Emotions.emotions (Emotions.handleAll getLatest evs s)).
Proof.
  unfold Emotions.handleAll.
  induction evs as [|[val|err] evs IH]; intros s Hs; simpl;
    [exact Hs| |]; apply IH; simpl; [reflexivity|exact Hs].
Qed.

(** X19.  In both mirror hooks the latest record and the mapping never
    drift apart: with a selection function that gives [null] on the empty
    mapping, as [getLatestAlert] and [getLatestEmotion] do, after any
    sequence of snapshots (also of [null]) and errors from the initial
    state, [latestAlert] is the selection from the held [alerts] and
    [latestEmotion] the selection from the held [emotions]. *)
Theorem latest_is_latest_of_held_mapping
        (getLatestAlert : Mapping Alert.t -> option Alert.t)
        (getLatestEmotion : Mapping Emotion.t -> option Emotion.t) :
  getLatestAlert [] = None ->
  getLatestEmotion [] = None ->
  (forall evs,
      Alerts.latestAlert (Alerts.handleAll getLatestAlert evs Alerts.initial)
      = getLatestAlert
          (Alerts.alerts
             (Alerts.handleAll getLatestAlert evs Alerts.initial))) /\
  (forall evs,
      Emotions.latestEmotion
        (Emotions.handleAll getLatestEmotion evs Emotions.initial)
      = getLatestEmotion
          (Emotions.emotions
             (Emotions.handleAll getLatestEmotion evs Emotions.initial))).
Proof.
  intros Ha He. split; intros evs.
  - apply alerts_latest_invariant. simpl. now rewrite Ha.
  - apply emotions_latest_invariant. simpl. now rewrite He.
Qed.

Lemma latest_is_latest_of_held_mapping_witness :
  Alerts.latestAlert
    (Alerts.handleAll
       (fun m => option_map snd
                   (Latest.getLatestAlert Latest.scenarioClock m))
       [Snapshot (Some Scenarios.scenarioB);
        Cancelled {| message := "permission denied" |}]
       Alerts.initial)
  = option_map snd
      (Latest.getLatestAlert Latest.scenarioClock Scenarios.scenarioB).
Proof.
  exact (proj1 (latest_is_latest_of_held_mapping
                  (fun m => option_map snd
                              (Latest.getLatestAlert Latest.scenarioClock m))
                  (fun m => option_map snd
                              (Latest.getLatestEmotion Latest.scenarioClock m))
                  eq_refl eq_refl)
               [Snapshot (Some Scenarios.scenarioB);
                Cancelled {| message := "permission denied" |}]).
Defined.

End MirrorMore.

(* ================================================================== *)
(** * More on the statistics screen *)

Module StatsMore.

Import Stats StatsScreen JsArray StatsFacts SortFacts.
Unset Implicit Arguments.
Local Open Scope nat_scope.
Local Open Scope string_scope.
Local Open Scope list_scope.

(** *** Day keys *)

Lemma String_of_Z_head (z : Z) :
  exists c rest, String_of_Z z = String c rest /\ c <> "N"%char.
Proof.
  unfold String_of_Z, NilZero.string_of_int.
  destruct (Z.to_int z) as [d|d].
  - unfold NilZero.string_of_uint.
    destruct d; simpl; eexists; eexists; split; try reflexivity; discriminate.
  - eexists; eexists; split; [reflexivity|discriminate].
Qed.

Lemma validKey_not_NaN (f : LocalFields) :
  formatDateKey (ValidDate f) <> "NaN-NaN-NaN".
Proof.
  unfold formatDateKey.
  destruct (String_of_Z_head (fullYear f)) as (c & rest & -> & Hc).
  simpl. intros E. inversion E. contradiction.
Qed.

Lemma formatDateKey_truthy (d : JsDate) : truthy (formatDateKey d) = true.
Proof.
  destruct d as [|f]; [reflexivity|]. unfold formatDateKey.
  destruct (String_of_Z_head (fullYear f)) as (c & rest & -> & _).
  reflexivity.
Qed.

Section WithRuntime.
Context {rt : Runtime}.

Lemma visitEmotion_throws dayKey st e :
  List.length (EmotionDay.hourly st) = 24 ->
  match visitEmotion dayKey st e with
  | Returns st' => List.length (EmotionDay.hourly st') = 24
  | Throws => dayKey = "NaN-NaN-NaN"
  end.
Proof.
  intros Hlen. unfold visitEmotion.
  destruct (negb (truthy (Emotion.timestamp e))
            || negb (truthy (Emotion.emotion e))); [exact Hlen|].
  destruct (formatDateKey (Date_parse (Emotion.timestamp e)) =? dayKey)
    eqn:Hkey; simpl; [|exact Hlen].
  destruct (Date_parse (Emotion.timestamp e)) as [|f] eqn:Hd; simpl.
  { apply String.eqb_eq in Hkey. now simpl in Hkey. }
  assert (Hh : hours f < 24) by (apply Nat.ltb_lt, hours_range).
  destruct (bump_returns EmotionHour.incTotal (hours f) (EmotionDay.hourly st))
    as [h1 E1]; [lia|].
  rewrite E1; simpl. pose proof (bump_length _ _ _ _ E1) as L1.
  destruct (bump_returns
              (EmotionHour.incCounts
                 (incCount (toLowerCase (Emotion.emotion e))))
              (hours f) h1) as [h2 E2]; [lia|].
  rewrite E2; simpl. pose proof (bump_length _ _ _ _ E2) as L2. lia.
Qed.

(** X20.  Neither [computeDayStats] nor [computeEmotionDayStats] throws
    on the key of a real date: for every mapping, whatever the timestamps
    in it, and every valid [Date], both return a result for
    [formatDateKey] of that date; in particular for today's key, which the
    screen falls back to. *)
Theorem stats_total_on_valid_keys
        (alerts : Mapping Alert.t) (emotions : Mapping Emotion.t)
        (f : LocalFields) :
  (exists r, computeDayStats alerts (formatDateKey (ValidDate f))
             = Returns r) /\
  (exists r, computeEmotionDayStats emotions (formatDateKey (ValidDate f))
             = Returns r).
Proof.
  split.
  - pose proof (computeDayStats_result alerts (formatDateKey (ValidDate f)))
      as H.
    destruct (computeDayStats alerts _) as [r|]; [eauto|].
    destruct H as [H _]. now apply validKey_not_NaN in H.
  - unfold computeEmotionDayStats.
    pose proof (forEach_invariant
                  (fun st => List.length (EmotionDay.hourly st) = 24)
                  (formatDateKey (ValidDate f) = "NaN-NaN-NaN")
                  (visitEmotion (formatDateKey (ValidDate f)))
                  (Object_values emotions)
                  (fun s x _ Hs => visitEmotion_throws _ s x Hs)
                  emptyEmotionDay eq_refl) as H.
    destruct (forEach _ (Object_values emotions) emptyEmotionDay) as [st|].
    + simpl. eauto.
    + now apply validKey_not_NaN in H.
Qed.

Lemma getAvailableDays_truthy now alerts emotions k :
  In k (getAvailableDays now alerts emotions) -> truthy k = true.
Proof.
  destruct (getAvailableDays_shape now alerts emotions)
    as (days & Hres & _ & _ & Hmem).
  rewrite Hres. intros Hk.
  assert (Hd : In k days -> truthy k = true).
  { intros H. apply Hmem in H as [(a & _ & _ & <-)|(e & _ & _ & <-)];
      apply formatDateKey_truthy. }
  destruct (Array_includes _ days); [now apply Hd|].
  destruct Hk as [<-|Hk]; [apply formatDateKey_truthy|now apply Hd].
Qed.

(** X21.  The list of days is computed when the records change, with the
    clock of that moment, and the day shown is read from it at every
    render, with the clock of the render as fallback.  With the selected
    index inside the list the day shown is the entry at that index, hence
    one of the days offered, whatever the clocks; with an index past the
    end it is today's key at the time of the render, which is one of the
    days offered when that is the day on which the list was computed. *)
Theorem selectedDay_is_available
        (now render : LocalFields) (alerts : Mapping Alert.t)
        (emotions : Mapping Emotion.t) (selectedDayIdx : nat) :
  let availableDays := getAvailableDays now alerts emotions in
  (forall k, nth_error availableDays selectedDayIdx = Some k ->
             selectedDay render availableDays selectedDayIdx = k) /\
  (selectedDayIdx < List.length availableDays ->
   In (selectedDay render availableDays selectedDayIdx) availableDays) /\
  (List.length availableDays <= selectedDayIdx ->
   selectedDay render availableDays selectedDayIdx
   = formatDateKey (ValidDate render)) /\
  (formatDateKey (ValidDate render) = formatDateKey (ValidDate now) ->
   In (selectedDay render availableDays selectedDayIdx) availableDays).
Proof.
  cbv zeta.
  assert (Hentry : forall k,
             nth_error (getAvailableDays now alerts emotions) selectedDayIdx
             = Some k ->
             selectedDay render (getAvailableDays now alerts emotions)
                         selectedDayIdx = k).
  { intros k E. unfold selectedDay. rewrite E.
    now rewrite (getAvailableDays_truthy now alerts emotions k
                   (nth_error_In _ _ E)). }
  split; [exact Hentry|]. split; [|split].
  - intros Hlt.
    destruct (nth_error (getAvailableDays now alerts emotions)
                        selectedDayIdx) as [k|] eqn:E.
    + rewrite (Hentry k eq_refl). eapply nth_error_In; eauto.
    + apply nth_error_None in E. lia.
  - intros Hge. unfold selectedDay.
    apply nth_error_None in Hge. now rewrite Hge.
  - intros Hsame.
    destruct (nth_error (getAvailableDays now alerts emotions)
                        selectedDayIdx) as [k|] eqn:E.
    + rewrite (Hentry k eq_refl). eapply nth_error_In; eauto.
    + unfold selectedDay. rewrite E, Hsame.
      apply getAvailableDays_has_today.
Qed.

(** X22.  [getAvailableDays] returns the day keys of the records that
    have a timestamp, each once, in descending order of the strings, with
    today's key put in front exactly when no record has it; so the list
    has no duplicates, always contains today's key and is never empty. *)
Theorem getAvailableDays_contents
        (now : LocalFields) (alerts : Mapping Alert.t)
        (emotions : Mapping Emotion.t) :
  let today := formatDateKey (ValidDate now) in
  let result := getAvailableDays now alerts emotions in
  (exists days,
      NoDup days /\
      Sorted (fun a b => (b <=? a) = true) days /\
      (forall k,
          In k days <->
          (exists a, In a (Object_values alerts) /\
                     truthy (Alert.timestamp a) = true /\
                     formatDateKey (Date_parse (Alert.timestamp a)) = k) \/
          (exists e, In e (Object_values emotions) /\
                     truthy (Emotion.timestamp e) = true /\
                     formatDateKey (Date_parse (Emotion.timestamp e)) = k)) /\
      (In today days -> result = days) /\
      (~ In today days -> result = today :: days)) /\
  NoDup result /\
  In today result /\
  result <> [].
Proof.
  cbv zeta.
  split; [|split; [apply getAvailableDays_NoDup|
                   split; [apply getAvailableDays_has_today|
                           apply getAvailableDays_nonempty]]].
  destruct (getAvailableDays_shape now alerts emotions)
    as (days & Hres & Hnd & Hsorted & Hmem).
  exists days. split; [exact Hnd|]. split; [exact Hsorted|].
  split; [exact Hmem|].
  rewrite Hres. unfold Array_includes.
  destruct (existsb (String.eqb (formatDateKey (ValidDate now))) days) eqn:E.
  - split; [reflexivity|]. intros Hnot. exfalso. apply Hnot.
    apply existsb_exists in E as (x & Hx & Ex).
    apply String.eqb_eq in Ex. now subst.
  - split; [|reflexivity]. intros Hin. exfalso.
    assert (existsb (String.eqb (formatDateKey (ValidDate now))) days = true);
      [|congruence].
    apply existsb_exists. exists (formatDateKey (ValidDate now)).
    split; [exact Hin|apply String.eqb_refl].
Qed.

End WithRuntime.

(** X23.  With the selected index inside the list, the two arrows keep
    it inside through any sequence of presses; the older-day arrow moves
    it by one except at the last index, where it does nothing, and the
    newer-day arrow moves it by one except at index 0, where it does
    nothing: no error and no wrap-around. *)
Theorem day_arrows_stay_in_list
        (availableDays : list string) (idx : nat) :
  idx < List.length availableDays ->
  (forall ps,
      fold_left (fun i p => press availableDays p i) ps idx
      < List.length availableDays) /\
  pressPrev availableDays idx
  = (if idx =? List.length availableDays - 1 then idx else idx + 1)%nat /\
  pressNext idx = (if idx =? 0 then idx else idx - 1)%nat.
Proof.
  intros H. split; [intros ps; now apply presses_in_range|]. split.
  - unfold pressPrev, canGoPrev.
    destruct (Nat.eqb_spec idx (List.length availableDays - 1));
      destruct (Z.ltb_spec (Z.of_nat idx)
                           (Z.of_nat (List.length availableDays) - 1)); lia.
  - unfold pressNext, canGoNext. now destruct idx.
Qed.

Lemma day_arrows_stay_in_list_witness :
  fold_left (fun i p => press ["2024-05-03"; "2024-05-02"; "2024-05-01"] p i)
            [Next; Prev; Prev; Prev; Prev; Next] 0 < 3.
Proof.
  assert (H : 0 < List.length ["2024-05-03"; "2024-05-02"; "2024-05-01"])
    by (simpl; lia).
  exact (proj1 (day_arrows_stay_in_list
                  ["2024-05-03"; "2024-05-02"; "2024-05-01"] 0 H)
               [Next; Prev; Prev; Prev; Prev; Next]).
Defined.

Lemma selectedDay_is_available_witness :
  let availableDays :=
    @getAvailableDays Scenarios.runtime Scenarios.may2_0900
      Scenarios.scenarioB [] in
  In (selectedDay Scenarios.may3_0100 availableDays 1) availableDays.
Proof.
  intros availableDays.
  destruct (@selectedDay_is_available Scenarios.runtime Scenarios.may2_0900
              Scenarios.may3_0100 Scenarios.scenarioB [] 1)
    as (_ & H & _).
  apply H. vm_compute. repeat constructor.
Defined.

(** *** The three rates *)

Lemma rate_positive (n t : nat) :
  0 < t ->
  (if js_gt (of_nat t) (Fin 0)
   then js_mul (js_div (of_nat n) (of_nat t)) (Fin 100)
   else Fin 0)
  = Fin (inject_Z (Z.of_nat n) / inject_Z (Z.of_nat t) * 100).
Proof.
  intros H. rewrite of_nat_positive.
  apply Nat.ltb_lt in H. rewrite H. unfold of_nat, js_div.
  apply Nat.ltb_lt in H. rewrite (inject_nat_nonzero _ H). reflexivity.
Qed.

Lemma share_bounds (n t : nat) :
  0 < t -> n <= t ->
  (0 <= inject_Z (Z.of_nat n) / inject_Z (Z.of_nat t) * 100 /\
   inject_Z (Z.of_nat n) / inject_Z (Z.of_nat t) * 100 <= 100)%Q.
Proof.
  intros Ht Hn.
  set (q := inject_Z (Z.of_nat t)). set (p := inject_Z (Z.of_nat n)).
  assert (Hq : (0 < q)%Q).
  { subst q. change 0%Q with (inject_Z 0). rewrite <- Zlt_Qlt. lia. }
  assert (Hp0 : (0 <= p)%Q).
  { subst p. change 0%Q with (inject_Z 0). rewrite <- Zle_Qle. lia. }
  assert (Hpq : (p <= q)%Q) by (subst p q; rewrite <- Zle_Qle; lia).
  assert (H0 : (0 <= p / q)%Q).
  { apply Qle_shift_div_l; [exact Hq|]. now rewrite Qmult_0_l. }
  assert (H1 : (p / q <= 1)%Q).
  { apply Qle_shift_div_r; [exact Hq|]. now rewrite Qmult_1_l. }
  split; lra.
Qed.

Section Rates.
Context {rt : Runtime}.

(** X24.  On every result of [computeDayStats] each of the drowsy,
    yawning and safe rates of the day is a finite number between 0 and
    100; on a day without alerts they are 0, 0 and 100. *)
Theorem day_rates_in_range
        (alerts : Mapping Alert.t) (dayKey : string) (r : Day.t) :
  computeDayStats alerts dayKey = Returns r ->
  exists qd qy qs : Q,
    dayDrowsyRate r = Fin qd /\
    dayYawnRate r = Fin qy /\
    daySafeRate r = Fin qs /\
    (0 <= qd /\ qd <= 100)%Q /\
    (0 <= qy /\ qy <= 100)%Q /\
    (0 <= qs /\ qs <= 100)%Q /\
    (Day.total r = 0 -> (qd == 0 /\ qy == 0 /\ qs == 100)%Q).
Proof.
  intros Hr.
  pose proof (computeDayStats_result alerts dayKey) as Hinv.
  rewrite Hr in Hinv. destruct Hinv as (Hle & _ & _).
  destruct (Nat.eq_dec (Day.total r) 0) as [Hz|Hnz].
  - exists 0%Q, 0%Q, 100%Q.
    unfold dayDrowsyRate, dayYawnRate.
    rewrite (daySafeRate_zero r Hz), of_nat_positive, Hz. simpl.
    repeat split; try reflexivity; discriminate.
  - assert (Ht : 0 < Day.total r) by lia.
    exists (inject_Z (Z.of_nat (Day.drowsy r))
            / inject_Z (Z.of_nat (Day.total r)) * 100)%Q,
           (inject_Z (Z.of_nat (Day.yawn r))
            / inject_Z (Z.of_nat (Day.total r)) * 100)%Q,
           (safeRateFormula r).
    split; [apply (rate_positive _ _ Ht)|].
    split; [apply (rate_positive _ _ Ht)|].
    split; [now apply daySafeRate_positive|].
    split; [apply share_bounds; lia|].
    split; [apply share_bounds; lia|].
    split; [now apply safeRateFormula_bounds|].
    intros Hz. lia.
Qed.

End Rates.

Lemma day_rates_in_range_witness :
  exists qd : Q,
    dayDrowsyRate {| Day.total := 2; Day.drowsy := 1; Day.yawn := 1;
                     Day.hourly := [] |} = Fin qd /\
    (0 <= qd /\ qd <= 100)%Q.
Proof.
  destruct (@day_rates_in_range Scenarios.runtime Scenarios.scenarioB
              "2024-05-01" _ eq_refl)
    as (qd & qy & qs & Hd & _ & _ & Hb & _).
  exists qd. split; [exact Hd|exact Hb].
Defined.

(** *** Array updates, once more *)

Lemma bump_nth {B} (f : B -> B) :
  forall i arr out,
    bump f i arr = Returns out ->
    forall j, nth_error out j
              = if (j =? i)%nat then option_map f (nth_error arr j)
                else nth_error arr j.
Proof.
  intros i arr; revert i.
  induction arr as [|b rest IH]; intros [|i] out H j; simpl in H;
    try discriminate.
  - inversion H; subst. destruct j; reflexivity.
  - destruct (bump f i rest) as [r|] eqn:E; simpl in H; [|discriminate].
    inversion H; subst. destruct j as [|j]; simpl; [reflexivity|].
    apply (IH i r E).
Qed.

Lemma bump_twice {B} (f g : B -> B) :
  forall i arr a1 a2,
    bump f i arr = Returns a1 ->
    bump g i a1 = Returns a2 ->
    bump (fun b => g (f b)) i arr = Returns a2.
Proof.
  intros i arr; revert i.
  induction arr as [|b rest IH]; intros [|i] a1 a2 H1 H2; simpl in H1;
    try discriminate.
  - inversion H1; subst. simpl in H2. exact H2.
  - destruct (bump f i rest) as [r1|] eqn:E1; simpl in H1; [|discriminate].
    inversion H1; subst. simpl in H2.
    destruct (bump g i r1) as [r2|] eqn:E2; simpl in H2; [|discriminate].
    inversion H2; subst. simpl. now rewrite (IH i r1 r2 E1 E2).
Qed.

Lemma bump_Forall {B} (P : B -> Prop) (f : B -> B) :
  (forall b, P b -> P (f b)) ->
  forall i arr out,
    Forall P arr -> bump f i arr = Returns out -> Forall P out.
Proof.
  intros Hf i arr; revert i.
  induction arr as [|b rest IH]; intros [|i] out HP H; simpl in H;
    try discriminate; inversion HP; subst.
  - inversion H; subst. constructor; auto.
  - destruct (bump f i rest) as [r|] eqn:E; simpl in H; [|discriminate].
    inversion H; subst. constructor; eauto.
Qed.

(** *** What [computeDayStats] counts *)

Lemma countWhere_cons {A} (test : A -> bool) (x : A) (l : list A) :
  countWhere test (x :: l) = Nat.b2n (test x) + countWhere test l.
Proof. unfold countWhere. simpl. now destruct (test x). Qed.

Lemma countWhere_disjoint {A} (p q r : A -> bool) (l : list A) :
  (forall x, p x = true -> r x = true) ->
  (forall x, q x = true -> r x = true) ->
  (forall x, p x = true -> q x = false) ->
  countWhere p l + countWhere q l <= countWhere r l.
Proof.
  intros Hp Hq Hpq. induction l as [|x l IH]; [reflexivity|].
  rewrite !countWhere_cons.
  specialize (Hp x). specialize (Hq x). specialize (Hpq x).
  destruct (p x), (q x), (r x); simpl; try lia;
    try (specialize (Hp eq_refl)); try (specialize (Hq eq_refl));
    try (specialize (Hpq eq_refl)); try discriminate.
Qed.

Lemma drowsiness_not_yawning (a : Alert.t) :
  isDrowsiness a = true -> isYawning a = false.
Proof.
  unfold isDrowsiness, isYawning. intros H.
  apply String.eqb_eq in H. now rewrite H.
Qed.

Section Counting.
Context {rt : Runtime}.

(** One round of the loop adds the record to the counters it belongs
    to. *)
Lemma visitAlert_counts dayKey st a st' :
  visitAlert dayKey st a = Returns st' ->
  Day.total st' = Day.total st + Nat.b2n (countedAlert dayKey a) /\
  Day.drowsy st'
  = Day.drowsy st + Nat.b2n (countedAlert dayKey a && isDrowsiness a) /\
  Day.yawn st'
  = Day.yawn st + Nat.b2n (countedAlert dayKey a && isYawning a) /\
  forall h b,
    nth_error (Day.hourly st) h = Some b ->
    exists b',
      nth_error (Day.hourly st') h = Some b' /\
      Hour.hour b' = Hour.hour b /\
      Hour.total b'
      = Hour.total b + Nat.b2n (countedAlert dayKey a && alertAtHour h a) /\
      Hour.drowsy b'
      = Hour.drowsy b
        + Nat.b2n (countedAlert dayKey a && alertAtHour h a
                   && isDrowsiness a) /\
      Hour.yawn b'
      = Hour.yawn b
        + Nat.b2n (countedAlert dayKey a && alertAtHour h a && isYawning a).
Proof.
  unfold visitAlert, countedAlert.
  destruct (truthy (Alert.timestamp a)); simpl.
  2:{ intros E; inversion E; subst. repeat split; try lia.
      intros h b Hb. exists b. repeat split; auto; lia. }
  destruct (formatDateKey (Date_parse (Alert.timestamp a)) =? dayKey); simpl.
  2:{ intros E; inversion E; subst. repeat split; try lia.
      intros h b Hb. exists b. repeat split; auto; lia. }
  unfold alertAtHour.
  destruct (getHours (Date_parse (Alert.timestamp a))) as [h0|];
    [|discriminate].
  destruct (bump Hour.incTotal h0 (Day.hourly st)) as [h1|] eqn:E1;
    simpl; [|discriminate].
  pose proof (bump_nth _ _ _ _ E1) as N1.
  assert (Hyd : isDrowsiness a = true -> isYawning a = false)
    by apply drowsiness_not_yawning.
  unfold isDrowsiness, isYawning in *.
  destruct (Alert.type a =? "drowsiness") eqn:Ed.
  - rewrite (Hyd eq_refl).
    destruct (bump Hour.incDrowsy h0 h1) as [h2|] eqn:E2; simpl;
      [|discriminate].
    pose proof (bump_nth _ _ _ _ E2) as N2.
    intros E; inversion E; subst; simpl. repeat split; try lia.
    intros h b Hb. rewrite N2, N1, Hb.
    destruct (Nat.eqb_spec h h0) as [->|Hne].
    + rewrite Nat.eqb_refl. simpl. eexists; split; [reflexivity|].
      simpl. repeat split; lia.
    + assert (E' : (h0 =? h)%nat = false) by (apply Nat.eqb_neq; lia).
      rewrite E'. simpl. exists b. repeat split; auto; lia.
  - destruct (Alert.type a =? "yawning") eqn:Ey.
    + destruct (bump Hour.incYawn h0 h1) as [h2|] eqn:E2; simpl;
        [|discriminate].
      pose proof (bump_nth _ _ _ _ E2) as N2.
      intros E; inversion E; subst; simpl. repeat split; try lia.
      intros h b Hb. rewrite N2, N1, Hb.
      destruct (Nat.eqb_spec h h0) as [->|Hne].
      * rewrite Nat.eqb_refl. simpl. eexists; split; [reflexivity|].
        simpl. repeat split; lia.
      * assert (E' : (h0 =? h)%nat = false) by (apply Nat.eqb_neq; lia).
        rewrite E'. simpl. exists b. repeat split; auto; lia.
    + intros E; inversion E; subst; simpl. repeat split; try lia.
      intros h b Hb. rewrite N1, Hb.
      destruct (Nat.eqb_spec h h0) as [->|Hne].
      * rewrite Nat.eqb_refl. simpl. eexists; split; [reflexivity|].
        simpl. repeat split; lia.
      * assert (E' : (h0 =? h)%nat = false) by (apply Nat.eqb_neq; lia).
        rewrite E'. simpl. exists b. repeat split; auto; lia.
Qed.

Lemma forEach_visitAlert_counts dayKey xs :
  forall st r,
    forEach (visitAlert dayKey) xs st = Returns r ->
    Day.total r = Day.total st + countWhere (countedAlert dayKey) xs /\
    Day.drowsy r
    = Day.drowsy st
      + countWhere (fun a => countedAlert dayKey a && isDrowsiness a) xs /\
    Day.yawn r
    = Day.yawn st
      + countWhere (fun a => countedAlert dayKey a && isYawning a) xs /\
    forall h b,
      nth_error (Day.hourly st) h = Some b ->
      exists b',
        nth_error (Day.hourly r) h = Some b' /\
        Hour.hour b' = Hour.hour b /\
        Hour.total b'
        = Hour.total b
          + countWhere (fun a => countedAlert dayKey a && alertAtHour h a) xs /\
        Hour.drowsy b'
        = Hour.drowsy b
          + countWhere (fun a => countedAlert dayKey a && alertAtHour h a
                                 && isDrowsiness a) xs /\
        Hour.yawn b'
        = Hour.yawn b
          + countWhere (fun a => countedAlert dayKey a && alertAtHour h a
                                 && isYawning a) xs.
Proof.
  induction xs as [|x xs IH]; intros st r H; simpl in H.
  - inversion H; subst. unfold countWhere; simpl. repeat split; try lia.
    intros h b Hb. exists b. repeat split; auto; lia.
  - destruct (visitAlert dayKey st x) as [s1|] eqn:E; simpl in H;
      [|discriminate].
    destruct (visitAlert_counts dayKey st x s1 E) as (T1 & D1 & Y1 & H1).
    destruct (IH s1 r H) as (T2 & D2 & Y2 & H2).
    rewrite !countWhere_cons. repeat split; try lia.
    intros h b Hb.
    destruct (H1 h b Hb) as (b1 & Hb1 & Hh1 & Ht1 & Hd1 & Hy1).
    destruct (H2 h b1 Hb1) as (b2 & Hb2 & Hh2 & Ht2 & Hd2 & Hy2).
    exists b2. rewrite !countWhere_cons. repeat split; auto; lia.
Qed.

Lemma computeDayStats_tally
      (alerts : Mapping Alert.t) (dayKey : string) (r : Day.t) :
  computeDayStats alerts dayKey = Returns r ->
  let records := Object_values alerts in
  let counted := countedAlert dayKey in
  Day.total r = countWhere counted records /\
  Day.drowsy r = countWhere (fun a => counted a && isDrowsiness a) records /\
  Day.yawn r = countWhere (fun a => counted a && isYawning a) records /\
  forall h, h < 24 ->
    exists b,
      nth_error (Day.hourly r) h = Some b /\
      Hour.hour b = h /\
      Hour.total b
      = countWhere (fun a => counted a && alertAtHour h a) records /\
      Hour.drowsy b
      = countWhere (fun a => counted a && alertAtHour h a && isDrowsiness a)
                   records /\
      Hour.yawn b
      = countWhere (fun a => counted a && alertAtHour h a && isYawning a)
                   records /\
      Hour.drowsy b + Hour.yawn b <= Hour.total b.
Proof.
  intros Hr records counted.
  destruct (forEach_visitAlert_counts dayKey records emptyDay r Hr)
    as (T & D & Y & H).
  repeat split; auto.
  intros h Hh.
  assert (Hb : nth_error (Day.hourly emptyDay) h
               = Some {| Hour.hour := h; Hour.drowsy := 0;
                         Hour.yawn := 0; Hour.total := 0 |}).
  { unfold emptyDay, Day.hourly.
    rewrite nth_error_map, nth_error_seq.
    apply Nat.ltb_lt in Hh. now rewrite Hh. }
  destruct (H h _ Hb) as (b & Hnth & Hhour & Ht & Hd & Hy).
  simpl in *. exists b. repeat split; auto.
  rewrite Ht, Hd, Hy. apply countWhere_disjoint.
  - intros x Hx. apply andb_true_iff in Hx. tauto.
  - intros x Hx. apply andb_true_iff in Hx. tauto.
  - intros x Hx. apply andb_true_iff in Hx as [_ Hx].
    rewrite (drowsiness_not_yawning x Hx). apply andb_false_r.
Qed.

(** X25.  A result of [computeDayStats] counts exactly the records of the
    day: [total] is the number of records with a timestamp whose local
    date is the day key, [drowsy] and [yawn] the numbers of those of type
    "drowsiness" and "yawning", and for each hour [h] of the day bucket
    [h] has [hour = h] and holds the same three numbers for the records
    of that hour; so in every bucket [drowsy + yawn <= total]. *)
Theorem computeDayStats_counts
        (alerts : Mapping Alert.t) (dayKey : string) (r : Day.t) :
  computeDayStats alerts dayKey = Returns r ->
  let records := Object_values alerts in
  let counted := countedAlert dayKey in
  Day.total r = countWhere counted records /\
  Day.drowsy r = countWhere (fun a => counted a && isDrowsiness a) records /\
  Day.yawn r = countWhere (fun a => counted a && isYawning a) records /\
  forall h, h < 24 ->
    exists b,
      nth_error (Day.hourly r) h = Some b /\
      Hour.hour b = h /\
      Hour.total b
      = countWhere (fun a => counted a && alertAtHour h a) records /\
      Hour.drowsy b
      = countWhere (fun a => counted a && alertAtHour h a && isDrowsiness a)
                   records /\
      Hour.yawn b
      = countWhere (fun a => counted a && alertAtHour h a && isYawning a)
                   records /\
      Hour.drowsy b + Hour.yawn b <= Hour.total b.
Proof. exact (computeDayStats_tally alerts dayKey r). Qed.

(** *** The hourly chart *)

Lemma computeDayStats_bucket
      (alerts : Mapping Alert.t) (dayKey : string) (r : Day.t) (b : Hour.t) :
  computeDayStats alerts dayKey = Returns r ->
  In b (Day.hourly r) ->
  Hour.hour b < 24 /\ Hour.drowsy b + Hour.yawn b <= Hour.total b.
Proof.
  intros Hr Hb.
  pose proof (computeDayStats_result alerts dayKey) as Hinv.
  rewrite Hr in Hinv. destruct Hinv as (_ & _ & Hlen).
  destruct (In_nth_error _ _ Hb) as (h & Hh).
  assert (Hlt : h < 24).
  { rewrite <- Hlen. apply nth_error_Some. now rewrite Hh. }
  destruct (computeDayStats_tally alerts dayKey r Hr) as (_ & _ & _ & H).
  destruct (H h Hlt) as (b' & Hb' & Hhour & _ & _ & _ & Hle).
  rewrite Hh in Hb'. inversion Hb'; subst b'. split; [lia|exact Hle].
Qed.

End Counting.

Lemma computeDayStats_counts_witness :
  exists r b,
    @computeDayStats Scenarios.runtime Scenarios.scenarioB "2024-05-01"
      = Returns r /\
    Day.total r = 2 /\
    nth_error (Day.hourly r) 10 = Some b /\
    Hour.drowsy b + Hour.yawn b <= Hour.total b.
Proof.
  destruct (@computeDayStats_counts Scenarios.runtime Scenarios.scenarioB
              "2024-05-01" _ eq_refl) as (T & _ & _ & H).
  destruct (H 10 ltac:(lia)) as (b & Hb & _ & _ & _ & _ & Hle).
  eexists. exists b. split; [reflexivity|].
  split; [exact T|]. split; [exact Hb|exact Hle].
Defined.

Lemma fold_max_bounds (l : list nat) :
  forall a,
    a <= fold_left Nat.max l a /\
    Forall (fun x => x <= fold_left Nat.max l a) l.
Proof.
  induction l as [|x l IH]; intros a; simpl.
  - split; [lia|constructor].
  - destruct (IH (Nat.max a x)) as [H1 H2]. split; [lia|].
    constructor; [lia|exact H2].
Qed.

Lemma fold_max_attained (l : list nat) :
  forall a, fold_left Nat.max l a = a \/ In (fold_left Nat.max l a) l.
Proof.
  induction l as [|x l IH]; intros a; simpl; [now left|].
  destruct (IH (Nat.max a x)) as [H|H]; [|now right; right].
  rewrite H. destruct (Nat.max_spec a x) as [[_ E]|[_ E]]; rewrite E; auto.
Qed.

Lemma segment_share (n m : nat) :
  0 < m -> n <= m ->
  exists q : Q, barHeight n m = Fin q /\ (0 <= q)%Q /\ (q <= 100)%Q.
Proof.
  intros Hm Hle.
  exists (inject_Z (Z.of_nat n) / inject_Z (Z.of_nat m) * 100)%Q.
  unfold barHeight, of_nat, js_div.
  rewrite (inject_nat_nonzero _ Hm). simpl js_mul.
  split; [reflexivity|]. apply share_bounds; lia.
Qed.

Section Chart.
Context {rt : Runtime}.

(** X26.  In the hourly chart of a computed day the scale [maxHourly] is
    the largest hourly total, or 1 when every hour is empty; in every
    bar the drowsy and yawning counts together do not exceed the scale,
    and the height of each of the two segments is a finite number between
    0 and 100 percent. *)
Theorem hourly_bars_fit
        (alerts : Mapping Alert.t) (dayKey : string) (r : Day.t) :
  computeDayStats alerts dayKey = Returns r ->
  1 <= maxHourly r /\
  (maxHourly r = 1 \/ exists b, In b (Day.hourly r) /\
                                Hour.total b = maxHourly r) /\
  forall b, In b (Day.hourly r) ->
    Hour.total b <= maxHourly r /\
    Hour.drowsy b + Hour.yawn b <= maxHourly r /\
    (exists q : Q, barHeight (Hour.yawn b) (maxHourly r) = Fin q /\
                   (0 <= q)%Q /\ (q <= 100)%Q) /\
    (exists q : Q, barHeight (Hour.drowsy b) (maxHourly r) = Fin q /\
                   (0 <= q)%Q /\ (q <= 100)%Q).
Proof.
  intros Hr. unfold maxHourly.
  destruct (fold_max_bounds (map Hour.total (Day.hourly r)) 1) as [H1 Hall].
  split; [exact H1|]. split.
  - destruct (fold_max_attained (map Hour.total (Day.hourly r)) 1)
      as [E|E]; [now left|right].
    apply in_map_iff in E as (b & Eb & Hb). now exists b.
  - intros b Hb.
    assert (Ht : Hour.total b
                 <= fold_left Nat.max (map Hour.total (Day.hourly r)) 1).
    { rewrite Forall_forall in Hall. apply Hall. now apply in_map. }
    split; [exact Ht|].
    destruct (computeDayStats_bucket alerts dayKey r b Hr Hb) as [_ Hle].
    split; [lia|]. split; apply segment_share; lia.
Qed.

End Chart.

Lemma hourly_bars_fit_witness :
  exists r,
    @computeDayStats Scenarios.runtime Scenarios.scenarioB "2024-05-01"
      = Returns r /\
    1 <= maxHourly r /\
    forall b, In b (Day.hourly r) -> Hour.total b <= maxHourly r.
Proof.
  eexists. split; [reflexivity|].
  destruct (@hourly_bars_fit Scenarios.runtime Scenarios.scenarioB
              "2024-05-01" _ eq_refl) as (H1 & _ & H).
  split; [exact H1|]. intros b Hb. exact (proj1 (H b Hb)).
Defined.

(** *** The emotion statistics of a day *)

Lemma sum_setCount em v c :
  list_sum (map snd (setCount em v c)) + getCount em c
  = list_sum (map snd c) + v.
Proof.
  induction c as [|[k c0] rest IH]; simpl; [lia|].
  destruct (k =? em); simpl; lia.
Qed.

Lemma sum_incCount em c :
  list_sum (map snd (incCount em c)) = S (list_sum (map snd c)).
Proof.
  unfold incCount.
  pose proof (sum_setCount em (getCount em c + 1) c). lia.
Qed.

Lemma positive_setCount em v c :
  1 <= v ->
  Forall (fun entry : string * nat => 1 <= snd entry) c ->
  Forall (fun entry : string * nat => 1 <= snd entry) (setCount em v c).
Proof.
  intros Hv. induction c as [|[k c0] rest IH]; simpl; intros H.
  - repeat constructor. exact Hv.
  - inversion H; subst. destruct (k =? em); constructor; auto.
Qed.

Lemma positive_incCount em c :
  Forall (fun entry : string * nat => 1 <= snd entry) c ->
  Forall (fun entry : string * nat => 1 <= snd entry) (incCount em c).
Proof. intros H. apply positive_setCount; [lia|exact H]. Qed.

Lemma sum_tally L :
  forall c,
    list_sum (map snd (fold_left (fun c em => incCount em c) L c))
    = list_sum (map snd c) + List.length L.
Proof.
  induction L as [|em L IH]; intros c; simpl; [lia|].
  rewrite IH, sum_incCount. lia.
Qed.

Lemma entry_le_sum (c : Mapping nat) (k : string) (v : nat) :
  In (k, v) c -> v <= list_sum (map snd c).
Proof.
  induction c as [|[k0 v0] rest IH]; simpl; [tauto|].
  intros [E|H]; [inversion E; lia|]. specialize (IH H). lia.
Qed.

Lemma emptyEmotionDay_inv : EmotionInv emptyEmotionDay.
Proof.
  unfold EmotionInv, emptyEmotionDay; simpl.
  split; [reflexivity|]. split; [reflexivity|]. split; [reflexivity|].
  split; [repeat (constructor; [reflexivity|]); constructor|].
  split; constructor.
Qed.

Section EmotionTables.
Context {rt : Runtime}.

Lemma visitEmotion_inv dayKey st e :
  EmotionInv st ->
  match visitEmotion dayKey st e with
  | Returns st' => EmotionInv st'
  | Throws => True
  end.
Proof.
  intros (Hsum & Hlen & Hc & Hb & Hnd & Hpos). unfold visitEmotion.
  destruct (negb (truthy (Emotion.timestamp e))
            || negb (truthy (Emotion.emotion e)));
    [repeat split; assumption|].
  destruct (negb (formatDateKey (Date_parse (Emotion.timestamp e)) =? dayKey));
    [repeat split; assumption|].
  destruct (getHours (Date_parse (Emotion.timestamp e))) as [h|]; [|exact I].
  destruct (bump EmotionHour.incTotal h (EmotionDay.hourly st)) as [h1|] eqn:E1;
    simpl; [|exact I].
  destruct (bump (EmotionHour.incCounts
                    (incCount (toLowerCase (Emotion.emotion e)))) h h1)
    as [h2|] eqn:E2; simpl; [|exact I].
  unfold EmotionInv; simpl.
  split.
  { assert (G2 : forall b,
               EmotionHour.total
                 (EmotionHour.incCounts
                    (incCount (toLowerCase (Emotion.emotion e))) b)
               = EmotionHour.total b + 0) by (intros b; simpl; lia).
    assert (G1 : forall b, EmotionHour.total (EmotionHour.incTotal b)
                           = EmotionHour.total b + 1)
      by (intros b; simpl; lia).
    rewrite (bump_sum EmotionHour.total _ 0 G2 _ _ _ E2).
    rewrite (bump_sum EmotionHour.total _ 1 G1 _ _ _ E1).
    lia. }
  split.
  { now rewrite (bump_length _ _ _ _ E2), (bump_length _ _ _ _ E1). }
  split; [rewrite sum_incCount; lia|].
  split.
  { pose proof (bump_twice _ _ _ _ _ _ E1 E2) as E12.
    refine (bump_Forall _ _ _ _ _ _ Hb E12).
    intros b Hbk. simpl. rewrite sum_incCount. lia. }
  split; [now apply NoDup_keys_incCount|now apply positive_incCount].
Qed.

Lemma computeEmotionDayStats_inv
      (emotions : Mapping Emotion.t) (dayKey : string) (r : EmotionDay.t) :
  computeEmotionDayStats emotions dayKey = Returns r ->
  EmotionInv r /\
  EmotionDay.total r = List.length (dayLabels emotions dayKey) /\
  EmotionDay.dominant r = findDominant (EmotionDay.counts r).
Proof.
  unfold computeEmotionDayStats. intros H.
  destruct (forEach (visitEmotion dayKey) (Object_values emotions)
                    emptyEmotionDay) as [st|] eqn:E; simpl in H;
    [|discriminate].
  inversion H; subst r; clear H.
  pose proof (forEach_invariant EmotionInv True (visitEmotion dayKey)
                (Object_values emotions)
                (fun s x _ Hs => visitEmotion_inv dayKey s x Hs)
                emptyEmotionDay emptyEmotionDay_inv) as Hinv.
  rewrite E in Hinv.
  split; [exact Hinv|]. split; [|reflexivity]. simpl.
  destruct Hinv as (_ & _ & Hc & _).
  rewrite <- Hc, (forEach_counts _ _ _ _ E), sum_tally. reflexivity.
Qed.

End EmotionTables.

(** *** The sorted list of emotions *)

Lemma countAfter_consistent (l : list (string * nat)) :
  consistentOn countAfter countKey l.
Proof.
  intros x y _ _. unfold countAfter, countKey, of_nat.
  apply LatestFacts.positive_difference.
Qed.

Lemma countKey_lt (a b : string * nat) :
  (countKey a < countKey b)%Q <-> snd a < snd b.
Proof. unfold countKey. rewrite <- Zlt_Qlt. lia. Qed.

Lemma countKey_le (a b : string * nat) :
  (countKey a <= countKey b)%Q <-> snd a <= snd b.
Proof. unfold countKey. rewrite <- Zle_Qle. lia. Qed.

Lemma Sorted_weaken {A} (R1 R2 : A -> A -> Prop) (l : list A) :
  (forall a b, R1 a b -> R2 a b) -> Sorted R1 l -> Sorted R2 l.
Proof.
  intros HR. induction 1 as [|a l Hs IH Hhd]; constructor; auto.
  destruct Hhd; constructor; auto.
Qed.

(** On a list of entries with distinct categories and a positive count,
    the first entry of the sorted list is the entry the scan for the
    dominant emotion stops at. *)
Lemma sorted_head_is_scanned (c : Mapping nat) :
  NoDup (map fst c) ->
  Forall (fun entry : string * nat => 1 <= snd entry) c ->
  c <> [] ->
  exists rest,
    sortBy countAfter c = fold_left scanDominant c ("neutral", 0) :: rest.
Proof.
  intros Hnd Hpos Hne.
  destruct (sortBy countAfter c) as [|e rest] eqn:Hs.
  { exfalso. apply Hne. apply length_zero_iff_nil.
    now rewrite <- (sortBy_length countAfter c), Hs. }
  exists rest. f_equal.
  destruct (sortBy_head _ countAfter countKey c (countAfter_consistent c)
              e rest Hs) as (pre & post & Hsplit & Hpre & Hpost).
  pose proof (scanDominant_fold c "neutral" 0) as Hscan. cbv zeta in Hscan.
  set (res := fold_left scanDominant c ("neutral", 0)) in *.
  destruct Hscan as (Hmax & _ & [[Hres Hall]|[Hlt Hex]]).
  { exfalso. destruct c as [|[k v] c']; [now apply Hne|].
    inversion Hpos; subst. simpl in *.
    specialize (Hall k v (or_introl eq_refl)). lia. }
  destruct Hex as (pre' & post' & Hsplit' & Hpre').
  assert (Hndc : NoDup c) by (now apply NoDup_map_inv in Hnd).
  assert (He : snd e <= snd res).
  { destruct e as [k v]. apply (Hmax k v). rewrite Hsplit.
    apply in_or_app. right. now left. }
  assert (Hin : In res c).
  { rewrite Hsplit'. apply in_or_app. right. now left. }
  rewrite Hsplit in Hin. apply in_app_or in Hin as [Hin|[Hin|Hin]].
  - apply Hpre, countKey_lt in Hin. lia.
  - exact Hin.
  - exfalso. pose proof (proj1 (countKey_le _ _) (Hpost _ Hin)) as Hle.
    apply in_split in Hin as (p1 & p2 & Hpost').
    assert (Eq : (pre ++ e :: p1) ++ res :: p2 = pre' ++ res :: post').
    { rewrite <- Hsplit', Hsplit, Hpost', <- app_assoc. reflexivity. }
    assert (Hnd' : NoDup ((pre ++ e :: p1) ++ res :: p2)).
    { rewrite <- app_assoc. simpl. rewrite <- Hpost', <- Hsplit. exact Hndc. }
    pose proof (NoDup_split_unique res _ _ _ _ Hnd' Eq) as Hpe.
    assert (Hein : In e pre').
    { rewrite <- Hpe. apply in_or_app. right. now left. }
    destruct e as [k v]. specialize (Hpre' k v Hein). simpl in Hle. lia.
Qed.

Lemma emotion_share (c t : nat) :
  1 <= c -> c <= t ->
  exists q : Q,
    js_mul (js_div (of_nat c) (of_nat t)) (Fin 100) = Fin q /\
    (0 < q)%Q /\ (q <= 100)%Q.
Proof.
  intros Hc Ht.
  assert (Hpos : 0 < t) by lia.
  exists (inject_Z (Z.of_nat c) / inject_Z (Z.of_nat t) * 100)%Q.
  unfold of_nat, js_div. rewrite (inject_nat_nonzero _ Hpos). simpl js_mul.
  split; [reflexivity|].
  split; [|apply share_bounds; lia].
  assert (Hq : (0 < inject_Z (Z.of_nat t))%Q).
  { change 0%Q with (inject_Z 0). rewrite <- Zlt_Qlt. lia. }
  assert (Hp : (0 < inject_Z (Z.of_nat c))%Q).
  { change 0%Q with (inject_Z 0). rewrite <- Zlt_Qlt. lia. }
  assert (H0 : (0 < inject_Z (Z.of_nat c) / inject_Z (Z.of_nat t))%Q).
  { apply Qlt_shift_div_l; [exact Hq|]. now rewrite Qmult_0_l. }
  lra.
Qed.

Section SortedEmotions.
Context {rt : Runtime}.

(** Over tables of numbers: the sorted list has the entries of
    [counts], each once, in descending order of count; when the day has a
    reading its first entry is the dominant emotion; and each percentage
    is a finite number above 0 and at most 100. *)
Lemma table_sortedEmotions
        (emotions : Mapping Emotion.t) (dayKey : string) (r : EmotionDay.t) :
  computeEmotionDayStats emotions dayKey = Returns r ->
  (forall entry, In entry (sortedEmotions r)
                 <-> In entry (EmotionDay.counts r)) /\
  List.length (sortedEmotions r) = List.length (EmotionDay.counts r) /\
  Sorted (fun a b => snd b <= snd a) (sortedEmotions r) /\
  (0 < EmotionDay.total r ->
   exists rest,
     sortedEmotions r
     = (EmotionDay.dominant r,
        getCount (EmotionDay.dominant r) (EmotionDay.counts r)) :: rest) /\
  (forall em c, In (em, c) (sortedEmotions r) ->
     exists q : Q, emotionPct r c = Fin q /\ (0 < q)%Q /\ (q <= 100)%Q).
Proof.
  intros H.
  destruct (computeEmotionDayStats_inv emotions dayKey r H)
    as ((_ & _ & Hc & _ & Hnd & Hpos) & _ & Hdom).
  unfold sortedEmotions.
  split; [intros entry; apply sortBy_In|].
  split; [apply sortBy_length|].
  split.
  { eapply Sorted_weaken;
      [|apply (sortBy_descending _ countAfter countKey);
        apply countAfter_consistent].
    intros a b Hab. now apply countKey_le in Hab. }
  split.
  - intros Htot.
    assert (Hne : EmotionDay.counts r <> []).
    { intros E. rewrite E in Hc. simpl in Hc. lia. }
    destruct (sorted_head_is_scanned _ Hnd Hpos Hne) as (rest & Hs).
    exists rest. rewrite Hs, Hdom. unfold findDominant.
    set (res := fold_left scanDominant (EmotionDay.counts r) ("neutral", 0))
      in *.
    assert (Hin : In res (EmotionDay.counts r)).
    { apply (sortBy_In countAfter). rewrite Hs. now left. }
    destruct res as [k v]. simpl.
    now rewrite (getCount_of_entry _ Hnd k v Hin).
  - intros em c Hin.
    apply (proj1 (sortBy_In countAfter (em, c) (EmotionDay.counts r)))
      in Hin.
    unfold emotionPct. apply emotion_share.
    + rewrite Forall_forall in Hpos. exact (Hpos (em, c) Hin).
    + rewrite <- Hc. exact (entry_le_sum _ em c Hin).
Qed.

End SortedEmotions.
End StatsMore.

(* ================================================================== *)
(** * Properties of the emotion statistics over counter objects *)

Module EmotionStatsFacts.

Import Stats StatsScreen JsArray StatsFacts SortFacts.
Unset Implicit Arguments.
Local Open Scope nat_scope.
Local Open Scope string_scope.
Local Open Scope list_scope.

(** *** A counter object with plain keys is a table *)

Lemma plainKey_spec (k : string) :
  JsObject.plainKey k = true ->
  JsObject.arrayIndex k = None /\ JsObject.inherited k = false /\
  (k =? "__proto__") = false.
Proof.
  unfold JsObject.plainKey.
  destruct (JsObject.arrayIndex k); [discriminate|].
  intros H. apply negb_true_iff in H. repeat split; auto.
  destruct (String.eqb_spec k "__proto__") as [->|]; [|reflexivity].
  discriminate.
Qed.

Lemma setNamed_plusOne (em : string) (c : Mapping nat) :
  JsObject.setNamed em
    (JsObject.plusOne
       match JsObject.findNamed em
               (map (fun e => (fst e, JsObject.Number (snd e))) c) with
       | Some v => JsObject.Own v
       | None => JsObject.Undefined
       end)
    (map (fun e => (fst e, JsObject.Number (snd e))) c)
  = map (fun e => (fst e, JsObject.Number (snd e))) (incCount em c).
Proof.
  unfold incCount. induction c as [|[k n] rest IH]; simpl; [reflexivity|].
  destruct (k =? em); simpl; [reflexivity|]. now rewrite IH.
Qed.

Lemma increment_ofCounts (em : string) (c : Mapping nat) :
  JsObject.plainKey em = true ->
  JsObject.increment em (JsObject.ofCounts c)
  = JsObject.ofCounts (incCount em c).
Proof.
  intros H. destruct (plainKey_spec em H) as (Hidx & Hinh & Hproto).
  unfold JsObject.increment, JsObject.set, JsObject.get, JsObject.ofCounts.
  rewrite Hproto, Hidx. cbn [JsObject.elements JsObject.named].
  rewrite <- setNamed_plusOne.
  destruct (JsObject.findNamed em _); [reflexivity|]. now rewrite Hinh.
Qed.

Lemma entries_ofCounts (c : Mapping nat) :
  JsObject.entries (JsObject.ofCounts c)
  = map (fun e => (fst e, JsObject.Number (snd e))) c.
Proof. reflexivity. Qed.

Lemma bump_map {A B} (g : A -> B) (f : A -> A) (f' : B -> B) :
  (forall a, f' (g a) = g (f a)) ->
  forall i l,
    bump f' i (map g l)
    = match bump f i l with
      | Returns l' => Returns (map g l')
      | Throws => Throws
      end.
Proof.
  intros Hf i l; revert i.
  induction l as [|a l IH]; intros [|i]; simpl; try reflexivity.
  - now rewrite Hf.
  - rewrite IH. destruct (bump f i l); reflexivity.
Qed.

Lemma findDominant_ofCounts (c : Mapping nat) :
  EmotionStats.findDominant (JsObject.ofCounts c) = findDominant c.
Proof.
  unfold EmotionStats.findDominant, findDominant.
  rewrite entries_ofCounts. generalize ("neutral", 0).
  induction c as [|[k n] rest IH]; intros acc; [reflexivity|].
  simpl. rewrite <- IH. destruct acc as [d m]. reflexivity.
Qed.

Section Refinement.
Context {rt : Runtime}.

Lemma visitEmotion_ofDay dayKey (st : EmotionDay.t) (e : Emotion.t) :
  (countedEmotion dayKey e = true ->
   JsObject.plainKey (toLowerCase (Emotion.emotion e)) = true) ->
  EmotionStats.visitEmotion dayKey (EmotionStats.ofDay st) e
  = EmotionStats.ofCompletion (visitEmotion dayKey st e).
Proof.
  unfold countedEmotion, EmotionStats.visitEmotion, visitEmotion.
  destruct (truthy (Emotion.timestamp e)); simpl; [|reflexivity].
  destruct (truthy (Emotion.emotion e)); simpl; [|reflexivity].
  destruct (formatDateKey (Date_parse (Emotion.timestamp e)) =? dayKey);
    simpl; [|reflexivity].
  intros Hplain. specialize (Hplain eq_refl).
  destruct (getHours (Date_parse (Emotion.timestamp e))) as [h|];
    [|reflexivity].
  rewrite (bump_map EmotionStats.ofHour EmotionHour.incTotal
             EmotionStats.Hour.incTotal) by reflexivity.
  destruct (bump EmotionHour.incTotal h (EmotionDay.hourly st)) as [h1|];
    simpl; [|reflexivity].
  rewrite (bump_map EmotionStats.ofHour
             (EmotionHour.incCounts
                (incCount (toLowerCase (Emotion.emotion e))))
             (EmotionStats.Hour.incCounts
                (JsObject.increment (toLowerCase (Emotion.emotion e))))).
  2:{ intros b. unfold EmotionStats.ofHour, EmotionStats.Hour.incCounts,
        EmotionHour.incCounts. simpl.
      now rewrite increment_ofCounts. }
  destruct (bump _ h h1) as [h2|]; simpl; [|reflexivity].
  unfold EmotionStats.ofDay. simpl. now rewrite increment_ofCounts.
Qed.

Lemma forEach_ofDay dayKey (es : list Emotion.t) :
  Forall (fun e => countedEmotion dayKey e = true ->
                   JsObject.plainKey (toLowerCase (Emotion.emotion e)) = true)
         es ->
  forall st,
    forEach (EmotionStats.visitEmotion dayKey) es (EmotionStats.ofDay st)
    = EmotionStats.ofCompletion (forEach (visitEmotion dayKey) es st).
Proof.
  induction 1 as [|e es He Hes IH]; intros st; [reflexivity|].
  simpl. rewrite (visitEmotion_ofDay dayKey st e He).
  destruct (visitEmotion dayKey st e) as [s1|]; simpl; [apply IH|reflexivity].
Qed.

Lemma plain_labels_records dayKey (es : list Emotion.t) :
  Forall (fun em => JsObject.plainKey em = true)
         (map (fun e => toLowerCase (Emotion.emotion e))
              (filter (countedEmotion dayKey) es)) ->
  Forall (fun e => countedEmotion dayKey e = true ->
                   JsObject.plainKey (toLowerCase (Emotion.emotion e)) = true)
         es.
Proof.
  induction es as [|e es IH]; simpl; intros H; [constructor|].
  destruct (countedEmotion dayKey e) eqn:E; simpl in H.
  - apply Forall_cons_iff in H as [H1 H2]. constructor; auto.
  - constructor; [intros C; congruence|auto].
Qed.

(** With plain labels the statistics over counter objects are the
    statistics over tables. *)
Lemma computeEmotionDayStats_ofDay
      (emotions : Mapping Emotion.t) (dayKey : string) :
  Forall (fun em => JsObject.plainKey em = true)
         (dayLabels emotions dayKey) ->
  EmotionStats.computeEmotionDayStats emotions dayKey
  = EmotionStats.ofCompletion (computeEmotionDayStats emotions dayKey).
Proof.
  intros H. apply plain_labels_records in H.
  unfold EmotionStats.computeEmotionDayStats, computeEmotionDayStats.
  change EmotionStats.emptyDay with (EmotionStats.ofDay emptyEmotionDay).
  rewrite (forEach_ofDay dayKey _ H).
  destruct (forEach (visitEmotion dayKey) _ emptyEmotionDay) as [st|];
    simpl; [|reflexivity].
  unfold EmotionStats.ofDay. simpl. now rewrite findDominant_ofCounts.
Qed.

Lemma plain_result (emotions : Mapping Emotion.t) (dayKey : string)
      (r : EmotionStats.Day.t) :
  EmotionStats.computeEmotionDayStats emotions dayKey = Returns r ->
  Forall (fun em => JsObject.plainKey em = true)
         (dayLabels emotions dayKey) ->
  exists r0, computeEmotionDayStats emotions dayKey = Returns r0 /\
             r = EmotionStats.ofDay r0.
Proof.
  intros Hr H. rewrite (computeEmotionDayStats_ofDay _ _ H) in Hr.
  destruct (computeEmotionDayStats emotions dayKey) as [r0|];
    [|discriminate].
  exists r0. split; [reflexivity|]. simpl in Hr. congruence.
Qed.

(** C8 (amended).  When the labels of the day's records are plain keys,
    neither array indices such as "7" nor names that [Object.prototype]
    defines such as "constructor" and "__proto__", then on every result
    of [computeEmotionDayStats]: the entries of [counts] are the
    categories of the day, each with the number of its records; with no
    record of the day the dominant emotion is "neutral"; otherwise it is
    a category of the day whose count no other category exceeds, and
    every category met before its first record, in the order the records
    are visited, has a strictly smaller count, so among tied categories
    the one met first wins. *)
Theorem dominant_is_first_maximum
        (emotions : Mapping Emotion.t) (dayKey : string)
        (r : EmotionStats.Day.t) :
  EmotionStats.computeEmotionDayStats emotions dayKey = Returns r ->
  let L := dayLabels emotions dayKey in
  let n := count_occ string_dec L in
  Forall (fun em => JsObject.plainKey em = true) L ->
  (forall em v,
      In (em, v) (JsObject.entries (EmotionStats.Day.counts r))
      <-> 0 < n em /\ v = JsObject.Number (n em)) /\
  (L = [] -> EmotionStats.Day.dominant r = "neutral") /\
  (L <> [] ->
   0 < n (EmotionStats.Day.dominant r) /\
   (forall em, n em <= n (EmotionStats.Day.dominant r)) /\
   exists pre post,
     L = pre ++ EmotionStats.Day.dominant r :: post /\
     ~ In (EmotionStats.Day.dominant r) pre /\
     forall em, In em pre -> n em < n (EmotionStats.Day.dominant r)).
Proof.
  intros Hr L n Hplain.
  destruct (plain_result emotions dayKey r Hr Hplain) as (r0 & Hr0 & ->).
  destruct (table_dominant_is_first_maximum emotions dayKey r0 Hr0)
    as (Hcount & Hempty & Hmax).
  destruct (StatsMore.computeEmotionDayStats_inv emotions dayKey r0 Hr0)
    as ((_ & _ & _ & _ & Hnd & Hpos) & _ & _).
  fold L in Hcount, Hempty, Hmax. fold n in Hcount, Hmax.
  split; [|split; [exact Hempty|exact Hmax]].
  intros em v. simpl EmotionStats.Day.counts. rewrite entries_ofCounts.
  rewrite in_map_iff. split.
  - intros ([k c] & E & Hin). simpl in E. inversion E; subst k v.
    rewrite <- Hcount, (getCount_of_entry _ Hnd em c Hin).
    rewrite Forall_forall in Hpos. specialize (Hpos _ Hin). simpl in Hpos.
    split; [lia|reflexivity].
  - intros [Hn ->]. exists (em, n em). split; [reflexivity|].
    rewrite <- Hcount. apply entry_of_getCount. rewrite Hcount. lia.
Qed.

End Refinement.

Lemma dominant_is_first_maximum_witness :
  exists r,
    @EmotionStats.computeEmotionDayStats Scenarios.runtime
      Scenarios.scenarioD "2024-05-01" = Returns r /\
    EmotionStats.Day.dominant r = "happy" /\
    In ("happy", JsObject.Number 2)
       (JsObject.entries (EmotionStats.Day.counts r)) /\
    In ("sad", JsObject.Number 2)
       (JsObject.entries (EmotionStats.Day.counts r)).
Proof.
  eexists. split; [vm_compute; reflexivity|].
  split; [reflexivity|].
  destruct (@dominant_is_first_maximum Scenarios.runtime Scenarios.scenarioD
              "2024-05-01" _ eq_refl) as (Hcount & _ & _).
  { repeat constructor. }
  split; apply Hcount; split; try reflexivity; simpl; lia.
Defined.

(** C8, as stated, fails for labels that are no plain keys.  With one
    record "happy" followed by one record "7" the two categories tie, and
    the dominant emotion is "7", met last: the object lists the array
    index first.  A record with the label "__proto__" is counted in
    [total] and leaves [counts] empty; one with the label "constructor"
    leaves a string in [counts]; in both cases the dominant emotion stays
    "neutral". *)
Lemma index_label_wins_tie :
  (exists r,
      @EmotionStats.computeEmotionDayStats Scenarios.runtime
        OddLabels.happyThenSeven "2024-05-01" = Returns r /\
      @dayLabels Scenarios.runtime OddLabels.happyThenSeven "2024-05-01"
      = ["happy"; "7"] /\
      JsObject.entries (EmotionStats.Day.counts r)
      = [("7", JsObject.Number 1); ("happy", JsObject.Number 1)] /\
      EmotionStats.Day.dominant r = "7") /\
  (exists r,
      @EmotionStats.computeEmotionDayStats Scenarios.runtime
        OddLabels.protoLabel "2024-05-01" = Returns r /\
      EmotionStats.Day.total r = 1 /\
      JsObject.entries (EmotionStats.Day.counts r) = [] /\
      EmotionStats.Day.dominant r = "neutral") /\
  (exists r,
      @EmotionStats.computeEmotionDayStats Scenarios.runtime
        OddLabels.constructorLabel "2024-05-01" = Returns r /\
      EmotionStats.Day.total r = 1 /\
      JsObject.entries (EmotionStats.Day.counts r)
      = [("constructor", JsObject.Text)] /\
      EmotionStats.Day.dominant r = "neutral").
Proof.
  split; [|split]; eexists; (split; [vm_compute; reflexivity|]);
    repeat split.
Qed.


(** *** Consistency and the sorted list *)

Lemma numbers_ofCounts (c : Mapping nat) :
  map (fun e => JsObject.numberOf (snd e))
      (map (fun e => (fst e, JsObject.Number (snd e))) c)
  = map snd c.
Proof. induction c as [|[k n] rest IH]; simpl; [reflexivity|now rewrite IH]. Qed.

Lemma keys_ofCounts (c : Mapping nat) :
  map fst (map (fun e => (fst e, JsObject.Number (snd e))) c) = map fst c.
Proof. induction c as [|[k n] rest IH]; simpl; [reflexivity|now rewrite IH]. Qed.

Lemma insertBy_map {A B} (g : A -> B) (after : A -> A -> bool)
      (after' : B -> B -> bool) :
  (forall a b, after' (g a) (g b) = after a b) ->
  forall x l, insertBy after' (g x) (map g l) = map g (insertBy after x l).
Proof.
  intros H x l. induction l as [|y l IH]; simpl; [reflexivity|].
  rewrite H. destruct (after x y); simpl; [now rewrite IH|reflexivity].
Qed.

Lemma sortBy_map {A B} (g : A -> B) (after : A -> A -> bool)
      (after' : B -> B -> bool) :
  (forall a b, after' (g a) (g b) = after a b) ->
  forall l, sortBy after' (map g l) = map g (sortBy after l).
Proof.
  intros H l. induction l as [|x l IH]; [reflexivity|].
  change (sortBy after' (map g (x :: l)))
    with (insertBy after' (g x) (sortBy after' (map g l))).
  change (sortBy after (x :: l)) with (insertBy after x (sortBy after l)).
  rewrite IH. now apply insertBy_map.
Qed.

Lemma Sorted_map {A B} (g : A -> B) (R : A -> A -> Prop)
      (R' : B -> B -> Prop) :
  (forall a b, R a b -> R' (g a) (g b)) ->
  forall l, Sorted R l -> Sorted R' (map g l).
Proof.
  intros H l. induction 1 as [|a l Hs IH Hhd]; simpl; constructor; auto.
  destruct Hhd; simpl; constructor; auto.
Qed.

Lemma sortedEmotions_ofDay (r0 : EmotionDay.t) :
  EmotionStats.sortedEmotions (EmotionStats.ofDay r0)
  = map (fun e => (fst e, JsObject.Number (snd e))) (sortedEmotions r0).
Proof.
  unfold EmotionStats.sortedEmotions, sortedEmotions.
  simpl EmotionStats.Day.counts. rewrite entries_ofCounts.
  apply sortBy_map. intros a b. reflexivity.
Qed.

Section Consistency.
Context {rt : Runtime}.

(** X27.  When the labels of the day's records are plain keys, a result
    of [computeEmotionDayStats] is consistent: [total] is the number of
    the day's records with a category, and it is both the sum of the
    counts of the categories and the sum of the 24 hourly totals; in
    every hour the counts of the categories add up to the hour's total;
    no category is listed twice and every listed category has a number
    of at least 1 as its count. *)
Theorem emotion_stats_consistent
        (emotions : Mapping Emotion.t) (dayKey : string)
        (r : EmotionStats.Day.t) :
  EmotionStats.computeEmotionDayStats emotions dayKey = Returns r ->
  Forall (fun em => JsObject.plainKey em = true)
         (dayLabels emotions dayKey) ->
  let count := fun e : string * JsObject.value => JsObject.numberOf (snd e) in
  EmotionStats.Day.total r = List.length (dayLabels emotions dayKey) /\
  list_sum (map count (JsObject.entries (EmotionStats.Day.counts r)))
  = EmotionStats.Day.total r /\
  List.length (EmotionStats.Day.hourly r) = 24 /\
  list_sum (map EmotionStats.Hour.total (EmotionStats.Day.hourly r))
  = EmotionStats.Day.total r /\
  (forall b, In b (EmotionStats.Day.hourly r) ->
             list_sum (map count
                           (JsObject.entries (EmotionStats.Hour.counts b)))
             = EmotionStats.Hour.total b) /\
  NoDup (map fst (JsObject.entries (EmotionStats.Day.counts r))) /\
  (forall em v, In (em, v) (JsObject.entries (EmotionStats.Day.counts r)) ->
                exists c, v = JsObject.Number c /\ 1 <= c).
Proof.
  intros Hr Hplain count.
  destruct (plain_result emotions dayKey r Hr Hplain) as (r0 & Hr0 & ->).
  destruct (StatsMore.computeEmotionDayStats_inv emotions dayKey r0 Hr0)
    as ((Hsum & Hlen & Hc & Hb & Hnd & Hpos) & Htot & _).
  simpl EmotionStats.Day.total. simpl EmotionStats.Day.counts.
  simpl EmotionStats.Day.hourly. rewrite entries_ofCounts.
  split; [exact Htot|].
  split; [unfold count; now rewrite numbers_ofCounts|].
  split; [now rewrite length_map|].
  split; [now rewrite map_map|].
  split.
  { intros b Hin. apply in_map_iff in Hin as (b0 & <- & Hin0).
    rewrite Forall_forall in Hb. simpl. rewrite entries_ofCounts.
    unfold count. rewrite numbers_ofCounts. now apply Hb. }
  split; [now rewrite keys_ofCounts|].
  intros em v Hin. apply in_map_iff in Hin as ([k c] & E & Hin0).
  simpl in E. inversion E; subst. exists c. split; [reflexivity|].
  rewrite Forall_forall in Hpos. exact (Hpos _ Hin0).
Qed.

(** X28.  When the labels of the day's records are plain keys, the
    sorted list of the screen has the entries of [counts], each once, in
    descending order of count; when the day has a reading its first entry
    is the dominant emotion, so the card and the head of the list agree
    also on ties; and the percentage shown for each entry is a finite
    number above 0 and at most 100. *)
Theorem sortedEmotions_agree_with_dominant
        (emotions : Mapping Emotion.t) (dayKey : string)
        (r : EmotionStats.Day.t) :
  EmotionStats.computeEmotionDayStats emotions dayKey = Returns r ->
  Forall (fun em => JsObject.plainKey em = true)
         (dayLabels emotions dayKey) ->
  (forall entry, In entry (EmotionStats.sortedEmotions r)
                 <-> In entry (JsObject.entries (EmotionStats.Day.counts r))) /\
  List.length (EmotionStats.sortedEmotions r)
  = List.length (JsObject.entries (EmotionStats.Day.counts r)) /\
  Sorted (fun a b => JsObject.numberOf (snd b) <= JsObject.numberOf (snd a))
         (EmotionStats.sortedEmotions r) /\
  (0 < EmotionStats.Day.total r ->
   exists v rest,
     EmotionStats.sortedEmotions r
     = (EmotionStats.Day.dominant r, v) :: rest) /\
  (forall em v, In (em, v) (EmotionStats.sortedEmotions r) ->
     exists q : Q,
       EmotionStats.emotionPct r v = Fin q /\ (0 < q)%Q /\ (q <= 100)%Q).
Proof.
  intros Hr Hplain.
  destruct (plain_result emotions dayKey r Hr Hplain) as (r0 & Hr0 & ->).
  destruct (StatsMore.table_sortedEmotions emotions dayKey r0 Hr0)
    as (Hin & Hlen & Hsorted & Hhead & Hpct).
  rewrite sortedEmotions_ofDay. simpl EmotionStats.Day.counts.
  rewrite entries_ofCounts.
  split.
  { intros entry. rewrite !in_map_iff. split.
    - intros (e & E & He). exists e. split; [exact E|now apply Hin].
    - intros (e & E & He). exists e. split; [exact E|now apply Hin]. }
  split; [now rewrite !length_map|].
  split.
  { eapply Sorted_map; [|exact Hsorted]. intros a b Hab. exact Hab. }
  split.
  { intros Htot. destruct (Hhead Htot) as (rest & Hrest).
    rewrite Hrest. simpl. eauto. }
  intros em v Hv. apply in_map_iff in Hv as ([k c] & E & Hc).
  simpl in E. inversion E; subst. exact (Hpct _ _ Hc).
Qed.

End Consistency.

Lemma emotion_stats_consistent_witness :
  exists r,
    @EmotionStats.computeEmotionDayStats Scenarios.runtime
      Scenarios.scenarioD "2024-05-01" = Returns r /\
    EmotionStats.Day.total r = 4 /\
    NoDup (map fst (JsObject.entries (EmotionStats.Day.counts r))).
Proof.
  eexists. split; [vm_compute; reflexivity|].
  destruct (@emotion_stats_consistent Scenarios.runtime Scenarios.scenarioD
              "2024-05-01" _ eq_refl)
    as (Ht & _ & _ & _ & _ & Hnd & _).
  { repeat constructor. }
  split; [exact Ht|exact Hnd].
Defined.

Lemma sortedEmotions_agree_with_dominant_witness :
  exists r v rest,
    @EmotionStats.computeEmotionDayStats Scenarios.runtime
      Scenarios.scenarioD "2024-05-01" = Returns r /\
    EmotionStats.sortedEmotions r = ("happy", v) :: rest.
Proof.
  eexists.
  destruct (@sortedEmotions_agree_with_dominant Scenarios.runtime
              Scenarios.scenarioD "2024-05-01" _ eq_refl)
    as (_ & _ & _ & Hhead & _).
  { repeat constructor. }
  destruct (Hhead ltac:(simpl; lia)) as (v & rest & Hrest).
  exists v, rest. split; [reflexivity|exact Hrest].
Defined.

End EmotionStatsFacts.
